(** * github_stats.py: the stats-aggregation engine, embedded and verified

    A shallow embedding of [src/github_stats.py]:
    - [Queries.query_rest], the REST gateway with its bounded 202-retry loop;
    - [Stats.get_stats], the repository collector walking the paged
      GraphQL overview;
    - [Stats.lines_changed], the lines-changed engine with its durable
      cache, and [Stats.views];
    - the memoising accessors of [Stats], [Stats.total_contributions]
      among them;
    - [Stats.to_str], up to the formatting of the values it gathers.

    Python [int] is [Z]; Python [float] is IEEE-754 binary64, taken from
    the Standard Library's [SpecFloat] at precision 53; [dict]s that are
    iterated are insertion-ordered association lists, those that are only
    looked up are [gmap]s; [set]s are [gset]s. *)

From Stdlib Require Import ZArith Ascii String List Lia.
From Stdlib Require Import Floats.SpecFloat.
From stdpp Require Import base option list gmap sets strings.

Local Open Scope string_scope.
Local Open Scope list_scope.
Local Open Scope Z_scope.

(** ** Exceptions and results *)

(** The exceptions the modelled code can raise.  [TransportError] stands
    for whatever the HTTP client raises on a connection-level failure. *)
Inductive exn : Type :=
  | ZeroDivisionError
  | OverflowError
  | ValueError
  | AttributeError
  | AssertionError
  | OSError
  | TransportError.

(** The outcome of running a piece of the program: a value, an uncaught
    exception, or [Diverge] when the fuel given to an unbounded loop ran
    out. *)
Inductive result (A : Type) : Type :=
  | Ok (a : A)
  | Raise (e : exn)
  | Diverge.

Arguments Ok {A} a.
Arguments Raise {A} e.
Arguments Diverge {A}.

Definition bind {A B : Type} (r : result A) (k : A → result B) : result B :=
  match r with
  | Ok a => k a
  | Raise e => Raise e
  | Diverge => Diverge
  end.

Declare Scope py_scope.
Delimit Scope py_scope with py.
Notation "'let*' x ':=' c 'in' k" := (bind c (fun x => k))
  (at level 10, x pattern, c at level 100, k at level 200) : py_scope.
Local Open Scope py_scope.

(** A loop body run over a list, stopping at the first exception. *)
Fixpoint foldM {A B : Type} (f : A → B → result A) (l : list B) (a : A)
  : result A :=
  match l with
  | [] => Ok a
  | b :: l' => let* a' := f a b in foldM f l' a'
  end.

(** A comprehension whose element expression may raise. *)
Fixpoint mapM_r {A B : Type} (f : A → result B) (l : list A)
  : result (list B) :=
  match l with
  | [] => Ok []
  | a :: l' => let* b := f a in let* bs := mapM_r f l' in Ok (b :: bs)
  end.

(** The outcome with its value, if any, passed through [f]. *)
Definition rmap {A B : Type} (f : A → B) (r : result A) : result B :=
  match r with
  | Ok a => Ok (f a)
  | Raise e => Raise e
  | Diverge => Diverge
  end.

(** ** Python numbers *)

Module PyFloat.

Definition prec : Z := 53.
Definition emax : Z := 1024.

(** A Python [float]. *)
Definition float : Type := spec_float.

(** [float(z)]: the nearest binary64, ties to even; an [int] too large
    for a double raises [OverflowError]. *)
Definition of_int (z : Z) : result float :=
  match binary_normalize prec emax z 0 false with
  | S754_infinity _ => Raise OverflowError
  | f => Ok f
  end.

(** [a / b] on two [int]s: true division, correctly rounded from the
    exact quotient; [b = 0] raises [ZeroDivisionError] and a quotient
    beyond the largest double raises [OverflowError]. *)
Definition true_div (a b : Z) : result float :=
  if b =? 0 then Raise ZeroDivisionError
  else
    let s := xorb (a <? 0) (b <? 0) in
    if a =? 0 then Ok (S754_zero s)
    else
      let '(m, e, l) :=
        SFdiv_core_binary prec emax (Z.abs a) 0 (Z.abs b) 0 in
      match binary_round_aux prec emax s m e l with
      | S754_infinity _ => Raise OverflowError
      | f => Ok f
      end.

(** [z * f] with [z] an [int] and [f] a [float]: [z] is converted
    first, the product is the IEEE one (it may be infinite). *)
Definition int_mul (z : Z) (f : float) : result float :=
  let* x := of_int z in Ok (SFmul prec emax x f).

(** [int(f)]: truncation toward zero; infinities raise
    [OverflowError], NaN raises [ValueError]. *)
Definition to_int (f : float) : result Z :=
  match f with
  | S754_zero _ => Ok 0
  | S754_infinity _ => Raise OverflowError
  | S754_nan => Raise ValueError
  | S754_finite s m e =>
      let q := if 0 <=? e then Z.shiftl (Z.pos m) e
               else Z.shiftr (Z.pos m) (- e) in
      Ok (if s then - q else q)
  end.

End PyFloat.

(** ** JSON bodies of the REST endpoints

    The two REST endpoints the program reads answer with JSON.  The
    types below keep every distinction the code inspects ([isinstance]
    tests, [.get] with a default, [is None]); an absent key is [None]. *)

(** One week of an author's statistics: [week.get("a", 0)] and
    [week.get("d", 0)]. *)
Record week : Type := { week_a : option Z; week_d : option Z }.

(** The value of [author_obj.get("author", {})]. *)
Inductive author_field : Type :=
  | AuthorAbsent                        (* no "author" key: the default {} *)
  | AuthorNotDict                       (* present, not a dict (null, ...) *)
  | AuthorDict (login : option string). (* a dict, with or without "login" *)

(** One element of the contributor-statistics list. *)
Inductive author_obj : Type :=
  | NotADict
  | AuthorObj (author : author_field) (weeks : option (list week)).

(** One bucket of the traffic-views answer: [view.get("count", 0)]. *)
Record view : Type := { view_count : option Z }.

(** A decoded JSON body. *)
Inductive body : Type :=
  | BNull                                (* null, Python's None *)
  | BList (items : list author_obj)      (* a list *)
  | BDict (views : option (list view)).  (* a dict, with or without "views" *)

(** [dict()] *)
Definition empty_dict : body := BDict None.

(** ** The request gateway: [Queries.query_rest] *)

Module Gateway.

(** What the asynchronous client ([self.session.get]) does. *)
Inductive primary_reply : Type :=
  | PFail                                      (* the call raises *)
  | PReply (status : Z) (json : option body).  (* [None]: r.json() raises *)

(** What the synchronous fallback ([requests.get]) does. *)
Inductive secondary_reply : Type :=
  | SFail
  | SReply (status_code : Z) (json : option body).

(** Observable effects of one call, in order. *)
Inductive event : Type :=
  | EGet (url : string)          (* a GET through the primary client *)
  | EGetFallback (url : string)  (* a GET through the fallback client *)
  | ESleep (seconds : Z)
  | EPrint (msg : string).

Definition msg_202 : string := "A path returned 202. Retrying...".
Definition msg_fallback : string := "aiohttp failed for rest query".
Definition msg_give_up : string :=
  "There were too many 202s. Data for this repository will be incomplete.".

(** [if path.startswith("/"): path = path[1:]] *)
Definition strip_slash (path : string) : string :=
  match path with
  | String c rest => if Ascii.eqb c "/"%char then rest else path
  | EmptyString => path
  end.

Definition api_url (path : string) : string :=
  "https://api.github.com/" +:+ path.

Section QueryRest.

(** The network: the reply to the [i]-th attempt of a call, by URL.  A
    process requests each path in one call only ([lines_changed] and
    [views] are memoised), so a reply may depend on everything the
    process did before. *)
Variable primary : nat → string → primary_reply.
Variable secondary : nat → string → secondary_reply.

(** The [except:] branch of attempt [i]; [continue_] is the rest of
    the loop. *)
Definition fallback (i : nat) (url : string)
    (continue_ : list event * result body) : list event * result body :=
  match secondary i url with
  | SFail => ([EPrint msg_fallback; EGetFallback url], Raise TransportError)
  | SReply status_code json =>
      if status_code =? 202 then
        (EPrint msg_fallback :: EGetFallback url :: EPrint msg_202
           :: ESleep 2 :: continue_.1, continue_.2)
      else if status_code =? 200 then
        ([EPrint msg_fallback; EGetFallback url],
         match json with Some b => Ok b | None => Raise ValueError end)
      else
        (EPrint msg_fallback :: EGetFallback url :: continue_.1,
         continue_.2)
  end.

(** [remaining] iterations of [for _ in range(60)] are left, [i] were
    made.  [params] is never passed by the callers, so it is the empty
    dict throughout. *)
Fixpoint query_rest_loop (remaining i : nat) (path : string)
  : list event * result body :=
  match remaining with
  | O => ([EPrint msg_give_up], Ok empty_dict)
  | S n =>
      let path := strip_slash path in
      let url := api_url path in
      let continue_ := query_rest_loop n (S i) path in
      match primary i url with
      | PFail =>
          let r := fallback i url continue_ in (EGet url :: r.1, r.2)
      | PReply status json =>
          if status =? 202 then
            (EGet url :: EPrint msg_202 :: ESleep 2 :: continue_.1,
             continue_.2)
          else
            match json with
            | None =>
                let r := fallback i url continue_ in
                (EGet url :: r.1, r.2)
            | Some BNull => (EGet url :: continue_.1, continue_.2)
            | Some b => ([EGet url], Ok b)
            end
      end
  end.

Definition query_rest (path : string) : list event * result body :=
  query_rest_loop 60 0 path.

End QueryRest.

(** The path attempt [i] requests: a leading slash is dropped at the
    top of every iteration. *)
Definition url_at (path : string) (i : nat) : string :=
  api_url (Nat.iter (S i) strip_slash path).

(** Attempt [i] was answered by the asynchronous-not-ready signal:
    status 202 from the primary client, or, when the primary client
    failed, from the fallback. *)
Definition saw_202 (primary : nat → string → primary_reply)
    (secondary : nat → string → secondary_reply)
    (i : nat) (url : string) : bool :=
  let via_fallback :=
    match secondary i url with
    | SReply c _ => c =? 202
    | SFail => false
    end in
  match primary i url with
  | PFail => via_fallback
  | PReply status json =>
      (status =? 202)
      || (match json with None => via_fallback | Some _ => false end)
  end.

(** Counting the attempts and the pauses of a trace. *)
Fixpoint attempts (t : list event) : nat :=
  match t with
  | [] => O
  | EGet _ :: t' => S (attempts t')
  | _ :: t' => attempts t'
  end.

Fixpoint sleeps (t : list event) : list Z :=
  match t with
  | [] => []
  | ESleep s :: t' => s :: sleeps t'
  | _ :: t' => sleeps t'
  end.

(** The URLs a trace requested, through either client. *)
Fixpoint requested (t : list event) : list string :=
  match t with
  | [] => []
  | EGet url :: t' => url :: requested t'
  | EGetFallback url :: t' => url :: requested t'
  | _ :: t' => requested t'
  end.

End Gateway.

(** ** Insertion-ordered dictionaries *)

(** A Python [dict] that the program iterates: keys are unique and kept
    in insertion order. *)
Fixpoint alist_lookup {V : Type} (k : string) (l : list (string * V))
  : option V :=
  match l with
  | [] => None
  | (k', v) :: l' => if decide (k' = k) then Some v else alist_lookup k l'
  end.

(** [d[k] = v]: overwrite in place, or append a new key. *)
Fixpoint alist_set {V : Type} (k : string) (v : V) (l : list (string * V))
  : list (string * V) :=
  match l with
  | [] => [(k, v)]
  | (k', v') :: l' =>
      if decide (k' = k) then (k, v) :: l' else (k', v') :: alist_set k v l'
  end.

(** ** The repository collector: [Stats.get_stats] *)

Module Collector.

(** One edge of [languages.edges]: [size], [node.name], [node.color]. *)
Record lang_edge : Type := {
  edge_size : option Z;
  edge_name : option string;
  edge_color : option string
}.

(** One repository node of the overview query.  [nameWithOwner] and
    [stargazers] are non-null in the GraphQL schema; [totalCount],
    [forkCount] and [languages.edges] are read with a default. *)
Record repo_node : Type := {
  nameWithOwner : string;
  totalCount : option Z;
  forkCount : option Z;
  language_edges : option (list lang_edge)
}.

(** [pageInfo]: an absent [endCursor] key is [None], a null one is
    [Some None]. *)
Record page_info : Type := {
  hasNextPage : option bool;
  endCursor : option (option string)
}.

Record connection : Type := {
  nodes : option (list repo_node);
  pageInfo : option page_info
}.

(** The part of one GraphQL answer under [data.viewer]; a missing
    [data] or [viewer] leaves every field absent.  [viewer_null] is set
    when [data], or [viewer] under it, is present and null, as in the
    error answer [{"data": null, "errors": ...}]: [.get] then returns
    [None] instead of its default, and the other fields are not
    read. *)
Record page : Type := {
  viewer_null : bool;
  viewer_name : option string;
  viewer_login : option string;
  repositoriesContributedTo : option connection;
  repositories : option connection
}.

(** [{}] *)
Definition empty_page : page :=
  {| viewer_null := false; viewer_name := None; viewer_login := None;
     repositoriesContributedTo := None; repositories := None |}.

(** A value of [self._languages]. *)
Record lang_rec : Type := {
  size : Z;
  occurrences : Z;
  color : option string;
  prop : option PyFloat.float
}.

(** The fields [get_stats] (re)computes. *)
Record snapshot : Type := {
  snap_name : option string;
  snap_stargazers : Z;
  snap_forks : Z;
  snap_languages : list (string * lang_rec);
  snap_repos : gset string;
  snap_ignored_repos : gset string;
  snap_repo_language_data : gmap string (list (string * PyFloat.float))
}.

(** The assignments at the top of [get_stats]; [self._name] keeps
    whatever it held. *)
Definition reset (old_name : option string) : snapshot :=
  {| snap_name := old_name; snap_stargazers := 0; snap_forks := 0;
     snap_languages := []; snap_repos := ∅; snap_ignored_repos := ∅;
     snap_repo_language_data := ∅ |}.

(** [c.get("nodes", [])] *)
Definition conn_nodes (c : option connection) : list repo_node :=
  match c with
  | Some c' => default [] (nodes c')
  | None => []
  end.

(** [c.get("pageInfo", {})] *)
Definition conn_page_info (c : option connection) : option page_info :=
  match c with
  | Some c' => pageInfo c'
  | None => None
  end.

(** [c.get("pageInfo", {}).get("hasNextPage", False)] *)
Definition has_next (c : option connection) : bool :=
  match conn_page_info c with
  | Some i => default false (hasNextPage i)
  | None => false
  end.

(** [c.get("pageInfo", {}).get("endCursor", old)] *)
Definition end_cursor (c : option connection) (old : option string)
  : option string :=
  match conn_page_info c with
  | Some i => default old (endCursor i)
  | None => old
  end.

Definition lang_name_of (lang : lang_edge) : string :=
  default "Other" (edge_name lang).

Section GetStats.

Variable exclude_repos : gset string.
Variable exclude_langs : gset string.
Variable consider_forked_repos : bool.

(** The GraphQL endpoint: the answer to the [k]-th overview query of
    the process, given the two cursors sent.  [Ok None] is a null
    answer, [Raise] a failure of both transports. *)
Variable graphql :
  nat → option string → option string → result (option page).

(** Body of [for repo in contrib_repos.get("nodes", [])]. *)
Definition note_ignored (ignored : gset string) (repo : repo_node)
  : gset string :=
  let name := nameWithOwner repo in
  if decide (name ∈ ignored ∨ name ∈ exclude_repos) then ignored
  else {[ name ]} ∪ ignored.

(** First loop over the language edges: the repository's own sizes. *)
Definition repo_langs_step (acc : list (string * Z) * Z) (lang : lang_edge)
  : list (string * Z) * Z :=
  let lang_name := lang_name_of lang in
  let sz := default 0 (edge_size lang) in
  if decide (lang_name ∈ exclude_langs) then acc
  else (alist_set lang_name sz acc.1, acc.2 + sz).

(** [{lang: size / total_size for lang, size in repo_langs.items()}] *)
Definition proportions (repo_langs : list (string * Z)) (total_size : Z)
  : result (list (string * PyFloat.float)) :=
  mapM_r (fun kv : string * Z =>
            let* p := PyFloat.true_div kv.2 total_size in Ok (kv.1, p))
         repo_langs.

(** Second loop over the language edges: the global aggregate. *)
Definition add_language (langs : list (string * lang_rec))
    (lang : lang_edge) : list (string * lang_rec) :=
  let lang_name := lang_name_of lang in
  if decide (lang_name ∈ exclude_langs) then langs
  else
    match alist_lookup lang_name langs with
    | Some v =>
        alist_set lang_name
          {| size := size v + default 0 (edge_size lang);
             occurrences := occurrences v + 1;
             color := color v; prop := prop v |} langs
    | None =>
        alist_set lang_name
          {| size := default 0 (edge_size lang); occurrences := 1;
             color := edge_color lang; prop := None |} langs
    end.

(** Body of [for repo in repos]. *)
Definition admit_repo (st : snapshot) (repo : repo_node)
  : result snapshot :=
  let name := nameWithOwner repo in
  if decide (name ∈ snap_repos st ∨ name ∈ exclude_repos) then Ok st
  else
    let edges := default [] (language_edges repo) in
    let '(repo_langs, total_size) :=
      fold_left repo_langs_step edges ([], 0) in
    let* data :=
      if 0 <? total_size then
        let* props := proportions repo_langs total_size in
        Ok (<[ name := props ]> (snap_repo_language_data st))
      else Ok (snap_repo_language_data st) in
    Ok {| snap_name := snap_name st;
          snap_stargazers :=
            snap_stargazers st + default 0 (totalCount repo);
          snap_forks := snap_forks st + default 0 (forkCount repo);
          snap_languages := fold_left add_language edges (snap_languages st);
          snap_repos := {[ name ]} ∪ snap_repos st;
          snap_ignored_repos := snap_ignored_repos st;
          snap_repo_language_data := data |}.

(** The list the admission loop iterates for one page. *)
Definition candidates (p : page) : list repo_node :=
  if consider_forked_repos
  then conn_nodes (repositories p) ++ conn_nodes (repositoriesContributedTo p)
  else conn_nodes (repositories p).

(** One iteration of [while True], after the query has answered.  On
    a null [data] or [viewer] the first [.get] chain of the iteration
    is applied to [None] and raises. *)
Definition process_page (st : snapshot) (p : page) : result snapshot :=
  if viewer_null p then Raise AttributeError else
  let name :=
    match viewer_name p with
    | Some n => n
    | None => default "No Name" (viewer_login p)
    end in
  let ignored :=
    if consider_forked_repos then snap_ignored_repos st
    else fold_left note_ignored
           (conn_nodes (repositoriesContributedTo p))
           (snap_ignored_repos st) in
  foldM admit_repo (candidates p)
    {| snap_name := Some name;
       snap_stargazers := snap_stargazers st;
       snap_forks := snap_forks st;
       snap_languages := snap_languages st;
       snap_repos := snap_repos st;
       snap_ignored_repos := ignored;
       snap_repo_language_data := snap_repo_language_data st |}.

(** The [while True] loop.  [k] GraphQL queries have been sent by the
    process so far; the result carries the new count. *)
Fixpoint collect (fuel k : nat) (next_owned next_contrib : option string)
    (st : snapshot) : result (snapshot * nat) :=
  match fuel with
  | O => Diverge
  | S fuel' =>
      let* raw_results := graphql k next_owned next_contrib in
      let p := default empty_page raw_results in
      let* st' := process_page st p in
      let contrib_repos := repositoriesContributedTo p in
      let owned_repos := repositories p in
      if has_next owned_repos || has_next contrib_repos then
        collect fuel' (S k) (end_cursor owned_repos next_owned)
                (end_cursor contrib_repos next_contrib) st'
      else Ok (st', S k)
  end.

(** [sum([v.get("size", 0) for v in self._languages.values()])] *)
Definition langs_total (langs : list (string * lang_rec)) : Z :=
  fold_left (fun acc kv => acc + size kv.2) langs 0.

(** [v["prop"] = 100 * (v.get("size", 0) / langs_total)] *)
Definition set_prop (total : Z) (kv : string * lang_rec)
  : result (string * lang_rec) :=
  let* q := PyFloat.true_div (size kv.2) total in
  let* p := PyFloat.int_mul 100 q in
  Ok (kv.1, {| size := size kv.2; occurrences := occurrences kv.2;
               color := color kv.2; prop := Some p |}).

(** The two statements after the loop. *)
Definition percentages (st : snapshot) : result snapshot :=
  let total := langs_total (snap_languages st) in
  let* langs := mapM_r (set_prop total) (snap_languages st) in
  Ok {| snap_name := snap_name st;
        snap_stargazers := snap_stargazers st;
        snap_forks := snap_forks st;
        snap_languages := langs;
        snap_repos := snap_repos st;
        snap_ignored_repos := snap_ignored_repos st;
        snap_repo_language_data := snap_repo_language_data st |}.

(** [get_stats], started when [k] queries have been sent and
    [self._name] holds [old_name]. *)
Definition get_stats (fuel k : nat) (old_name : option string)
  : result (snapshot * nat) :=
  let* r := collect fuel k None None (reset old_name) in
  let* st' := percentages r.1 in
  Ok (st', r.2).

(** The answers the [while True] loop reads, in order, when started at
    query [k] with the given cursors: it stops after the first page that
    reports no next page in either list, and at a failed query. *)
Fixpoint pages_read (fuel k : nat) (next_owned next_contrib : option string)
  : list page :=
  match fuel with
  | O => []
  | S fuel' =>
      match graphql k next_owned next_contrib with
      | Ok raw_results =>
          let p := default empty_page raw_results in
          let contrib_repos := repositoriesContributedTo p in
          let owned_repos := repositories p in
          p :: (if has_next owned_repos || has_next contrib_repos then
                  pages_read fuel' (S k) (end_cursor owned_repos next_owned)
                             (end_cursor contrib_repos next_contrib)
                else [])
      | _ => []
      end
  end.

(** Every sighting the admission loop makes during a run, in order. *)
Definition sightings (fuel k : nat) : list repo_node :=
  flat_map candidates (pages_read fuel k None None).

(** Every node of the owned lists, and of the contributed-to lists, that
    a run reads. *)
Definition owned_sightings (fuel k : nat) : list repo_node :=
  flat_map (fun p => conn_nodes (repositories p))
           (pages_read fuel k None None).

Definition contrib_sightings (fuel k : nat) : list repo_node :=
  flat_map (fun p => conn_nodes (repositoriesContributedTo p))
           (pages_read fuel k None None).

End GetStats.

(** *** Notions used to state the collector's properties *)

(** Of a list of sightings, the first one of each identity outside
    [seen]. *)
Fixpoint first_sightings (seen : gset string) (l : list repo_node)
  : list repo_node :=
  match l with
  | [] => []
  | r :: l' =>
      if decide (nameWithOwner r ∈ seen) then first_sightings seen l'
      else r :: first_sightings ({[ nameWithOwner r ]} ∪ seen) l'
  end.

(** The sum of a counter over a list of nodes, an absent one counting
    for 0. *)
Definition spec_total (field : repo_node → option Z) (l : list repo_node)
  : Z :=
  foldr (fun r n => default 0 (field r) + n) 0 l.

(** [repo.get("languages", {}).get("edges", [])] *)
Definition repo_edges (r : repo_node) : list lang_edge :=
  default [] (language_edges r).

(** Name, cumulative size and occurrence count of each language. *)
Definition lang_sizes (langs : list (string * lang_rec))
  : list (string * Z * Z) :=
  map (fun kv => (kv.1, size kv.2, occurrences kv.2)) langs.

(** A connection, and a page, with every node of one identity removed. *)
Definition conn_without (name : string) (c : option connection)
  : option connection :=
  match c with
  | Some c' =>
      Some {| nodes :=
                match nodes c' with
                | Some l =>
                    Some (List.filter
                            (fun r => negb (String.eqb (nameWithOwner r) name))
                            l)
                | None => None
                end;
              pageInfo := pageInfo c' |}
  | None => None
  end.

Definition page_without (name : string) (p : page) : page :=
  {| viewer_null := viewer_null p;
     viewer_name := viewer_name p; viewer_login := viewer_login p;
     repositoriesContributedTo :=
       conn_without name (repositoriesContributedTo p);
     repositories := conn_without name (repositories p) |}.

(** A page with the nodes of its contributed-to list removed. *)
Definition page_without_contrib (p : page) : page :=
  {| viewer_null := viewer_null p;
     viewer_name := viewer_name p; viewer_login := viewer_login p;
     repositoriesContributedTo :=
       match repositoriesContributedTo p with
       | Some c => Some {| nodes := Some []; pageInfo := pageInfo c |}
       | None => None
       end;
     repositories := repositories p |}.

(** An endpoint whose every page is passed through [f]. *)
Definition map_pages (f : page → page)
    (graphql : nat → option string → option string → result (option page))
  : nat → option string → option string → result (option page) :=
  fun k a b =>
    match graphql k a b with
    | Ok (Some p) => Ok (Some (f p))
    | r => r
    end.

(** [st'] is [st] after the nodes [firsts] were admitted, each once. *)
Definition grows_by (exclude_langs : gset string) (st : snapshot)
    (firsts : list repo_node) (st' : snapshot) : Prop :=
  snap_repos st' = list_to_set (map nameWithOwner firsts) ∪ snap_repos st
  ∧ snap_stargazers st' = snap_stargazers st + spec_total totalCount firsts
  ∧ snap_forks st' = snap_forks st + spec_total forkCount firsts
  ∧ snap_languages st'
    = fold_left (add_language exclude_langs) (flat_map repo_edges firsts)
                (snap_languages st).

(** A snapshot with its excluded set replaced. *)
Definition set_ignored (i : gset string) (st : snapshot) : snapshot :=
  {| snap_name := snap_name st;
     snap_stargazers := snap_stargazers st;
     snap_forks := snap_forks st;
     snap_languages := snap_languages st;
     snap_repos := snap_repos st;
     snap_ignored_repos := i;
     snap_repo_language_data := snap_repo_language_data st |}.

End Collector.

(** ** The durable cache *)

Module Cache.

(** A value of an entry's ["languages"] mapping. *)
Record lang_contrib : Type := {
  lang_additions : Z;
  lang_deletions : Z
}.

(** One cache entry.  Caches written before the per-language breakdown
    existed have no ["languages"] key. *)
Record cache_entry : Type := {
  additions : Z;
  deletions : Z;
  last_updated : string;
  languages : option (list (string * lang_contrib))
}.

(** The cache document: ["repositories"], and whatever other top-level
    members the file holds (kept as text). *)
Record cache_doc : Type := {
  repositories : gmap string cache_entry;
  other_members : list (string * string)
}.

(** What [CACHE_FILE] is on disk, up to JSON (de)serialisation. *)
Inductive file : Type :=
  | Missing                  (* open raises FileNotFoundError *)
  | Unreadable               (* open raises another OSError *)
  | NotJson (text : string)  (* json.load raises JSONDecodeError *)
  | Json (doc : cache_doc).

(** [{"repositories": {}}] *)
Definition empty_store : cache_doc :=
  {| repositories := ∅; other_members := [] |}.

Definition _load_cache (f : file) : result cache_doc :=
  match f with
  | Json doc => Ok doc
  | Missing => Ok empty_store
  | NotJson _ => Ok empty_store
  | Unreadable => Raise OSError
  end.

Definition _save_cache (cache : cache_doc) : file := Json cache.

End Cache.

(** ** The lines-changed engine: the loop of [Stats.lines_changed] *)

Module Lines.
Import Gateway Cache.

(** The local variables of the loop, the clock and the trace. *)
Record acc : Type := {
  total_additions : Z;
  total_deletions : Z;
  updated_cache : gmap string cache_entry;
  clock_reads : nat;
  trace : list event
}.

(** Body of [for week in author_obj.get("weeks", [])]. *)
Definition week_step (t : Z * Z) (w : week) : Z * Z :=
  (t.1 + default 0 (week_a w), t.2 + default 0 (week_d w)).

(** [author_obj.get("author", {}).get("login", "")] *)
Definition login_of (a : author_field) : string :=
  match a with
  | AuthorDict (Some l) => l
  | _ => ""
  end.

(** Body of [for author_obj in r]. *)
Definition author_step (username : string) (t : Z * Z) (o : author_obj)
  : Z * Z :=
  match o with
  | NotADict => t
  | AuthorObj AuthorNotDict _ => t
  | AuthorObj a weeks =>
      if decide (login_of a = username)
      then fold_left week_step (default [] weeks) t
      else t
  end.

(** [repo_additions] and [repo_deletions] once the list is walked. *)
Definition repo_totals (username : string) (r : list author_obj) : Z * Z :=
  fold_left (author_step username) r (0, 0).

(** [int(n * prop)] *)
Definition scale (n : Z) (p : PyFloat.float) : result Z :=
  let* x := PyFloat.int_mul n p in PyFloat.to_int x.

(** One value of [lang_contribs] in the proportional branch. *)
Definition attribute (repo_additions repo_deletions : Z)
    (kv : string * PyFloat.float) : result (string * lang_contrib) :=
  let* a := scale repo_additions kv.2 in
  let* d := scale repo_deletions kv.2 in
  Ok (kv.1, {| lang_additions := a; lang_deletions := d |}).

Definition contributors_path (repo : string) : string :=
  "/repos/" +:+ repo +:+ "/stats/contributors".

Definition msg_failed (repo : string) : string :=
  "Failed to fetch contributions for " +:+ repo
    +:+ ". Using cache if available.".
Definition msg_cached (repo : string) : string :=
  "Using cached data for " +:+ repo.
Definition msg_skip (repo : string) : string :=
  "No cache available for " +:+ repo +:+ ". Skipping.".

Section Loop.

Variable username : string.
Variable primary : nat → string → primary_reply.
Variable secondary : nat → string → secondary_reply.

(** [datetime.utcnow().isoformat()] at the [n]-th reading. *)
Variable utcnow : nat → string.

(** [cache["repositories"]] as loaded, and
    [self._repo_language_data]. *)
Variable loaded : gmap string cache_entry.
Variable repo_language_data : gmap string (list (string * PyFloat.float)).

(** The dict [lang_contribs]. *)
Definition lang_contribs (repo : string)
    (repo_additions repo_deletions : Z)
  : result (list (string * lang_contrib)) :=
  match repo_language_data !! repo with
  | Some props => mapM_r (attribute repo_additions repo_deletions) props
  | None =>
      Ok [("Unknown", {| lang_additions := repo_additions;
                         lang_deletions := repo_deletions |})]
  end.

(** [await self.queries.query_rest(f"/repos/{repo}/stats/contributors")]:
    the trace of the call and its outcome. *)
Definition fetch (repo : string) : list event * result body :=
  query_rest primary secondary (contributors_path repo).

(** Body of [for repo in await self.all_repos]. *)
Definition step (st : acc) (repo : string) : result acc :=
  let q := fetch repo in
  let* r := q.2 in
  match r with
  | BList items =>
      let t := repo_totals username items in
      let* langs := lang_contribs repo t.1 t.2 in
      Ok {| total_additions := total_additions st + t.1;
            total_deletions := total_deletions st + t.2;
            updated_cache :=
              <[ repo := {| additions := t.1; deletions := t.2;
                            last_updated :=
                              utcnow (clock_reads st) +:+ "Z";
                            languages := Some langs |} ]>
                (updated_cache st);
            clock_reads := S (clock_reads st);
            trace := trace st ++ q.1 |}
  | _ =>
      match loaded !! repo with
      | Some cached_data =>
          Ok {| total_additions :=
                  total_additions st + additions cached_data;
                total_deletions :=
                  total_deletions st + deletions cached_data;
                updated_cache := <[ repo := cached_data ]> (updated_cache st);
                clock_reads := clock_reads st;
                trace := trace st ++ q.1
                           ++ [EPrint (msg_failed repo);
                               EPrint (msg_cached repo)] |}
      | None =>
          Ok {| total_additions := total_additions st;
                total_deletions := total_deletions st;
                updated_cache := updated_cache st;
                clock_reads := clock_reads st;
                trace := trace st ++ q.1
                           ++ [EPrint (msg_failed repo);
                               EPrint (msg_skip repo)] |}
      end
  end.

(** The locals before the loop: [additions = deletions = 0] and
    [updated_cache = cache["repositories"].copy()]. *)
Definition start (clock : nat) (tr : list event) : acc :=
  {| total_additions := 0; total_deletions := 0;
     updated_cache := loaded; clock_reads := clock; trace := tr |}.

(** The whole loop over the repositories in iteration order [rs]. *)
Definition run (rs : list string) (clock : nat) (tr : list event)
  : result acc :=
  foldM step rs (start clock tr).

(** In the run over [rs], the iteration for [repo] found the locals as
    [before] and left them as [after]. *)
Definition visit (rs : list string) (clock : nat) (tr : list event)
    (repo : string) (before after : acc) : Prop :=
  ∃ l1 l2, rs = l1 ++ repo :: l2
           ∧ foldM step l1 (start clock tr) = Ok before
           ∧ step before repo = Ok after.

End Loop.

(** [isinstance(r, list)] *)
Definition is_list (r : body) : bool :=
  match r with BList _ => true | _ => false end.

(** Following the spec's words: the weeks an element of a contributor
    list counts for, all of them when its author login equals the target
    account, none otherwise. *)
Definition spec_weeks_of (username : string) (o : author_obj) : list week :=
  match o with
  | AuthorObj (AuthorDict (Some l)) weeks =>
      if decide (l = username) then default [] weeks else []
  | AuthorObj (AuthorDict None) weeks
  | AuthorObj AuthorAbsent weeks =>
      (* no login at all reads as the empty login *)
      if decide ("" = username) then default [] weeks else []
  | _ => []
  end.

Definition spec_target_weeks (username : string) (r : list author_obj)
  : list week :=
  flat_map (spec_weeks_of username) r.

(** Following the spec's words: the sum of a field over a list of
    weeks, an absent field counting for 0. *)
Definition spec_sum (field : week → option Z) (ws : list week) : Z :=
  foldr (fun w n => default 0 (field w) + n) 0 ws.

(** Following the spec's words: [z] is the double [f] truncated to an
    integer, that is, [z] has the sign of [f] and [|z| ≤ |f| < |z| + 1],
    where a finite [f] is [± m * 2 ^ e]; an infinity or a NaN has no
    integer part. *)
Definition spec_integer_part (z : Z) (f : PyFloat.float) : Prop :=
  match f with
  | S754_zero _ => z = 0
  | S754_finite s m e =>
      (if s then z ≤ 0 else 0 ≤ z)
      ∧ Z.abs z * 2 ^ Z.max 0 (- e) ≤ Z.pos m * 2 ^ Z.max 0 e
      ∧ Z.pos m * 2 ^ Z.max 0 e < (Z.abs z + 1) * 2 ^ Z.max 0 (- e)
  | _ => False
  end.

(** Following the spec's words: [z] is the total [n] multiplied by the
    share and truncated to an integer; the product is the IEEE one of
    the double nearest to [n] with the share. *)
Definition spec_truncated_product (n : Z) (share : PyFloat.float) (z : Z)
  : Prop :=
  spec_integer_part z
    (SFmul PyFloat.prec PyFloat.emax
       (binary_normalize PyFloat.prec PyFloat.emax n 0 false) share).

End Lines.

(** ** The [Stats] object and its accessors *)

Module Stats.
Import Gateway Cache Collector.

(** The attributes of a [Stats] instance that the accessors below
    read and write, with what the process has done to the outside
    world so far. *)
Record obj : Type := {
  _name : option string;
  _stargazers : option Z;
  _forks : option Z;
  _languages : option (list (string * lang_rec));
  _repos : option (gset string);
  _lines_changed : option (Z * Z);
  _views : option Z;
  _ignored_repos : option (gset string);
  _repo_language_data : gmap string (list (string * PyFloat.float));
  (* the world *)
  graph_queries : nat;   (* overview queries sent *)
  fetches : nat;         (* completed runs of [get_stats] *)
  clock : nat;           (* readings of the clock *)
  cache_file : file;
  output : list event    (* REST traffic, pauses and diagnostics *)
}.

(** [Stats.__init__], in a process that has done nothing yet. *)
Definition init (f : file) : obj :=
  {| _name := None; _stargazers := None; _forks := None;
     _languages := None; _repos := None; _lines_changed := None;
     _views := None; _ignored_repos := None; _repo_language_data := ∅;
     graph_queries := O; fetches := O; clock := O; cache_file := f;
     output := [] |}.

Definition views_path (repo : string) : string :=
  "/repos/" +:+ repo +:+ "/traffic/views".

(** Body of [for view in r.get("views", [])]. *)
Definition view_step (total : Z) (v : view) : Z :=
  total + default 0 (view_count v).

Section Accessors.

Variable username : string.
Variable exclude_repos : gset string.
Variable exclude_langs : gset string.
Variable consider_forked_repos : bool.
Variable graphql :
  nat → option string → option string → result (option page).
Variable primary : nat → string → primary_reply.
Variable secondary : nat → string → secondary_reply.
Variable utcnow : nat → string.

(** Fuel for the pagination loop of each [get_stats] run. *)
Variable fuel : nat.

Definition get_stats (o : obj) : result obj :=
  let* r := Collector.get_stats exclude_repos exclude_langs
              consider_forked_repos graphql fuel
              (graph_queries o) (_name o) in
  let st := r.1 in
  Ok {| _name := snap_name st;
        _stargazers := Some (snap_stargazers st);
        _forks := Some (snap_forks st);
        _languages := Some (snap_languages st);
        _repos := Some (snap_repos st);
        _lines_changed := _lines_changed o;
        _views := _views o;
        _ignored_repos := Some (snap_ignored_repos st);
        _repo_language_data := snap_repo_language_data st;
        graph_queries := r.2;
        fetches := S (fetches o);
        clock := clock o;
        cache_file := cache_file o;
        output := output o |}.

(** [self.<field>] after [assert(self.<field> is not None)]. *)
Definition asserted {A : Type} (field : obj → option A) (o : obj)
  : result (A * obj) :=
  match field o with
  | Some v => Ok (v, o)
  | None => Raise AssertionError
  end.

Definition name (o : obj) : result (string * obj) :=
  match _name o with
  | Some v => Ok (v, o)
  | None => let* o' := get_stats o in asserted _name o'
  end.

Definition stargazers (o : obj) : result (Z * obj) :=
  match _stargazers o with
  | Some v => Ok (v, o)
  | None => let* o' := get_stats o in asserted _stargazers o'
  end.

Definition forks (o : obj) : result (Z * obj) :=
  match _forks o with
  | Some v => Ok (v, o)
  | None => let* o' := get_stats o in asserted _forks o'
  end.

Definition languages (o : obj)
  : result (list (string * lang_rec) * obj) :=
  match _languages o with
  | Some v => Ok (v, o)
  | None => let* o' := get_stats o in asserted _languages o'
  end.

(** [{k: v.get("prop", 0) for (k, v) in self._languages.items()}];
    a missing ["prop"] reads as the [int] 0, here [None]. *)
Definition languages_proportional (o : obj)
  : result (list (string * option PyFloat.float) * obj) :=
  let* r :=
    match _languages o with
    | Some v => Ok (v, o)
    | None => let* o' := get_stats o in asserted _languages o'
    end in
  Ok (map (fun kv : string * lang_rec => (kv.1, prop kv.2)) r.1, r.2).

Definition repos (o : obj) : result (gset string * obj) :=
  match _repos o with
  | Some v => Ok (v, o)
  | None => let* o' := get_stats o in asserted _repos o'
  end.

Definition all_repos (o : obj) : result (gset string * obj) :=
  match _repos o, _ignored_repos o with
  | Some r, Some i => Ok (r ∪ i, o)
  | _, _ =>
      let* o' := get_stats o in
      let* r := asserted _repos o' in
      let* i := asserted _ignored_repos o' in
      Ok (r.1 ∪ i.1, o')
  end.

Definition lines_changed (o : obj) : result (Z * Z * obj) :=
  match _lines_changed o with
  | Some v => Ok (v, o)
  | None =>
      let* cache := _load_cache (cache_file o) in
      let* o1 := get_stats o in
      let* a := all_repos o1 in
      let o2 := a.2 in
      let* st := Lines.run username primary secondary utcnow
                   (Cache.repositories cache) (_repo_language_data o2)
                   (elements a.1) (clock o2) (output o2) in
      let cache' := {| Cache.repositories := Lines.updated_cache st;
                       other_members := other_members cache |} in
      let v := (Lines.total_additions st, Lines.total_deletions st) in
      Ok (v, {| _name := _name o2;
                _stargazers := _stargazers o2;
                _forks := _forks o2;
                _languages := _languages o2;
                _repos := _repos o2;
                _lines_changed := Some v;
                _views := _views o2;
                _ignored_repos := _ignored_repos o2;
                _repo_language_data := _repo_language_data o2;
                graph_queries := graph_queries o2;
                fetches := fetches o2;
                clock := Lines.clock_reads st;
                cache_file := _save_cache cache';
                output := Lines.trace st |})
  end.

(** Body of [for repo in await self.repos] in [views]. *)
Definition views_step (st : Z * list event) (repo : string)
  : result (Z * list event) :=
  let q := query_rest primary secondary (views_path repo) in
  let* r := q.2 in
  match r with
  | BDict vs =>
      Ok (fold_left view_step (default [] vs) st.1, (st.2 ++ q.1)%list)
  | _ => Raise AttributeError
  end.

Definition views (o : obj) : result (Z * obj) :=
  match _views o with
  | Some v => Ok (v, o)
  | None =>
      let* r := repos o in
      let o1 := r.2 in
      let* st := foldM views_step (elements r.1) (0, output o1) in
      Ok (st.1, {| _name := _name o1;
                   _stargazers := _stargazers o1;
                   _forks := _forks o1;
                   _languages := _languages o1;
                   _repos := _repos o1;
                   _lines_changed := _lines_changed o1;
                   _views := Some st.1;
                   _ignored_repos := _ignored_repos o1;
                   _repo_language_data := _repo_language_data o1;
                   graph_queries := graph_queries o1;
                   fetches := fetches o1;
                   clock := clock o1;
                   cache_file := cache_file o1;
                   output := st.2 |})
  end.

End Accessors.

(** The same object in a process whose cache file is [f]. *)
Definition set_cache_file (f : file) (o : obj) : obj :=
  {| _name := _name o; _stargazers := _stargazers o; _forks := _forks o;
     _languages := _languages o; _repos := _repos o;
     _lines_changed := _lines_changed o; _views := _views o;
     _ignored_repos := _ignored_repos o;
     _repo_language_data := _repo_language_data o;
     graph_queries := graph_queries o; fetches := fetches o;
     clock := clock o; cache_file := f; output := output o |}.

(** How many runs of [get_stats] were completed when an accessor
    returned. *)
Definition fetches_after {A : Type} (r : result (A * obj)) : option nat :=
  match r with
  | Ok (_, o) => Some (fetches o)
  | _ => None
  end.

End Stats.

(** ** A worked scenario

    The account [octocat] owns [octocat/a], [octocat/b] and
    [octocat/secret] (excluded by configuration) and has contributed to
    [other/c].  The overview comes in two pages; [octocat/a] is listed on
    both.  The contributor statistics of [octocat/a] are never ready, those
    of [other/c] are refused, those of [octocat/b] arrive. *)

Module Demo.
Import Gateway Collector Cache.

Definition username : string := "octocat".
Definition exclude_repos : gset string := {[ "octocat/secret" ]}.
Definition exclude_langs : gset string := ∅.

Definition edge (name : string) (sz : Z) : lang_edge :=
  {| edge_size := Some sz; edge_name := Some name; edge_color := None |}.

Definition repo_a : repo_node :=
  {| nameWithOwner := "octocat/a"; totalCount := Some 5; forkCount := Some 1;
     language_edges := Some [edge "Python" 200; edge "C" 100] |}.
Definition repo_b : repo_node :=
  {| nameWithOwner := "octocat/b"; totalCount := Some 2; forkCount := None;
     language_edges := Some [edge "Python" 300] |}.
Definition repo_c : repo_node :=
  {| nameWithOwner := "other/c"; totalCount := Some 100; forkCount := Some 50;
     language_edges := Some [edge "Go" 1000] |}.
Definition repo_secret : repo_node :=
  {| nameWithOwner := "octocat/secret"; totalCount := Some 7;
     forkCount := Some 7; language_edges := Some [edge "Rust" 50] |}.

Definition page1 : page :=
  {| viewer_null := false;
     viewer_name := Some "The Octocat"; viewer_login := Some "octocat";
     Collector.repositories :=
       Some {| nodes := Some [repo_a; repo_secret];
               pageInfo := Some {| hasNextPage := Some true;
                                   endCursor := Some (Some "o1") |} |};
     repositoriesContributedTo :=
       Some {| nodes := Some [repo_c];
               pageInfo := Some {| hasNextPage := Some false;
                                   endCursor := Some (Some "c1") |} |} |}.

Definition page2 : page :=
  {| viewer_null := false;
     viewer_name := Some "The Octocat"; viewer_login := Some "octocat";
     Collector.repositories :=
       Some {| nodes := Some [repo_b; repo_a];
               pageInfo := Some {| hasNextPage := Some false;
                                   endCursor := Some (Some "o2") |} |};
     repositoriesContributedTo :=
       Some {| nodes := Some [repo_c; repo_secret];
               pageInfo := Some {| hasNextPage := Some false;
                                   endCursor := Some None |} |} |}.

(** The endpoint answers by the owned cursor it is sent. *)
Definition graphql (_ : nat) (owned_cursor _ : option string)
  : result (option page) :=
  match owned_cursor with
  | None => Ok (Some page1)
  | Some c => if String.eqb c "o1" then Ok (Some page2) else Ok None
  end.

Definition stats_of_b : body :=
  BList [ AuthorObj (AuthorDict (Some "octocat"))
            (Some [ {| week_a := Some 5; week_d := Some 1 |};
                    {| week_a := Some 3; week_d := Some 0 |} ]);
          AuthorObj (AuthorDict (Some "someone"))
            (Some [ {| week_a := Some 100; week_d := Some 100 |} ]) ].

Definition views_of_a : body :=
  BDict (Some [ {| view_count := Some 3 |}; {| view_count := Some 4 |} ]).

Definition primary (_ : nat) (url : string) : primary_reply :=
  if String.eqb url "https://api.github.com/repos/octocat/a/stats/contributors"
  then PReply 202 None
  else if String.eqb url
            "https://api.github.com/repos/octocat/b/stats/contributors"
  then PReply 200 (Some stats_of_b)
  else if String.eqb url
            "https://api.github.com/repos/octocat/a/traffic/views"
  then PReply 200 (Some views_of_a)
  else if String.eqb url
            "https://api.github.com/repos/octocat/b/traffic/views"
  then PReply 200 (Some (BDict None))
  else PFail.

Definition secondary (_ : nat) (_ : string) : secondary_reply :=
  SReply 404 (Some (BDict None)).

Definition utcnow (n : nat) : string :=
  match n with
  | O => "2026-11-04T12:00:00.000001"
  | _ => "2026-11-04T12:00:07.000002"
  end.

Definition entry (a d : Z) : cache_entry :=
  {| additions := a; deletions := d;
     last_updated := "2024-01-01T00:00:00.000000Z"; languages := None |}.

(** Entries of an earlier run: for two repositories of this run and for
    one that is gone. *)
Definition loaded : gmap string cache_entry :=
  {[ "octocat/a" := entry 10 2; "octocat/b" := entry 1 1;
     "gone/old" := entry 7 7 ]}.

Definition cache : cache_doc :=
  {| Cache.repositories := loaded; other_members := [("version", "1")] |}.

Definition fuel : nat := 5.

(** The object before any accessor is used. *)
Definition fresh : Stats.obj := Stats.init (Json cache).

(** The proportional shares the collector computes in this scenario. *)
Definition repo_language_data : gmap string (list (string * PyFloat.float)) :=
  match get_stats exclude_repos exclude_langs false graphql fuel 0 None with
  | Ok r => snap_repo_language_data r.1
  | _ => ∅
  end.

(** The repositories of the run, in some iteration order. *)
Definition run_order : list string := ["other/c"; "octocat/a"; "octocat/b"].

(** A second account: its only repository holds one empty Python file,
    so the only language of the run has size 0. *)
Definition repo_empty : repo_node :=
  {| nameWithOwner := "hubot/empty"; totalCount := Some 1; forkCount := Some 0;
     language_edges := Some [edge "Python" 0] |}.

Definition page_empty_lang : page :=
  {| viewer_null := false;
     viewer_name := Some "Hubot"; viewer_login := Some "hubot";
     Collector.repositories :=
       Some {| nodes := Some [repo_empty];
               pageInfo := Some {| hasNextPage := Some false;
                                   endCursor := Some None |} |};
     repositoriesContributedTo :=
       Some {| nodes := Some [];
               pageInfo := Some {| hasNextPage := Some false;
                                   endCursor := Some None |} |} |}.

Definition graphql_empty_lang (_ : nat) (_ _ : option string)
  : result (option page) :=
  Ok (Some page_empty_lang).

(** Two pages of a third run, fork inclusion off: the first lists
    [octocat/a] as owned, the second lists nothing but [octocat/a] again,
    as contributed to. *)
Definition page_owned_a : page :=
  {| viewer_null := false;
     viewer_name := Some "The Octocat"; viewer_login := Some "octocat";
     Collector.repositories :=
       Some {| nodes := Some [repo_a];
               pageInfo := Some {| hasNextPage := Some false;
                                   endCursor := Some (Some "o1") |} |};
     repositoriesContributedTo :=
       Some {| nodes := Some [];
               pageInfo := Some {| hasNextPage := Some true;
                                   endCursor := Some (Some "c1") |} |} |}.

Definition page_contrib_a : page :=
  {| viewer_null := false;
     viewer_name := Some "The Octocat"; viewer_login := Some "octocat";
     Collector.repositories :=
       Some {| nodes := Some [];
               pageInfo := Some {| hasNextPage := Some false;
                                   endCursor := Some (Some "o1") |} |};
     repositoriesContributedTo :=
       Some {| nodes := Some [repo_a];
               pageInfo := Some {| hasNextPage := Some false;
                                   endCursor := Some (Some "c2") |} |} |}.

(** A network that is never ready: even attempts get 202 from the primary
    client, odd attempts fail there and get 202 from the fallback. *)
Definition never_ready_primary (i : nat) (_ : string)
  : primary_reply :=
  if Nat.even i then PReply 202 None else PFail.

Definition never_ready_secondary (_ : nat) (_ : string)
  : secondary_reply :=
  SReply 202 None.

(** The endpoint of that run answers by the contributed-to cursor. *)
Definition graphql_both_lists (_ : nat) (_ contrib_cursor : option string)
  : result (option page) :=
  match contrib_cursor with
  | None => Ok (Some page_owned_a)
  | Some _ => Ok (Some page_contrib_a)
  end.

(** The accessors of the scenario. *)
Definition languages_proportional :=
  Stats.languages_proportional exclude_repos exclude_langs false graphql fuel.
Definition lines_changed :=
  Stats.lines_changed username exclude_repos exclude_langs false graphql
                      primary secondary utcnow fuel.
Definition views :=
  Stats.views exclude_repos exclude_langs false graphql primary secondary
              fuel.

End Demo.

(** ** Further notions for traces, languages, totals and views *)

Module Traces.
Import Gateway.

(** The GETs a trace made through the fallback client. *)
Fixpoint fallback_attempts (t : list event) : nat :=
  match t with
  | [] => O
  | EGetFallback _ :: t' => S (fallback_attempts t')
  | _ :: t' => fallback_attempts t'
  end.

(** Attempt [i] ended without a result and without a 202: a null body
    from the primary client, or a failure of the primary client followed
    by a fallback status that is neither 202 nor 200. *)
Definition inconclusive (primary : nat → string → primary_reply)
    (secondary : nat → string → secondary_reply)
    (i : nat) (url : string) : bool :=
  let via_fallback :=
    match secondary i url with
    | SReply c _ => negb (c =? 202) && negb (c =? 200)
    | SFail => false
    end in
  match primary i url with
  | PFail => via_fallback
  | PReply status json =>
      negb (status =? 202)
      && (match json with
          | None => via_fallback
          | Some BNull => true
          | Some _ => false
          end)
  end.

End Traces.

Module Languages.
Import Collector.

(** A node, a connection and a page with the edges of one language
    removed; an edge without a name is one of ["Other"]. *)
Definition keep_lang (lang : string) (e : lang_edge) : bool :=
  negb (String.eqb (lang_name_of e) lang).

Definition node_without_lang (lang : string) (r : repo_node) : repo_node :=
  {| nameWithOwner := nameWithOwner r; totalCount := totalCount r;
     forkCount := forkCount r;
     language_edges :=
       match language_edges r with
       | Some l => Some (List.filter (keep_lang lang) l)
       | None => None
       end |}.

Definition conn_without_lang (lang : string) (c : option connection)
  : option connection :=
  match c with
  | Some c' =>
      Some {| nodes :=
                match nodes c' with
                | Some l => Some (map (node_without_lang lang) l)
                | None => None
                end;
              pageInfo := pageInfo c' |}
  | None => None
  end.

Definition page_without_lang (lang : string) (p : page) : page :=
  {| viewer_null := viewer_null p;
     viewer_name := viewer_name p; viewer_login := viewer_login p;
     repositoriesContributedTo :=
       conn_without_lang lang (repositoriesContributedTo p);
     repositories := conn_without_lang lang (repositories p) |}.

(** [repo_langs] and [total_size] of a node, once its edges are
    walked. *)
Definition repo_sizes (exclude_langs : gset string) (r : repo_node)
  : list (string * Z) * Z :=
  fold_left (repo_langs_step exclude_langs) (repo_edges r) ([], 0).

(** The edges of a list that count for a language. *)
Definition edges_of (exclude_langs : gset string) (lang : string)
    (es : list lang_edge) : list lang_edge :=
  List.filter (fun e => bool_decide (lang_name_of e = lang
                                     ∧ lang ∉ exclude_langs)) es.

(** The sum of the sizes of a list of edges, an absent size counting
    for 0. *)
Definition sum_sizes (es : list lang_edge) : Z :=
  foldr (fun e n => default 0 (edge_size e) + n) 0 es.

(** The sum of the sizes of the edges of a node, those of excluded
    languages apart. *)
Definition counted_total (exclude_langs : gset string) (r : repo_node) : Z :=
  sum_sizes (List.filter
               (fun e => bool_decide (lang_name_of e ∉ exclude_langs))
               (repo_edges r)).

(** The size a node has for a language: that of the last of its edges
    with that name, none when the language is excluded or the node has
    no such edge. *)
Definition size_of (exclude_langs : gset string) (lang : string)
    (r : repo_node) : option Z :=
  (fun e => default 0 (edge_size e))
    <$> last (edges_of exclude_langs lang (repo_edges r)).

End Languages.

Module Totals.
Import Gateway Cache.

Section Contribution.

Variable username : string.
Variable primary : nat → string → primary_reply.
Variable secondary : nat → string → secondary_reply.
Variable loaded : gmap string cache_entry.

(** What one repository adds to the two totals, by the outcome of its
    fetch. *)
Definition contribution (repo : string) : Z * Z :=
  match (Lines.fetch primary secondary repo).2 with
  | Ok (BList items) =>
      (Lines.spec_sum week_a (Lines.spec_target_weeks username items),
       Lines.spec_sum week_d (Lines.spec_target_weeks username items))
  | Ok _ =>
      match loaded !! repo with
      | Some e => (additions e, deletions e)
      | None => (0, 0)
      end
  | _ => (0, 0)
  end.

Definition sum_contributions (rs : list string) : Z * Z :=
  foldr (fun repo t => ((contribution repo).1 + t.1,
                        (contribution repo).2 + t.2)) (0, 0) rs.

(** The sum of the counts of a list of traffic buckets, an absent
    count counting for 0. *)
Definition sum_counts (vs : list view) : Z :=
  foldr (fun v n => default 0 (view_count v) + n) 0 vs.

(** What one repository adds to the views total: the counts of the
    buckets its traffic answer lists. *)
Definition view_total (repo : string) : Z :=
  match (query_rest primary secondary (Stats.views_path repo)).2 with
  | Ok (BDict vs) => sum_counts (default [] vs)
  | _ => 0
  end.

Definition sum_views (rs : list string) : Z :=
  foldr (fun repo n => view_total repo + n) 0 rs.

End Contribution.

End Totals.

(** ** The contribution totals: [Stats.total_contributions] *)

Module Contributions.

(** One value of [data.viewer] in the answer to the per-year query:
    [year.get("contributionCalendar", {}).get("totalContributions", 0)]. *)
Record year_obj : Type := { totalContributions : option Z }.

(** [self._total_contributions], and how many GraphQL queries this
    accessor has sent. *)
Record state : Type := {
  _total_contributions : option Z;
  queries_sent : nat
}.

Section TotalContributions.

(** The answer to the [n]-th query when it asks for the contribution
    years: [Raise] when both transports fail, [Ok None] for a null
    answer, [Ok (Some None)] when no [contributionYears] is in it. *)
Variable years_answer : nat → result (option (option (list Z))).

(** The answer to the [n]-th query when it asks for the totals of the
    given years: the values of [data.viewer], none when [data] or
    [viewer] is absent. *)
Variable totals_answer :
  nat → list Z → result (option (option (list year_obj))).

(** Body of [for year in by_year]. *)
Definition add_year (total : Z) (year : year_obj) : Z :=
  total + default 0 (totalContributions year).

(** The accessor; an exception leaves the attributes as they were when
    it was raised.  A null answer has no [.get]. *)
Definition total_contributions (s : state) : result Z * state :=
  match _total_contributions s with
  | Some v => (Ok v, s)
  | None =>
      let n := queries_sent s in
      match years_answer n with
      | Ok (Some doc) =>
          let years := default [] doc in
          match totals_answer (S n) years with
          | Ok (Some values) =>
              let total := fold_left add_year (default [] values) 0 in
              (Ok total, {| _total_contributions := Some total;
                            queries_sent := S (S n) |})
          | Ok None =>
              (Raise AttributeError,
               {| _total_contributions := Some 0; queries_sent := S (S n) |})
          | Raise e =>
              (Raise e,
               {| _total_contributions := Some 0; queries_sent := S (S n) |})
          | Diverge =>
              (Diverge,
               {| _total_contributions := Some 0; queries_sent := S (S n) |})
          end
      | Ok None =>
          (Raise AttributeError,
           {| _total_contributions := Some 0; queries_sent := S n |})
      | Raise e =>
          (Raise e, {| _total_contributions := Some 0; queries_sent := S n |})
      | Diverge =>
          (Diverge, {| _total_contributions := Some 0; queries_sent := S n |})
      end
  end.

End TotalContributions.

(** The sum of the yearly totals, an absent one counting for 0. *)
Definition sum_years (values : list year_obj) : Z :=
  foldr (fun y n => default 0 (totalContributions y) + n) 0 values.

End Contributions.

(** ** Further networks and endpoints *)

Module Cases.
Import Gateway Collector Cache.

(** A primary client that always answers 200 with an empty list. *)
Definition steady_primary (_ : nat) (_ : string) : primary_reply :=
  PReply 200 (Some (BList [])).

(** A primary client whose every answer is a null body. *)
Definition null_primary (_ : nat) (_ : string) : primary_reply :=
  PReply 200 (Some BNull).

(** A fallback client that fails. *)
Definition dead_secondary (_ : nat) (_ : string) : secondary_reply := SFail.

(** A fallback client that answers 200 with a null body. *)
Definition null_secondary (_ : nat) (_ : string) : secondary_reply :=
  SReply 200 (Some BNull).

(** A primary client that serves the contributor statistics of
    [other/c] and is the scenario's otherwise. *)
Definition primary_with_c (i : nat) (url : string) : primary_reply :=
  if String.eqb url
       "https://api.github.com/repos/other/c/stats/contributors"
  then PReply 200 (Some Demo.stats_of_b)
  else Demo.primary i url.

(** Contributor statistics for [octocat/a], whose two languages have
    the shares 2/3 and 1/3, and a primary client that serves them and is
    the scenario's otherwise. *)
Definition stats_of_a : body :=
  BList [ AuthorObj (AuthorDict (Some "octocat"))
            (Some [ {| week_a := Some 70; week_d := Some 50 |};
                    {| week_a := Some 30; week_d := None |} ]) ].

Definition primary_with_a (i : nat) (url : string) : primary_reply :=
  if String.eqb url
       "https://api.github.com/repos/octocat/a/stats/contributors"
  then PReply 200 (Some stats_of_a)
  else Demo.primary i url.

(** An endpoint whose every answer is the scenario's first page, which
    reports a next page of owned repositories. *)
Definition graphql_endless (_ : nat) (_ _ : option string)
  : result (option page) :=
  Ok (Some Demo.page1).

(** An endpoint whose every answer is null. *)
Definition graphql_null (_ : nat) (_ _ : option string)
  : result (option page) :=
  Ok None.

(** The error answer [{"data": null, "errors": [...]}], and an endpoint
    whose every answer it is. *)
Definition page_null_data : page :=
  {| viewer_null := true; viewer_name := None; viewer_login := None;
     repositoriesContributedTo := None; Collector.repositories := None |}.

Definition graphql_null_data (_ : nat) (_ _ : option string)
  : result (option page) :=
  Ok (Some page_null_data).

(** The scenario's repositories in another iteration order. *)
Definition other_order : list string :=
  ["octocat/a"; "octocat/b"; "other/c"].

(** Answers to the two contribution queries: two years, one of them
    without a total. *)
Definition years_answer (_ : nat) : result (option (option (list Z))) :=
  Ok (Some (Some [2023; 2024])).

Definition totals_answer (_ : nat) (_ : list Z)
  : result (option (option (list Contributions.year_obj))) :=
  Ok (Some (Some [ {| Contributions.totalContributions := Some 120 |};
                   {| Contributions.totalContributions := None |} ])).

(** A first contribution query that fails on both transports. *)
Definition years_down (_ : nat) : result (option (option (list Z))) :=
  Raise TransportError.

Definition no_contributions : Contributions.state :=
  {| Contributions._total_contributions := None;
     Contributions.queries_sent := O |}.

End Cases.

(** ** Notions for the recorded language shares *)

Module Shares.
Import Collector Languages.

(** [st'] is [st] after the nodes [firsts] were admitted, as far as the
    recorded shares go: entries of repositories admitted before are
    kept, a node with a positive total gets its proportions, and nothing
    else is recorded. *)
Definition shares_by (exclude_langs : gset string) (st : snapshot)
    (firsts : list repo_node) (st' : snapshot) : Prop :=
  snap_repos st' = list_to_set (map nameWithOwner firsts) ∪ snap_repos st
  ∧ (∀ name, name ∈ snap_repos st →
             snap_repo_language_data st' !! name
             = snap_repo_language_data st !! name)
  ∧ (∀ r, r ∈ firsts → 0 < (repo_sizes exclude_langs r).2 →
          ∃ props,
            proportions (repo_sizes exclude_langs r).1
                        (repo_sizes exclude_langs r).2 = Ok props
            ∧ snap_repo_language_data st' !! nameWithOwner r = Some props)
  ∧ (∀ name props,
       snap_repo_language_data st' !! name = Some props →
       snap_repo_language_data st !! name = Some props
       ∨ ∃ r, r ∈ firsts ∧ nameWithOwner r = name
              ∧ 0 < (repo_sizes exclude_langs r).2
              ∧ proportions (repo_sizes exclude_langs r).1
                            (repo_sizes exclude_langs r).2 = Ok props).

End Shares.

(** ** The report: [Stats.to_str] *)

Module Report.
Import Gateway Collector Stats.

(** The values the f-string of [to_str] formats; [changed] is
    [lines_changed[0] + lines_changed[1]] and [repositories] is
    [len(await self.all_repos)]. *)
Record fields : Type := {
  languages_shown : list (string * option PyFloat.float);
  name_shown : string;
  stargazers_shown : Z;
  forks_shown : Z;
  contributions_shown : Z;
  repositories_shown : nat;
  added_shown : Z;
  deleted_shown : Z;
  changed_shown : Z;
  views_shown : Z
}.

Section ToStr.

Variable username : string.
Variable exclude_repos : gset string.
Variable exclude_langs : gset string.
Variable consider_forked_repos : bool.
Variable graphql :
  nat → option string → option string → result (option page).
Variable primary : nat → string → primary_reply.
Variable secondary : nat → string → secondary_reply.
Variable utcnow : nat → string.
Variable fuel : nat.
Variable years_answer : nat → result (option (option (list Z))).
Variable totals_answer :
  nat → list Z → result (option (option (list Contributions.year_obj))).

(** [to_str], up to the formatting of the values: the accessors it
    awaits, in the order it awaits them ([languages_proportional] and
    [lines_changed] in the two statements before the f-string, the others
    in the f-string from left to right). *)
Definition to_str (o : obj) (s : Contributions.state)
  : result (fields * obj * Contributions.state) :=
  let* l := languages_proportional exclude_repos exclude_langs
              consider_forked_repos graphql fuel o in
  let* lc := lines_changed username exclude_repos exclude_langs
               consider_forked_repos graphql primary secondary utcnow fuel
               l.2 in
  let* n := name exclude_repos exclude_langs consider_forked_repos graphql
              fuel lc.2 in
  let* sg := stargazers exclude_repos exclude_langs consider_forked_repos
               graphql fuel n.2 in
  let* fk := forks exclude_repos exclude_langs consider_forked_repos graphql
               fuel sg.2 in
  let c := Contributions.total_contributions years_answer totals_answer s in
  let* total := c.1 in
  let* ar := all_repos exclude_repos exclude_langs consider_forked_repos
               graphql fuel fk.2 in
  let* v := views exclude_repos exclude_langs consider_forked_repos graphql
              primary secondary fuel ar.2 in
  Ok ({| languages_shown := l.1;
         name_shown := n.1;
         stargazers_shown := sg.1;
         forks_shown := fk.1;
         contributions_shown := total;
         repositories_shown := base.size ar.1;
         added_shown := lc.1.1;
         deleted_shown := lc.1.2;
         changed_shown := lc.1.1 + lc.1.2;
         views_shown := v.1 |}, v.2, c.2).

End ToStr.

End Report.

(** * Properties *)

(** ** Python numbers: sanity checks *)

Example true_div_third :
  PyFloat.true_div 1 3 = Ok (S754_finite false 6004799503160661 (-54)).
Proof. reflexivity. Qed.

Example true_div_by_zero : PyFloat.true_div 0 0 = Raise ZeroDivisionError.
Proof. reflexivity. Qed.

Example scale_truncates : Lines.scale 8 (S754_finite false 6004799503160661 (-54)) = Ok 2.
Proof. reflexivity. Qed.

(** ** The gateway *)

Section GatewayFacts.
Import Gateway.

Variable primary : nat → string → primary_reply.
Variable secondary : nat → string → secondary_reply.

Lemma url_at_shift path j :
  url_at (strip_slash path) j = url_at path (S j).
Proof. unfold url_at. by rewrite <- !Nat.iter_succ_r. Qed.

(** Whatever is left of the loop, if every remaining attempt sees a
    202 then all of them are made, each is followed by a two-second
    pause, and the loop falls through to the give-up return. *)
Lemma query_rest_loop_202 n : ∀ i path,
  (∀ j, (j < n)%nat →
        saw_202 primary secondary (i + j) (url_at path j) = true) →
  let r := query_rest_loop primary secondary n i path in
  r.2 = Ok empty_dict ∧ attempts r.1 = n ∧ sleeps r.1 = repeat 2 n
  ∧ last r.1 = Some (EPrint msg_give_up).
Proof.
  induction n as [|n IH]; intros i path H; [done|].
  assert (H0 := H O ltac:(lia)).
  assert (Hn : ∀ j, (j < n)%nat →
            saw_202 primary secondary (S i + j)
              (url_at (strip_slash path) j) = true).
  { intros j Hj. rewrite url_at_shift.
    replace (S i + j)%nat with (i + S j)%nat by lia. apply H. lia. }
  destruct (IH (S i) (strip_slash path) Hn) as (Hr & Ha & Hs & Hl).
  rewrite Nat.add_0_r in H0. unfold url_at in H0. simpl in H0.
  cbn [query_rest_loop]. unfold saw_202 in H0.
  set (c := query_rest_loop primary secondary n (S i) (strip_slash path)) in *.
  assert (Hne : c.1 ≠ []) by (intros E; by rewrite E in Hl).
  assert (Hlast : ∀ e, last (e :: c.1) = last c.1).
  { intros e. destruct (c.1); [done|reflexivity]. }
  unfold fallback.
  destruct (primary i (api_url (strip_slash path))) as [|status json].
  - destruct (secondary i (api_url (strip_slash path))) as [|code js];
      [done|]. rewrite H0. cbn.
    rewrite Ha, Hs. repeat split; try done.
    by rewrite !Hlast.
  - destruct (status =? 202) eqn:E; cbn.
    + rewrite Ha, Hs. repeat split; try done. by rewrite !Hlast.
    + destruct json as [b|]; [done|].
      destruct (secondary i (api_url (strip_slash path))) as [|code js];
        [done|]. cbn in H0. rewrite H0. cbn.
      rewrite Ha, Hs. repeat split; try done. by rewrite !Hlast.
Qed.

(** C5. A paged REST request whose endpoint answers every attempt with
    the asynchronous-not-ready signal (HTTP 202) makes exactly 60
    attempts, pauses two seconds after each of them, and then returns
    the empty mapping after the diagnostic that data will be incomplete;
    it does not raise. *)
Theorem query_rest_gives_up_after_60 (path : string) :
  (∀ i, (i < 60)%nat →
        saw_202 primary secondary i (url_at path i) = true) →
  ∃ t, query_rest primary secondary path = (t, Ok empty_dict)
       ∧ attempts t = 60%nat
       ∧ sleeps t = repeat 2 60
       ∧ last t = Some (EPrint msg_give_up).
Proof.
  intros H. unfold query_rest.
  destruct (query_rest_loop_202 60 O path H) as (Hr & Ha & Hs & Hl).
  destruct (query_rest_loop primary secondary 60 0 path) as [t r].
  simpl in *. subst r. by exists t.
Qed.

End GatewayFacts.



(** The retry loop is reasoned about through its lemmas, not unfolded. *)
Arguments Gateway.query_rest : simpl never.
Arguments Lines.fetch : simpl never.
Arguments Lines.step : simpl never.

(** ** Loops that may raise *)

Lemma bind_Ok {A B : Type} (r : result A) (k : A → result B) (b : B) :
  bind r k = Ok b → ∃ a, r = Ok a ∧ k a = Ok b.
Proof. destruct r as [a| |]; simpl; [eauto|done|done]. Qed.

Lemma foldM_cons {A B : Type} (f : A → B → result A) b l (a : A) :
  foldM f (b :: l) a = bind (f a b) (foldM f l).
Proof. reflexivity. Qed.

Lemma foldM_app {A B : Type} (f : A → B → result A) (l1 l2 : list B) (a : A) :
  foldM f (l1 ++ l2) a = bind (foldM f l1 a) (foldM f l2).
Proof.
  revert a. induction l1 as [|b l1 IH]; intros a; simpl; [done|].
  destruct (f a b); simpl; auto.
Qed.

Lemma foldM_split {A B : Type} (f : A → B → result A) l1 x l2 (a c : A) :
  foldM f (l1 ++ x :: l2) a = Ok c →
  ∃ a1 a2, foldM f l1 a = Ok a1 ∧ f a1 x = Ok a2 ∧ foldM f l2 a2 = Ok c.
Proof.
  rewrite foldM_app. intros H.
  apply bind_Ok in H as (a1 & H1 & H). simpl in H.
  apply bind_Ok in H as (a2 & H2 & H). eauto.
Qed.

(** A property kept by every successful iteration is kept by the loop. *)
Lemma foldM_invariant {A B : Type} (f : A → B → result A) (P : A → A → Prop) :
  (∀ a, P a a) →
  (∀ a b c, P a b → P b c → P a c) →
  ∀ l, (∀ a x a', x ∈ l → f a x = Ok a' → P a a') →
  ∀ a a', foldM f l a = Ok a' → P a a'.
Proof.
  intros Hrefl Htrans l. induction l as [|x l IH]; intros Hstep a a' H.
  - simpl in H. injection H as <-. apply Hrefl.
  - simpl in H. apply bind_Ok in H as (a1 & H1 & H).
    eapply Htrans.
    + eapply Hstep; [left|exact H1].
    + apply IH; [|exact H]. intros ? ? ? ?. apply Hstep. by right.
Qed.

Lemma mapM_r_Forall2 {A B : Type} (f : A → result B) (l : list A) (l' : list B) :
  mapM_r f l = Ok l' → Forall2 (fun a b => f a = Ok b) l l'.
Proof.
  revert l'. induction l as [|a l IH]; intros l' H; simpl in H.
  - injection H as <-. constructor.
  - apply bind_Ok in H as (b & Hb & H).
    apply bind_Ok in H as (bs & Hbs & H). injection H as <-.
    constructor; auto.
Qed.

(** ** The lines-changed loop *)

Section LinesFacts.
Import Gateway Cache Lines.

Variable username : string.
Variable primary : nat → string → primary_reply.
Variable secondary : nat → string → secondary_reply.
Variable utcnow : nat → string.
Variable loaded : gmap string cache_entry.
Variable repo_language_data : gmap string (list (string * PyFloat.float)).

Abbreviation step :=
  (Lines.step username primary secondary utcnow loaded repo_language_data).
Abbreviation run :=
  (Lines.run username primary secondary utcnow loaded repo_language_data).
Abbreviation visit :=
  (Lines.visit username primary secondary utcnow loaded repo_language_data).
Abbreviation fetch := (Lines.fetch primary secondary).
Abbreviation lang_contribs := (Lines.lang_contribs repo_language_data).

(** The three ways an iteration can end. *)
Lemma step_on_list st repo items st' :
  (fetch repo).2 = Ok (BList items) → step st repo = Ok st' →
  let t := repo_totals username items in
  ∃ langs, lang_contribs repo t.1 t.2 = Ok langs
    ∧ st' = {| total_additions := total_additions st + t.1;
               total_deletions := total_deletions st + t.2;
               updated_cache :=
                 <[ repo := {| additions := t.1; deletions := t.2;
                               last_updated := utcnow (clock_reads st) +:+ "Z";
                               languages := Some langs |} ]> (updated_cache st);
               clock_reads := S (clock_reads st);
               trace := trace st ++ (fetch repo).1 |}.
Proof.
  unfold Lines.step. generalize (fetch repo) as q. intros q Hf H.
  cbv zeta in H. rewrite Hf in H. cbn [bind] in H.
  apply bind_Ok in H as (langs & Hl & H). injection H as <-.
  exists langs. by split.
Qed.

Lemma step_on_failure_cached st repo b e :
  (fetch repo).2 = Ok b → is_list b = false → loaded !! repo = Some e →
  step st repo =
    Ok {| total_additions := total_additions st + additions e;
          total_deletions := total_deletions st + deletions e;
          updated_cache := <[ repo := e ]> (updated_cache st);
          clock_reads := clock_reads st;
          trace := trace st ++ (fetch repo).1
                     ++ [EPrint (msg_failed repo); EPrint (msg_cached repo)] |}.
Proof.
  unfold Lines.step. generalize (fetch repo) as q. intros q Hf Hb He.
  cbv zeta. rewrite Hf. cbn [bind].
  destruct b; try discriminate; by rewrite He.
Qed.

Lemma step_on_failure_uncached st repo b :
  (fetch repo).2 = Ok b → is_list b = false → loaded !! repo = None →
  step st repo =
    Ok {| total_additions := total_additions st;
          total_deletions := total_deletions st;
          updated_cache := updated_cache st;
          clock_reads := clock_reads st;
          trace := trace st ++ (fetch repo).1
                     ++ [EPrint (msg_failed repo); EPrint (msg_skip repo)] |}.
Proof.
  unfold Lines.step. generalize (fetch repo) as q. intros q Hf Hb He.
  cbv zeta. rewrite Hf. cbn [bind].
  destruct b; try discriminate; by rewrite He.
Qed.

(** An iteration touches the cache at its own key only, and never
    removes a key. *)
Lemma step_cases st repo st' :
  step st repo = Ok st' →
  updated_cache st' = updated_cache st
  ∨ ∃ e, updated_cache st' = <[ repo := e ]> (updated_cache st).
Proof.
  unfold Lines.step. generalize (fetch repo) as q. intros q H.
  cbv zeta in H. apply bind_Ok in H as (b & Hf & H).
  destruct b as [|items|vs].
  2:{ apply bind_Ok in H as (langs & _ & H). injection H as <-.
      right. eauto. }
  all: destruct (loaded !! repo) as [e|]; injection H as <-;
    [right; eauto | by left].
Qed.

Lemma step_other st repo st' k :
  step st repo = Ok st' → k ≠ repo →
  updated_cache st' !! k = updated_cache st !! k.
Proof.
  intros H Hk. destruct (step_cases _ _ _ H) as [->|[e ->]]; [done|].
  by rewrite lookup_insert_ne.
Qed.

Lemma loop_other l : ∀ st st' k,
  foldM step l st = Ok st' → k ∉ l →
  updated_cache st' !! k = updated_cache st !! k.
Proof.
  induction l as [|x l IH]; intros st st' k H Hk.
  - by injection H as <-.
  - rewrite foldM_cons in H. apply bind_Ok in H as (st1 & H1 & H).
    apply not_elem_of_cons in Hk as [Hx Hl].
    rewrite (IH _ _ _ H Hl). by apply step_other with x.
Qed.

Lemma loop_keeps_keys l st st' k :
  foldM step l st = Ok st' →
  is_Some (updated_cache st !! k) → is_Some (updated_cache st' !! k).
Proof.
  intros H. revert H k.
  apply (foldM_invariant step
    (fun a b => ∀ k, is_Some (updated_cache a !! k) →
                     is_Some (updated_cache b !! k))); [auto|auto|].
  intros a x a' _ Hs k Hk.
  destruct (step_cases _ _ _ Hs) as [->|[e ->]]; [done|].
  destruct (decide (x = k)) as [->|Hne].
  - rewrite lookup_insert_eq. eauto.
  - by rewrite lookup_insert_ne.
Qed.

(** In a run over distinct repositories, each one has its iteration,
    and what that iteration left in the cache under its key is what
    the run ends with. *)
Lemma run_visit rs clock tr repo final :
  NoDup rs → repo ∈ rs → run rs clock tr = Ok final →
  ∃ before after, visit rs clock tr repo before after
    ∧ updated_cache final !! repo = updated_cache after !! repo.
Proof.
  intros Hnd Hin H.
  apply list_elem_of_split in Hin as (l1 & l2 & ->).
  unfold Lines.run in H.
  apply foldM_split in H as (before & after & H1 & H2 & H3).
  exists before, after. split; [by exists l1, l2|].
  apply NoDup_app in Hnd as (_ & _ & Hnd). apply NoDup_cons in Hnd as [Hn _].
  by apply loop_other with l2.
Qed.

(** In a run over distinct repositories, the cache is not touched under
    [repo] before the iteration for [repo]. *)
Lemma visit_before rs clock tr repo before after :
  NoDup rs → visit rs clock tr repo before after →
  updated_cache before !! repo = loaded !! repo.
Proof.
  intros Hnd (l1 & l2 & -> & H1 & _).
  apply NoDup_app in Hnd as (_ & Hd & _).
  rewrite (loop_other _ _ _ repo H1); [done|].
  intros Hin. apply (Hd _ Hin). left.
Qed.

(** A completed iteration had its fetch return. *)
Lemma step_fetched st repo st' :
  step st repo = Ok st' → ∃ b, (fetch repo).2 = Ok b.
Proof.
  unfold Lines.step. generalize (fetch repo) as q. intros q H.
  cbv zeta in H. apply bind_Ok in H as (b & Hf & _). eauto.
Qed.

(** An entry of the loaded cache is still there when the run ends; it
    is the loaded one unless the repository is one of the run and its
    fetch yielded a list. *)
Lemma run_keeps_entries rs clock tr final k e :
  NoDup rs → run rs clock tr = Ok final → loaded !! k = Some e →
  is_Some (updated_cache final !! k)
  ∧ (updated_cache final !! k = Some e
     ∨ (k ∈ rs ∧ ∃ items, (fetch k).2 = Ok (BList items))).
Proof.
  intros Hnd Hrun He.
  split; [apply (loop_keeps_keys _ _ _ _ Hrun); cbn; by rewrite He|].
  destruct (decide (k ∈ rs)) as [Hin|Hout].
  - destruct (run_visit _ _ _ _ _ Hnd Hin Hrun)
      as (before & after & Hv & ->).
    pose proof Hv as (l1 & l2 & _ & _ & Hstep).
    destruct (step_fetched _ _ _ Hstep) as [b Hf].
    destruct (is_list b) eqn:Hb.
    + right. split; [done|]. destruct b; try discriminate. eauto.
    + left. rewrite (step_on_failure_cached before k b e Hf Hb He) in Hstep.
      injection Hstep as <-. cbn. by rewrite lookup_insert_eq.
  - left. unfold Lines.run in Hrun.
    by rewrite (loop_other _ _ _ k Hrun Hout).
Qed.

(** The clock only moves forward. *)
Lemma step_clock st repo st' :
  step st repo = Ok st' → (clock_reads st ≤ clock_reads st')%nat.
Proof.
  unfold Lines.step. generalize (fetch repo) as q. intros q H.
  cbv zeta in H. apply bind_Ok in H as (b & Hf & H).
  destruct b as [|items|vs].
  2:{ apply bind_Ok in H as (langs & _ & H). injection H as <-. cbn. lia. }
  all: destruct (loaded !! repo) as [e|]; by injection H as <-.
Qed.

Lemma loop_clock l st st' :
  foldM step l st = Ok st' → (clock_reads st ≤ clock_reads st')%nat.
Proof.
  apply (foldM_invariant step
    (fun a b => (clock_reads a ≤ clock_reads b)%nat)); [lia|lia|].
  intros a x a' _. apply step_clock.
Qed.

Lemma visit_clock rs clock tr repo before after :
  visit rs clock tr repo before after → (clock ≤ clock_reads before)%nat.
Proof. intros (l1 & l2 & _ & H & _). by apply loop_clock in H. Qed.

(** The two nested loops over the contributor list compute the sums the
    spec describes. *)
Lemma spec_sum_app field (l1 l2 : list week) :
  spec_sum field (l1 ++ l2) = spec_sum field l1 + spec_sum field l2.
Proof.
  induction l1 as [|w l1 IH]; simpl; [done|]. rewrite IH. lia.
Qed.

Lemma week_loop_sums (ws : list week) : ∀ t,
  fold_left week_step ws t
  = (t.1 + spec_sum week_a ws, t.2 + spec_sum week_d ws).
Proof.
  induction ws as [|w ws IH]; intros [a d]; simpl.
  - f_equal; lia.
  - rewrite IH. unfold week_step. simpl. f_equal; lia.
Qed.

Lemma author_loop_sums (r : list author_obj) : ∀ t,
  fold_left (author_step username) r t
  = (t.1 + spec_sum week_a (spec_target_weeks username r),
     t.2 + spec_sum week_d (spec_target_weeks username r)).
Proof.
  induction r as [|o r IH]; intros [a d].
  - simpl. f_equal; lia.
  - change (spec_target_weeks username (o :: r))
      with (spec_weeks_of username o ++ spec_target_weeks username r).
    cbn [fold_left]. rewrite IH, !spec_sum_app.
    destruct o as [|[| |[l|]] weeks];
      cbn [author_step login_of spec_weeks_of];
      try case_decide; rewrite ?week_loop_sums; cbn [fst snd spec_sum foldr];
      f_equal; lia.
Qed.

Lemma repo_totals_spec (r : list author_obj) :
  repo_totals username r
  = (spec_sum week_a (spec_target_weeks username r),
     spec_sum week_d (spec_target_weeks username r)).
Proof. unfold repo_totals. by rewrite author_loop_sums. Qed.

(** The iteration for a repository whose fetch did not yield a list:
    with a loaded entry, it adds that entry's counts to the running totals
    and the run ends with that very entry; without one, it changes neither
    the totals nor the cache and the run ends with no entry for it. *)
Lemma run_cache_fallback rs clock tr repo b final :
  NoDup rs → repo ∈ rs →
  (fetch repo).2 = Ok b → is_list b = false →
  run rs clock tr = Ok final →
  ∃ before after, visit rs clock tr repo before after ∧
    match loaded !! repo with
    | Some e =>
        total_additions after = total_additions before + additions e
        ∧ total_deletions after = total_deletions before + deletions e
        ∧ updated_cache final !! repo = Some e
    | None =>
        total_additions after = total_additions before
        ∧ total_deletions after = total_deletions before
        ∧ updated_cache after = updated_cache before
        ∧ updated_cache final !! repo = None
    end.
Proof.
  intros Hnd Hin Hf Hb Hrun.
  destruct (run_visit _ _ _ _ _ Hnd Hin Hrun) as (before & after & Hv & Hfin).
  exists before, after. split; [exact Hv|].
  pose proof (visit_before _ _ _ _ _ _ Hnd Hv) as Hbefore.
  destruct Hv as (l1 & l2 & _ & _ & Hstep). rewrite Hfin.
  destruct (loaded !! repo) as [e|] eqn:He.
  - rewrite (step_on_failure_cached before repo b e Hf Hb He) in Hstep.
    injection Hstep as <-. cbn. by rewrite lookup_insert_eq.
  - rewrite (step_on_failure_uncached before repo b Hf Hb He) in Hstep.
    injection Hstep as <-. cbn. by rewrite Hbefore.
Qed.

(** [int(f)] is the integer part of [f], and [int(n * share)] the
    truncated product. *)
Lemma to_int_integer_part f z :
  PyFloat.to_int f = Ok z → spec_integer_part z f.
Proof.
  destruct f as [s|s| |s m e]; cbn; try discriminate.
  - intros H. by injection H as <-.
  - intros H. injection H as <-.
    assert (Hm : 0 < Z.pos m) by lia.
    destruct (0 <=? e) eqn:He.
    + apply Z.leb_le in He. rewrite Z.shiftl_mul_pow2 by done.
      rewrite (Z.max_l 0 (- e)), (Z.max_r 0 e) by lia.
      assert (0 < 2 ^ e) by (apply Z.pow_pos_nonneg; lia).
      destruct s; (split; [nia|]); rewrite ?Z.abs_opp, Z.abs_eq by nia;
        rewrite Z.pow_0_r; lia.
    + apply Z.leb_gt in He. rewrite Z.shiftr_div_pow2 by lia.
      rewrite (Z.max_r 0 (- e)), (Z.max_l 0 e) by lia.
      assert (Hp : 0 < 2 ^ (- e)) by (apply Z.pow_pos_nonneg; lia).
      pose proof (Z.div_pos (Z.pos m) (2 ^ (- e)) ltac:(lia) Hp) as Hq.
      pose proof (Z.mul_div_le (Z.pos m) (2 ^ (- e)) Hp) as Hle.
      pose proof (Z.mul_succ_div_gt (Z.pos m) (2 ^ (- e)) Hp) as Hgt.
      destruct s; (split; [lia|]); rewrite ?Z.abs_opp, Z.abs_eq by lia;
        rewrite Z.pow_0_r; lia.
Qed.

Lemma scale_truncated_product n share z :
  scale n share = Ok z → spec_truncated_product n share z.
Proof.
  unfold scale, PyFloat.int_mul, PyFloat.of_int, spec_truncated_product.
  destruct (binary_normalize _ _ _ _ _) as [s|s| |s m e]; cbn [bind];
    try discriminate; apply to_int_integer_part.
Qed.

(** The iteration for a repository whose fetch yielded a list: the
    counts are the sums the spec describes, they are added to the running
    totals, and the run ends with an entry made of them, of the clock
    reading of that iteration and of the breakdown by language. *)
Lemma run_cache_overwrite rs clock tr repo items final :
  NoDup rs → repo ∈ rs →
  (fetch repo).2 = Ok (BList items) →
  run rs clock tr = Ok final →
  let a := spec_sum week_a (spec_target_weeks username items) in
  let d := spec_sum week_d (spec_target_weeks username items) in
  repo_totals username items = (a, d)
  ∧ ∃ before after entry langs,
      visit rs clock tr repo before after
      ∧ total_additions after = total_additions before + a
      ∧ total_deletions after = total_deletions before + d
      ∧ updated_cache final !! repo = Some entry
      ∧ entry = {| additions := a; deletions := d;
                   last_updated := utcnow (clock_reads before) +:+ "Z";
                   languages := Some langs |}
      ∧ (clock ≤ clock_reads before)%nat
      ∧ match repo_language_data !! repo with
        | Some props =>
            Forall2 (fun (kv : string * PyFloat.float)
                         (lc : string * lang_contrib) =>
                       lc.1 = kv.1
                       ∧ spec_truncated_product a kv.2 (lang_additions lc.2)
                       ∧ spec_truncated_product d kv.2
                           (lang_deletions lc.2))
                    props langs
        | None =>
            langs = [("Unknown", {| lang_additions := a;
                                    lang_deletions := d |})]
        end.
Proof.
  intros Hnd Hin Hf Hrun a d.
  split; [apply repo_totals_spec|].
  destruct (run_visit _ _ _ _ _ Hnd Hin Hrun) as (before & after & Hv & Hfin).
  pose proof (visit_clock _ _ _ _ _ _ Hv) as Hclock.
  pose proof Hv as (l1 & l2 & _ & _ & Hstep).
  destruct (step_on_list _ _ _ _ Hf Hstep) as (langs & Hl & ->).
  rewrite repo_totals_spec in Hl. cbn [fst snd] in Hl.
  rewrite repo_totals_spec in Hfin, Hv. cbn [fst snd] in Hfin, Hv.
  cbn [updated_cache] in Hfin. rewrite lookup_insert_eq in Hfin.
  eexists before, _, _, langs.
  split; [exact Hv|]. cbn [total_additions total_deletions].
  do 2 (split; [reflexivity|]). split; [exact Hfin|].
  split; [reflexivity|]. split; [exact Hclock|].
  unfold Lines.lang_contribs in Hl.
  destruct (repo_language_data !! repo) as [props|].
  - apply mapM_r_Forall2 in Hl.
    eapply Forall2_impl; [exact Hl|].
    intros kv lc H. unfold attribute in H.
    apply bind_Ok in H as (x & Hx & H). apply bind_Ok in H as (y & Hy & H).
    injection H as <-. cbn.
    split; [done|]. split; by apply scale_truncated_product.
  - by injection Hl as <-.
Qed.

End LinesFacts.

(** ** The repository collector *)

Section CollectorFacts.
Import Collector.

Variable exclude_repos : gset string.
Variable exclude_langs : gset string.
Variable consider_forked_repos : bool.
Variable graphql : nat → option string → option string → result (option page).

Abbreviation note := (note_ignored exclude_repos).
Abbreviation admission := (admit_repo exclude_repos exclude_langs).
Abbreviation process :=
  (process_page exclude_repos exclude_langs consider_forked_repos).
Abbreviation cands := (candidates consider_forked_repos).
Abbreviation grows := (grows_by exclude_langs).

(** *** One sighting *)

Lemma admit_seen st repo :
  nameWithOwner repo ∈ snap_repos st → admission st repo = Ok st.
Proof. intros H. unfold admit_repo. rewrite decide_True; auto. Qed.

Lemma admit_excluded st repo :
  nameWithOwner repo ∈ exclude_repos → admission st repo = Ok st.
Proof. intros H. unfold admit_repo. rewrite decide_True; auto. Qed.

Lemma admit_fresh st repo st' :
  nameWithOwner repo ∉ snap_repos st → nameWithOwner repo ∉ exclude_repos →
  admission st repo = Ok st' →
  grows st [repo] st'
  ∧ snap_ignored_repos st' = snap_ignored_repos st
  ∧ snap_name st' = snap_name st.
Proof.
  intros H1 H2 H. unfold admit_repo in H.
  rewrite decide_False in H by tauto.
  destruct (fold_left _ _ _) as [repo_langs total_size] in H.
  apply bind_Ok in H as (data & _ & H). injection H as <-.
  unfold grows_by, repo_edges. cbn. rewrite app_nil_r.
  repeat split; [set_solver|lia|lia].
Qed.

Lemma note_seen (i : gset string) repo :
  nameWithOwner repo ∈ i → note i repo = i.
Proof. intros H. unfold note_ignored. rewrite decide_True; auto. Qed.

Lemma note_excluded (i : gset string) repo :
  nameWithOwner repo ∈ exclude_repos → note i repo = i.
Proof. intros H. unfold note_ignored. rewrite decide_True; auto. Qed.

Lemma note_loop_elem (l : list repo_node) : ∀ (i : gset string) x,
  x ∈ fold_left note l i
  ↔ x ∈ i ∨ (x ∈ map nameWithOwner l ∧ x ∉ exclude_repos).
Proof.
  induction l as [|r l IH]; intros i x; cbn [fold_left map].
  - rewrite elem_of_nil. tauto.
  - rewrite IH, elem_of_cons. unfold note_ignored. case_decide; set_solver.
Qed.

(** *** First sightings *)

Lemma grows_refl st : grows st [] st.
Proof.
  unfold grows_by. cbn. repeat split; [set_solver|lia|lia].
Qed.

Lemma spec_total_app field (l1 l2 : list repo_node) :
  spec_total field (l1 ++ l2) = spec_total field l1 + spec_total field l2.
Proof. induction l1 as [|r l1 IH]; simpl; [done|]. rewrite IH. lia. Qed.

Lemma grows_trans st1 f1 st2 f2 st3 :
  grows st1 f1 st2 → grows st2 f2 st3 → grows st1 (f1 ++ f2) st3.
Proof.
  intros (Ha & Hb & Hc & Hd) (Ha' & Hb' & Hc' & Hd'). unfold grows_by.
  rewrite Ha', Hb', Hc', Hd', Ha, Hb, Hc, Hd.
  rewrite map_app, list_to_set_app_L, !spec_total_app, flat_map_app,
    fold_left_app.
  repeat split; try lia. set_solver.
Qed.

Lemma first_sightings_app (l1 l2 : list repo_node) : ∀ seen,
  first_sightings seen (l1 ++ l2)
  = first_sightings seen l1
    ++ first_sightings
         (list_to_set (map nameWithOwner (first_sightings seen l1)) ∪ seen) l2.
Proof.
  induction l1 as [|r l1 IH]; intros seen; cbn [app first_sightings].
  - cbn. f_equal. set_solver.
  - case_decide; [apply IH|].
    cbn [app map]. rewrite IH, list_to_set_cons. do 3 f_equal. set_solver.
Qed.

Lemma first_sightings_sound (l : list repo_node) : ∀ seen r,
  r ∈ first_sightings seen l → r ∈ l ∧ nameWithOwner r ∉ seen.
Proof.
  induction l as [|r0 l IH]; intros seen r; cbn [first_sightings].
  - by rewrite elem_of_nil.
  - case_decide as Hd.
    + intros H. apply IH in H as [? ?]. split; [by right|done].
    + rewrite elem_of_cons. intros [->|H]; [split; [left|done]|].
      apply IH in H as [? ?]. split; [by right|set_solver].
Qed.

Lemma first_sightings_NoDup (l : list repo_node) : ∀ seen,
  NoDup (map nameWithOwner (first_sightings seen l)).
Proof.
  induction l as [|r l IH]; intros seen; cbn [first_sightings].
  - constructor.
  - case_decide; [apply IH|]. cbn [map]. constructor; [|apply IH].
    rewrite list_elem_of_fmap. intros (r' & Heq & Hin).
    apply first_sightings_sound in Hin as [_ Hn]. set_solver.
Qed.

Lemma first_sightings_complete (l : list repo_node) : ∀ seen x,
  x ∈ map nameWithOwner l → x ∉ seen →
  x ∈ map nameWithOwner (first_sightings seen l).
Proof.
  induction l as [|r l IH]; intros seen x; cbn [first_sightings map].
  - by rewrite elem_of_nil.
  - rewrite elem_of_cons. intros Hin Hx. case_decide as Hd.
    + destruct Hin as [->|Hin]; [done|]. by apply IH.
    + cbn [map]. rewrite elem_of_cons.
      destruct (decide (x = nameWithOwner r)) as [|Hne]; [by left|right].
      destruct Hin as [|Hin]; [done|]. apply IH; [done|set_solver].
Qed.

(** *** The admission loop *)

Lemma admit_loop_grows (l : list repo_node) : ∀ st st',
  foldM admission l st = Ok st' →
  grows st (first_sightings (snap_repos st ∪ exclude_repos) l) st'
  ∧ snap_ignored_repos st' = snap_ignored_repos st
  ∧ snap_name st' = snap_name st.
Proof.
  induction l as [|r l IH]; intros st st' H.
  - injection H as <-. split; [apply grows_refl|done].
  - rewrite foldM_cons in H. apply bind_Ok in H as (st1 & H1 & H).
    cbn [first_sightings]. case_decide as Hd.
    + rewrite elem_of_union in Hd.
      assert (st1 = st) as ->.
      { destruct Hd as [Hd|Hd];
          [rewrite admit_seen in H1|rewrite admit_excluded in H1];
          by try injection H1 as <-. }
      by apply IH.
    + rewrite not_elem_of_union in Hd. destruct Hd as [Hr He].
      destruct (admit_fresh _ _ _ Hr He H1) as (Hg & Hi & Hn).
      destruct (IH _ _ H) as (Hg' & Hi' & Hn').
      split; [|by rewrite Hi', Hn'].
      replace ({[nameWithOwner r]} ∪ (snap_repos st ∪ exclude_repos))
        with (snap_repos st1 ∪ exclude_repos).
      * apply (grows_trans _ [r] _ _ _ Hg Hg').
      * destruct Hg as (-> & _). cbn. set_solver.
Qed.

Lemma admission_loop_noop (l : list repo_node) : ∀ st,
  (∀ r, r ∈ l → nameWithOwner r ∈ snap_repos st
                ∨ nameWithOwner r ∈ exclude_repos) →
  foldM admission l st = Ok st.
Proof.
  induction l as [|r l IH]; intros st H; [done|].
  rewrite foldM_cons.
  assert (Hr : admission st r = Ok st).
  { destruct (H r) as [?|?]; [left|by apply admit_seen|by apply admit_excluded]. }
  rewrite Hr. cbn [bind]. apply IH. intros r' Hr'. apply H. by right.
Qed.

(** *** Pages *)

(** A page on which the admission loop finds nothing new leaves the
    repository set and the totals as they are. *)
Lemma process_only_duplicates st p st' :
  (∀ r, r ∈ cands p → nameWithOwner r ∈ snap_repos st
                      ∨ nameWithOwner r ∈ exclude_repos) →
  process st p = Ok st' →
  snap_repos st' = snap_repos st
  ∧ snap_stargazers st' = snap_stargazers st
  ∧ snap_forks st' = snap_forks st
  ∧ snap_languages st' = snap_languages st
  ∧ snap_repo_language_data st' = snap_repo_language_data st.
Proof.
  intros Hdup H. unfold process_page in H.
  destruct (viewer_null p); [discriminate|].
  rewrite admission_loop_noop in H by exact Hdup.
  by injection H as <-.
Qed.

Lemma process_grows st p st' :
  process st p = Ok st' →
  grows st (first_sightings (snap_repos st ∪ exclude_repos) (cands p)) st'
  ∧ snap_ignored_repos st'
    = (if consider_forked_repos then snap_ignored_repos st
       else fold_left note (conn_nodes (repositoriesContributedTo p))
                      (snap_ignored_repos st)).
Proof.
  intros H. unfold process_page in H.
  destruct (viewer_null p); [discriminate|].
  apply admit_loop_grows in H as (Hg & Hi & _). by split.
Qed.

Lemma pages_grow (ps : list page) : ∀ st st',
  foldM process ps st = Ok st' →
  grows st (first_sightings (snap_repos st ∪ exclude_repos)
              (flat_map cands ps)) st'
  ∧ ∀ x, x ∈ snap_ignored_repos st'
         ↔ x ∈ snap_ignored_repos st
           ∨ (consider_forked_repos = false
              ∧ x ∈ map nameWithOwner
                      (flat_map (fun p =>
                                   conn_nodes (repositoriesContributedTo p)) ps)
              ∧ x ∉ exclude_repos).
Proof.
  induction ps as [|p ps IH]; intros st st' H.
  - injection H as <-. split; [apply grows_refl|].
    intros x. cbn. rewrite elem_of_nil. tauto.
  - rewrite foldM_cons in H. apply bind_Ok in H as (st1 & H1 & H).
    apply process_grows in H1 as (Hg & Hi).
    apply IH in H as (Hg' & Hi'). split.
    + cbn [flat_map]. rewrite first_sightings_app.
      eapply grows_trans; [exact Hg|].
      replace (_ ∪ (snap_repos st ∪ exclude_repos))
        with (snap_repos st1 ∪ exclude_repos); [exact Hg'|].
      destruct Hg as (-> & _). set_solver.
    + intros x. rewrite Hi', Hi. cbn [flat_map]. rewrite map_app, elem_of_app.
      destruct consider_forked_repos; [naive_solver|].
      rewrite note_loop_elem. naive_solver.
Qed.

Lemma collect_pages fuel : ∀ k a b st st' k',
  collect exclude_repos exclude_langs consider_forked_repos graphql
          fuel k a b st = Ok (st', k') →
  foldM process (pages_read graphql fuel k a b) st = Ok st'.
Proof.
  induction fuel as [|fuel IH]; intros k a b st st' k' H; [done|].
  cbn [collect pages_read] in *.
  destruct (graphql k a b) as [raw| |]; [|done..]. cbn [bind] in H.
  rewrite foldM_cons.
  destruct (process st (default empty_page raw)) as [st1| |]; [|done..].
  cbn [bind] in *.
  destruct (has_next _ || has_next _).
  - by apply IH in H.
  - by injection H as <- <-.
Qed.

(** A run that completes does so whatever further fuel it is given. *)
Lemma collect_fuel fuel : ∀ k a b st r more,
  collect exclude_repos exclude_langs consider_forked_repos graphql
          fuel k a b st = Ok r →
  collect exclude_repos exclude_langs consider_forked_repos graphql
          (fuel + more) k a b st = Ok r.
Proof.
  induction fuel as [|fuel IH]; intros k a b st r more H; [done|].
  cbn [collect Nat.add] in *.
  destruct (graphql k a b) as [raw| |]; [|done..]. cbn [bind] in *.
  destruct (process st (default empty_page raw)) as [st1| |]; [|done..].
  cbn [bind] in *. destruct (has_next _ || has_next _); [|done].
  by apply IH.
Qed.

Lemma percentages_keeps st st' :
  percentages st = Ok st' →
  snap_name st' = snap_name st
  ∧ snap_stargazers st' = snap_stargazers st
  ∧ snap_forks st' = snap_forks st
  ∧ snap_repos st' = snap_repos st
  ∧ snap_ignored_repos st' = snap_ignored_repos st
  ∧ snap_repo_language_data st' = snap_repo_language_data st
  ∧ lang_sizes (snap_languages st') = lang_sizes (snap_languages st).
Proof.
  intros H. unfold percentages in H.
  apply bind_Ok in H as (langs & Hl & H). injection H as <-. cbn.
  repeat split. apply mapM_r_Forall2 in Hl.
  induction Hl as [|kv kv' l l' Hkv _ IH]; [done|].
  cbn. rewrite IH. f_equal.
  unfold set_prop in Hkv.
  apply bind_Ok in Hkv as (q & _ & Hkv). apply bind_Ok in Hkv as (x & _ & Hkv).
  by injection Hkv as <-.
Qed.

Lemma get_stats_inv fuel k old st k' :
  get_stats exclude_repos exclude_langs consider_forked_repos graphql
            fuel k old = Ok (st, k') →
  ∃ st0, foldM process (pages_read graphql fuel k None None) (reset old)
         = Ok st0
         ∧ percentages st0 = Ok st.
Proof.
  intros H. unfold get_stats in H.
  apply bind_Ok in H as ([st0 k0] & Hc & H).
  apply bind_Ok in H as (st1 & Hp & H). injection H as <- <-.
  exists st0. split; [by apply collect_pages in Hc|done].
Qed.

(** *** Nodes the loops skip *)

Abbreviation keep name :=
  (fun r : repo_node => negb (String.eqb (nameWithOwner r) name)).

Lemma conn_nodes_without name c :
  conn_nodes (conn_without name c) = List.filter (keep name) (conn_nodes c).
Proof. destruct c as [[[l|] i]|]; reflexivity. Qed.

Lemma has_next_without name c : has_next (conn_without name c) = has_next c.
Proof. by destruct c as [[l i]|]. Qed.

Lemma end_cursor_without name c old :
  end_cursor (conn_without name c) old = end_cursor c old.
Proof. by destruct c as [[l i]|]. Qed.

Lemma keep_false name r : keep name r = false → nameWithOwner r = name.
Proof.
  intros H. apply negb_false_iff in H. by apply String.eqb_eq in H.
Qed.

Lemma admit_loop_without name (l : list repo_node) : ∀ st,
  name ∈ exclude_repos →
  foldM admission (List.filter (keep name) l) st = foldM admission l st.
Proof.
  intros st Hex. revert st.
  induction l as [|r l IH]; intros st; [done|]. cbn [List.filter].
  destruct (keep name r) eqn:E.
  - rewrite !foldM_cons. destruct (admission st r); cbn [bind]; auto.
  - apply keep_false in E. rewrite foldM_cons, admit_excluded by by subst.
    cbn [bind]. apply IH.
Qed.

Lemma note_loop_without name (l : list repo_node) : ∀ i : gset string,
  name ∈ exclude_repos →
  fold_left note (List.filter (keep name) l) i = fold_left note l i.
Proof.
  intros i Hex. revert i.
  induction l as [|r l IH]; intros i; [done|]. cbn [List.filter].
  destruct (keep name r) eqn:E; cbn [fold_left]; [apply IH|].
  apply keep_false in E. rewrite note_excluded by by subst. apply IH.
Qed.

Lemma process_without name st p :
  name ∈ exclude_repos → process st (page_without name p) = process st p.
Proof.
  intros Hex. unfold process_page, candidates.
  cbn [page_without viewer_null viewer_name viewer_login repositories
       repositoriesContributedTo].
  destruct (viewer_null p); [done|].
  rewrite !conn_nodes_without, note_loop_without by done.
  destruct consider_forked_repos.
  - by rewrite <- List.filter_app, admit_loop_without.
  - by rewrite admit_loop_without.
Qed.

Lemma collect_without name fuel : ∀ k a b st,
  name ∈ exclude_repos →
  collect exclude_repos exclude_langs consider_forked_repos
          (map_pages (page_without name) graphql) fuel k a b st
  = collect exclude_repos exclude_langs consider_forked_repos
            graphql fuel k a b st.
Proof.
  intros k a b st Hex. revert k a b st.
  induction fuel as [|fuel IH]; intros k a b st; [done|].
  cbn [collect]. unfold map_pages at 1.
  destruct (graphql k a b) as [[p|]| |]; cbn [bind default id]; try done.
  rewrite process_without by done.
  destruct (process st p) as [st1| |]; cbn [bind]; try done.
  cbn [page_without repositories repositoriesContributedTo].
  rewrite !has_next_without, !end_cursor_without.
  destruct (has_next _ || has_next _); [apply IH|done].
Qed.

(** C6. A repository identity in the configured exclusion set is, after
    any completed run, in neither the repository set nor the excluded
    set, and it contributes nothing: the run, outcome and totals alike, is
    the run on the same answers with every node of that identity removed
    from the owned and the contributed-to lists. *)
Theorem excluded_repository_counts_nowhere name fuel k old :
  name ∈ exclude_repos →
  get_stats exclude_repos exclude_langs consider_forked_repos
            (map_pages (page_without name) graphql) fuel k old
  = get_stats exclude_repos exclude_langs consider_forked_repos
              graphql fuel k old
  ∧ (∀ st k',
        get_stats exclude_repos exclude_langs consider_forked_repos
                  graphql fuel k old = Ok (st, k') →
        (name ∉ snap_repos st) ∧ (name ∉ snap_ignored_repos st)).
Proof.
  intros Hex. split.
  - unfold get_stats. by rewrite collect_without.
  - intros st k' H. apply get_stats_inv in H as (st0 & Hc & Hp).
    apply pages_grow in Hc as ((Hr & _) & Hi).
    apply percentages_keeps in Hp as (_ & _ & _ & -> & -> & _).
    split.
    + rewrite Hr. cbn [reset snap_repos].
      rewrite elem_of_union, elem_of_list_to_set, list_elem_of_fmap.
      intros [(r & -> & Hin)|Hin]; [|set_solver].
      apply first_sightings_sound in Hin as [_ Hn]. set_solver.
    + rewrite Hi. cbn [reset snap_ignored_repos]. set_solver.
Qed.

(** *** The excluded set has no say in the totals *)

Lemma admit_set_ignored i st repo :
  admission (set_ignored i st) repo = rmap (set_ignored i) (admission st repo).
Proof.
  unfold admit_repo. cbn [set_ignored snap_repos snap_repo_language_data].
  case_decide; [done|].
  destruct (fold_left _ _ _) as [repo_langs total_size].
  destruct (0 <? total_size); [|done].
  by destruct (proportions repo_langs total_size).
Qed.

Lemma admit_loop_set_ignored i (l : list repo_node) : ∀ st,
  foldM admission l (set_ignored i st) = rmap (set_ignored i) (foldM admission l st).
Proof.
  induction l as [|r l IH]; intros st; [done|].
  rewrite !foldM_cons, admit_set_ignored.
  destruct (admission st r); cbn [bind rmap]; auto.
Qed.

Lemma process_without_contrib st p :
  consider_forked_repos = false →
  process (set_ignored ∅ st) (page_without_contrib p)
  = rmap (set_ignored ∅) (process st p).
Proof.
  intros Hflag. unfold process_page, candidates. rewrite Hflag.
  cbn [page_without_contrib viewer_null viewer_name viewer_login repositories
       repositoriesContributedTo].
  destruct (viewer_null p); [done|].
  replace (conn_nodes match repositoriesContributedTo p with
                      | Some c => Some {| nodes := Some []; pageInfo := pageInfo c |}
                      | None => None
                      end) with (@nil repo_node)
    by by destruct (repositoriesContributedTo p).
  cbn [fold_left set_ignored snap_ignored_repos snap_stargazers snap_forks
       snap_languages snap_repos snap_repo_language_data].
  exact (admit_loop_set_ignored ∅ _
           {| snap_name := _; snap_stargazers := _; snap_forks := _;
              snap_languages := _; snap_repos := _;
              snap_ignored_repos := _; snap_repo_language_data := _ |}).
Qed.

Lemma collect_without_contrib fuel : ∀ k a b st,
  consider_forked_repos = false →
  collect exclude_repos exclude_langs consider_forked_repos
          (map_pages page_without_contrib graphql) fuel k a b
          (set_ignored ∅ st)
  = rmap (fun r : snapshot * nat => (set_ignored ∅ r.1, r.2))
         (collect exclude_repos exclude_langs consider_forked_repos
                  graphql fuel k a b st).
Proof.
  intros k a b st Hflag. revert k a b st.
  induction fuel as [|fuel IH]; intros k a b st; [done|].
  cbn [collect]. unfold map_pages at 1.
  destruct (graphql k a b) as [[p|]| |]; cbn [bind default id rmap]; try done.
  - rewrite process_without_contrib by done.
    destruct (process st p) as [st1| |]; cbn [bind rmap]; try done.
    replace (has_next (repositoriesContributedTo (page_without_contrib p)))
      with (has_next (repositoriesContributedTo p))
      by by destruct p as [? ? ? [[? ?]|] ?].
    replace (end_cursor (repositoriesContributedTo (page_without_contrib p)) b)
      with (end_cursor (repositoriesContributedTo p) b)
      by by destruct p as [? ? ? [[? ?]|] ?].
    cbn [page_without_contrib repositories].
    destruct (has_next _ || has_next _); [apply IH|done].
  - change empty_page with (page_without_contrib empty_page) at 1.
    rewrite process_without_contrib by done.
    destruct (process st empty_page) as [st1| |]; cbn [bind rmap]; try done.
Qed.

Lemma percentages_set_ignored i st :
  percentages (set_ignored i st) = rmap (set_ignored i) (percentages st).
Proof.
  unfold percentages. cbn [set_ignored snap_languages].
  by destruct (mapM_r _ _).
Qed.

Lemma get_stats_without_contrib fuel k old :
  consider_forked_repos = false →
  get_stats exclude_repos exclude_langs consider_forked_repos
            (map_pages page_without_contrib graphql) fuel k old
  = rmap (fun r : snapshot * nat => (set_ignored ∅ r.1, r.2))
         (get_stats exclude_repos exclude_langs consider_forked_repos
                    graphql fuel k old).
Proof.
  intros Hflag. unfold get_stats.
  change (reset old) with (set_ignored ∅ (reset old)) at 1.
  rewrite collect_without_contrib by done.
  destruct (collect _ _ _ graphql _ _ _ _ _) as [[st0 k0]| |];
    cbn [bind rmap fst snd]; try done.
  rewrite percentages_set_ignored. by destruct (percentages st0).
Qed.

(** With fork inclusion off, where an identity ends up. *)
Lemma contributed_only_membership name fuel k old st k' :
  consider_forked_repos = false →
  get_stats exclude_repos exclude_langs consider_forked_repos graphql
            fuel k old = Ok (st, k') →
  (name ∈ snap_ignored_repos st
   ↔ name ∈ map nameWithOwner (contrib_sightings graphql fuel k)
     ∧ name ∉ exclude_repos)
  ∧ (name ∈ snap_repos st
     ↔ name ∈ map nameWithOwner (owned_sightings graphql fuel k)
       ∧ name ∉ exclude_repos).
Proof.
  intros Hflag H. apply get_stats_inv in H as (st0 & Hc & Hp).
  apply pages_grow in Hc as ((Hr & _) & Hi).
  apply percentages_keeps in Hp as (_ & _ & _ & -> & -> & _).
  split.
  - rewrite Hi. cbn [reset snap_ignored_repos]. unfold contrib_sightings.
    set_solver.
  - rewrite Hr. cbn [reset snap_repos]. unfold owned_sightings, candidates.
    rewrite Hflag. rewrite elem_of_union, elem_of_list_to_set. split.
    + intros [Hin|Hin]; [|set_solver].
      apply list_elem_of_fmap in Hin as (r & -> & Hin).
      apply first_sightings_sound in Hin as [Hin Hn].
      split; [by apply list_elem_of_fmap_2|set_solver].
    + intros [Hin Hn]. left. apply first_sightings_complete; [done|set_solver].
Qed.

(** *** Each identity once *)

Lemma note_fresh (i : gset string) repo :
  nameWithOwner repo ∉ i → nameWithOwner repo ∉ exclude_repos →
  note i repo = {[ nameWithOwner repo ]} ∪ i.
Proof. intros Hi He. unfold note_ignored. rewrite decide_False; tauto. Qed.

(** C3 (amended). In a completed run, the repository set holds exactly the
    identities, outside the exclusion set, of the nodes the admission loop
    iterated (owned nodes, and contributed-to nodes when fork inclusion is
    on), each once however often it was sighted; stargazers, forks and
    language sizes are the sums over the first sighting of each such
    identity; a further sighting by the admission loop of an identity in
    the repository set changes no state, and a page on which the admission
    loop finds only identities already in the repository set or excluded
    changes neither the repository set nor the totals.  A sighting by the
    contributed-to loop adds the identity to the excluded set, unless that
    set or the exclusion set holds it already, in which case it leaves the
    excluded set as it is; after the run the excluded set holds exactly
    the identities outside the exclusion set that were sighted in
    contributed-to lists with fork inclusion off; and with fork inclusion
    off the contributed-to lists touch nothing else: the run without their
    nodes ends in the same state but for the excluded set. *)
Theorem get_stats_counts_each_identity_once fuel k old st k' :
  get_stats exclude_repos exclude_langs consider_forked_repos graphql
            fuel k old = Ok (st, k') →
  let seen := sightings consider_forked_repos graphql fuel k in
  let firsts := first_sightings exclude_repos seen in
  NoDup (map nameWithOwner firsts)
  ∧ snap_repos st = list_to_set (map nameWithOwner firsts)
  ∧ base.size (snap_repos st) = length firsts
  ∧ (∀ name, name ∈ map nameWithOwner seen → name ∉ exclude_repos →
             name ∈ snap_repos st)
  ∧ snap_stargazers st = spec_total totalCount firsts
  ∧ snap_forks st = spec_total forkCount firsts
  ∧ lang_sizes (snap_languages st)
    = lang_sizes (fold_left (add_language exclude_langs)
                            (flat_map repo_edges firsts) [])
  ∧ (∀ s repo, nameWithOwner repo ∈ snap_repos s → admission s repo = Ok s)
  ∧ (∀ (i : gset string) repo, nameWithOwner repo ∈ i → note i repo = i)
  ∧ (∀ s p s',
       (∀ r, r ∈ cands p → nameWithOwner r ∈ snap_repos s
                           ∨ nameWithOwner r ∈ exclude_repos) →
       process s p = Ok s' →
       snap_repos s' = snap_repos s
       ∧ snap_stargazers s' = snap_stargazers s
       ∧ snap_forks s' = snap_forks s
       ∧ snap_languages s' = snap_languages s
       ∧ snap_repo_language_data s' = snap_repo_language_data s)
  ∧ (∀ (i : gset string) repo,
       nameWithOwner repo ∉ i → nameWithOwner repo ∉ exclude_repos →
       note i repo = {[ nameWithOwner repo ]} ∪ i)
  ∧ (∀ (i : gset string) repo,
       nameWithOwner repo ∈ exclude_repos → note i repo = i)
  ∧ (∀ x, x ∈ snap_ignored_repos st
          ↔ consider_forked_repos = false
            ∧ x ∈ map nameWithOwner (contrib_sightings graphql fuel k)
            ∧ x ∉ exclude_repos)
  ∧ (consider_forked_repos = false →
     get_stats exclude_repos exclude_langs consider_forked_repos
               (map_pages page_without_contrib graphql) fuel k old
     = Ok (set_ignored ∅ st, k')).
Proof.
  intros H. pose proof H as H0. cbv zeta. unfold sightings.
  apply get_stats_inv in H as (st0 & Hc & Hp).
  apply pages_grow in Hc as ((Hr & Hs & Hf & Hl) & Hi).
  apply percentages_keeps in Hp as (_ & Hs' & Hf' & Hr' & Hi' & _ & Hl').
  cbn [reset snap_repos snap_stargazers snap_forks snap_languages]
    in Hr, Hs, Hf, Hl.
  replace (∅ ∪ exclude_repos) with exclude_repos in * by set_solver.
  set (firsts := first_sightings exclude_repos _) in *.
  assert (Hnd : NoDup (map nameWithOwner firsts))
    by apply first_sightings_NoDup.
  assert (Hset : snap_repos st = list_to_set (map nameWithOwner firsts)).
  { rewrite Hr', Hr. set_solver. }
  split; [done|]. split; [done|]. split.
  { rewrite Hset, size_list_to_set by done. by rewrite length_map. }
  split.
  { intros name Hin Hex. rewrite Hset, elem_of_list_to_set.
    by apply first_sightings_complete. }
  split; [lia|]. split; [lia|]. split; [by rewrite Hl', Hl|].
  split; [apply admit_seen|]. split; [apply note_seen|].
  split; [apply process_only_duplicates|].
  split; [apply note_fresh|]. split; [apply note_excluded|].
  split.
  { intros x. rewrite Hi', Hi. cbn [reset snap_ignored_repos].
    unfold contrib_sightings. set_solver. }
  intros Hflag. by rewrite get_stats_without_contrib, H0.
Qed.

(** *** Percentages *)

(** With at least one language and a grand total of zero, the statement
    after the loop divides by zero. *)
Lemma percentages_zero_total st :
  snap_languages st ≠ [] → langs_total (snap_languages st) = 0 →
  percentages st = Raise ZeroDivisionError.
Proof.
  intros Hne Hz. unfold percentages. rewrite Hz.
  destruct (snap_languages st) as [|kv l]; [done|]. reflexivity.
Qed.

(** When the statement after the loop completes, every language's
    percentage is [100 * (size / langs_total)]. *)
Lemma percentages_props st st' :
  percentages st = Ok st' →
  Forall2 (fun kv kv' : string * lang_rec =>
             kv'.1 = kv.1
             ∧ ∃ q p, PyFloat.true_div (size kv.2)
                        (langs_total (snap_languages st)) = Ok q
                      ∧ PyFloat.int_mul 100 q = Ok p
                      ∧ prop kv'.2 = Some p)
          (snap_languages st) (snap_languages st').
Proof.
  intros H. unfold percentages in H.
  apply bind_Ok in H as (langs & Hl & H). injection H as <-. cbn.
  apply mapM_r_Forall2 in Hl. eapply Forall2_impl; [exact Hl|].
  intros kv kv' Hkv. unfold set_prop in Hkv.
  apply bind_Ok in Hkv as (q & Hq & Hkv).
  apply bind_Ok in Hkv as (x & Hx & Hkv). injection Hkv as <-. cbn.
  split; [done|]. by exists q, x.
Qed.

End CollectorFacts.


(** ** Strings *)



(** ** Traces of the gateway *)

Section TraceFacts.
Import Gateway.

Variable primary : nat → string → primary_reply.
Variable secondary : nat → string → secondary_reply.



(** Every call starts with a GET of the path, less its leading slash. *)
Lemma query_rest_loop_head n i path :
  ∃ t, (query_rest_loop primary secondary (S n) i path).1
       = EGet (api_url (strip_slash path)) :: t.
Proof.
  cbn [query_rest_loop]. unfold fallback.
  destruct (primary i _) as [|status [[| |]|]];
    repeat (match goal with
            | |- context [secondary ?i ?u] => destruct (secondary i u)
            | |- context [?a =? ?b] => destruct (a =? b)
            end); cbn [fst]; eauto.
Qed.



(** Every URL a call requests is the path, less leading slashes. *)
Lemma query_rest_loop_requested n : ∀ i path url,
  url ∈ requested (query_rest_loop primary secondary n i path).1 →
  ∃ j, url = api_url (Nat.iter (S j) strip_slash path).
Proof.
  induction n as [|n IH]; intros i path url.
  - cbn. by rewrite elem_of_nil.
  - cbn [query_rest_loop]. specialize (IH (S i) (strip_slash path) url).
    destruct (query_rest_loop primary secondary n (S i) (strip_slash path))
      as [ct cr].
    assert (Hc : url ∈ requested ct →
                 ∃ j, url = api_url (Nat.iter (S j) strip_slash path)).
    { intros H. destruct (IH H) as [j ->]. exists (S j).
      by rewrite <- !Nat.iter_succ_r. }
    assert (H0 : ∃ j, api_url (strip_slash path)
                      = api_url (Nat.iter (S j) strip_slash path))
      by by exists O.
    unfold fallback.
    destruct (primary i _) as [|status [[| |]|]];
      repeat (match goal with
              | |- context [secondary ?i ?u] => destruct (secondary i u)
              | |- context [?a =? ?b] => destruct (a =? b)
              end); cbn [fst snd requested];
      rewrite ?elem_of_cons, ?elem_of_nil; intuition (subst; auto).
Qed.

Lemma query_rest_requested path url :
  url ∈ requested (query_rest primary secondary path).1 →
  ∃ j, url = api_url (Nat.iter (S j) strip_slash path).
Proof. apply query_rest_loop_requested. Qed.

End TraceFacts.

(** From here on the retry loop is used through the lemmas above only. *)
Opaque Gateway.query_rest Lines.fetch.

(** ** The accessors *)

Section StatsFacts.
Import Gateway Cache Collector Stats.

Variable username : string.
Variable exclude_repos : gset string.
Variable exclude_langs : gset string.
Variable consider_forked_repos : bool.
Variable graphql : nat → option string → option string → result (option page).
Variable primary : nat → string → primary_reply.
Variable secondary : nat → string → secondary_reply.
Variable utcnow : nat → string.
Variable fuel : nat.

Abbreviation collector_run :=
  (Collector.get_stats exclude_repos exclude_langs consider_forked_repos
                       graphql fuel).
Abbreviation fetch_stats :=
  (Stats.get_stats exclude_repos exclude_langs consider_forked_repos
                   graphql fuel).
Abbreviation lines_changed_ :=
  (Stats.lines_changed username exclude_repos exclude_langs
                       consider_forked_repos graphql primary secondary
                       utcnow fuel).
Abbreviation views_ :=
  (Stats.views exclude_repos exclude_langs consider_forked_repos graphql
               primary secondary fuel).
Abbreviation repos_ :=
  (Stats.repos exclude_repos exclude_langs consider_forked_repos graphql fuel).
Abbreviation all_repos_ :=
  (Stats.all_repos exclude_repos exclude_langs consider_forked_repos
                   graphql fuel).
Abbreviation lines_run :=
  (Lines.run username primary secondary utcnow).
Abbreviation lines_step :=
  (Lines.step username primary secondary utcnow).
Abbreviation fetch := (Lines.fetch primary secondary).

(** What a completed [get_stats] leaves in the object. *)
Lemma get_stats_obj o o1 :
  fetch_stats o = Ok o1 →
  ∃ st k', collector_run (graph_queries o) (_name o) = Ok (st, k')
    ∧ _repos o1 = Some (snap_repos st)
    ∧ _ignored_repos o1 = Some (snap_ignored_repos st)
    ∧ _stargazers o1 = Some (snap_stargazers st)
    ∧ _forks o1 = Some (snap_forks st)
    ∧ _languages o1 = Some (snap_languages st)
    ∧ _repo_language_data o1 = snap_repo_language_data st
    ∧ _lines_changed o1 = _lines_changed o ∧ _views o1 = _views o
    ∧ graph_queries o1 = k' ∧ fetches o1 = S (fetches o)
    ∧ clock o1 = clock o ∧ cache_file o1 = cache_file o
    ∧ output o1 = output o.
Proof.
  intros H. unfold Stats.get_stats in H.
  apply bind_Ok in H as ([st k'] & Hc & H). injection H as <-.
  exists st, k'. by repeat split.
Qed.

Lemma all_repos_after o o1 st k' :
  fetch_stats o = Ok o1 →
  collector_run (graph_queries o) (_name o) = Ok (st, k') →
  all_repos_ o1 = Ok (snap_repos st ∪ snap_ignored_repos st, o1)
  ∧ repos_ o1 = Ok (snap_repos st, o1).
Proof.
  intros H Hc. apply get_stats_obj in H as (st' & k'' & Hc' & Hr & Hi & _).
  rewrite Hc in Hc'. injection Hc' as <- <-.
  unfold Stats.all_repos, Stats.repos. by rewrite Hr, Hi.
Qed.

(** What a completed first call of [lines_changed] did. *)
Lemma lines_changed_inv o v o' :
  _lines_changed o = None → lines_changed_ o = Ok (v, o') →
  ∃ cache o1 st k' final,
    _load_cache (cache_file o) = Ok cache
    ∧ fetch_stats o = Ok o1
    ∧ collector_run (graph_queries o) (_name o) = Ok (st, k')
    ∧ lines_run (Cache.repositories cache) (snap_repo_language_data st)
                (elements (snap_repos st ∪ snap_ignored_repos st))
                (clock o) (output o) = Ok final
    ∧ v = (Lines.total_additions final, Lines.total_deletions final)
    ∧ cache_file o'
      = Json {| Cache.repositories := Lines.updated_cache final;
                other_members := other_members cache |}
    ∧ output o' = Lines.trace final
    ∧ _repos o' = Some (snap_repos st)
    ∧ _ignored_repos o' = Some (snap_ignored_repos st)
    ∧ _repo_language_data o' = snap_repo_language_data st
    ∧ fetches o' = S (fetches o).
Proof.
  intros Hnone H. unfold Stats.lines_changed in H. rewrite Hnone in H.
  apply bind_Ok in H as (cache & Hload & H).
  apply bind_Ok in H as (o1 & Hg & H).
  destruct (get_stats_obj _ _ Hg)
    as (st & k' & Hc & Hr & Hi & _ & _ & _ & Hd & _ & _ & _ & Hf & Hck & _ & Ho).
  destruct (all_repos_after _ _ _ _ Hg Hc) as [Ha _].
  fold all_repos_ in H. rewrite Ha in H. cbn [bind fst snd] in H.
  apply bind_Ok in H as (final & Hrun & H). injection H as <- <-.
  rewrite Hd, Hck, Ho in Hrun.
  exists cache, o1, st, k', final. cbn. by repeat split.
Qed.

(** *** What the loops request *)




(** The views loop requests the traffic of the repositories it iterates
    and nothing else. *)
Lemma views_path_stripped repo j :
  Nat.iter (S j) strip_slash (views_path repo)
  = "repos/" +:+ repo +:+ "/traffic/views".
Proof. induction j as [|j IH]; [done|]. rewrite Nat.iter_succ, IH. done. Qed.




(** *** The cache file *)

Lemma get_stats_set_file f o :
  fetch_stats (set_cache_file f o) = rmap (set_cache_file f) (fetch_stats o).
Proof.
  unfold Stats.get_stats. cbn [set_cache_file graph_queries _name].
  by destruct (collector_run (graph_queries o) (_name o)).
Qed.

(** A first call of [lines_changed] depends on the cache file through
    what [_load_cache] makes of it only. *)
Lemma lines_changed_same_load f1 f2 o :
  _load_cache f1 = _load_cache f2 → _lines_changed o = None →
  lines_changed_ (set_cache_file f1 o) = lines_changed_ (set_cache_file f2 o).
Proof.
  intros Hl Hn. unfold Stats.lines_changed.
  cbn [set_cache_file _lines_changed cache_file]. rewrite Hn, Hl.
  destruct (_load_cache f2) as [cache| |]; cbn [bind]; try done.
  fold fetch_stats. rewrite !get_stats_set_file.
  destruct (fetch_stats o) as [o1| |] eqn:Hg; cbn [rmap bind]; try done.
  destruct (get_stats_obj _ _ Hg) as (st & k' & _ & Hr & Hi & _).
  unfold Stats.all_repos. cbn [set_cache_file _repos _ignored_repos].
  rewrite Hr, Hi. reflexivity.
Qed.

(** C1. In a completed first lines-changed run, take a repository of the
    full repository set whose contributor-statistics fetch did not yield a
    list.  If the loaded cache has an entry for it, its iteration adds
    exactly that entry's additions and deletions to the running totals and
    the cache written at the end holds that very entry; if the loaded cache
    has none, its iteration leaves totals and cache as they were and the
    written cache has no entry for it. *)
Theorem lines_changed_cache_fallback o v o' r i repo b :
  _lines_changed o = None → lines_changed_ o = Ok (v, o') →
  _repos o' = Some r → _ignored_repos o' = Some i → repo ∈ r ∪ i →
  (fetch repo).2 = Ok b → Lines.is_list b = false →
  ∃ cache cache' before after,
    _load_cache (cache_file o) = Ok cache
    ∧ cache_file o' = Json cache'
    ∧ Lines.visit username primary secondary utcnow
        (Cache.repositories cache) (_repo_language_data o')
        (elements (r ∪ i)) (clock o) (output o) repo before after
    ∧ match Cache.repositories cache !! repo with
      | Some e =>
          Lines.total_additions after
          = Lines.total_additions before + additions e
          ∧ Lines.total_deletions after
            = Lines.total_deletions before + deletions e
          ∧ Cache.repositories cache' !! repo = Some e
      | None =>
          Lines.total_additions after = Lines.total_additions before
          ∧ Lines.total_deletions after = Lines.total_deletions before
          ∧ Lines.updated_cache after = Lines.updated_cache before
          ∧ Cache.repositories cache' !! repo = None
      end.
Proof.
  intros Hn H Hr Hi Hin Hf Hb.
  destruct (lines_changed_inv _ _ _ Hn H)
    as (cache & o1 & st & k' & final & Hl & _ & _ & Hrun & _ & Hfile & _
        & Hr' & Hi' & Hd & _).
  rewrite Hr in Hr'. rewrite Hi in Hi'.
  injection Hr' as ->. injection Hi' as ->. rewrite <- Hd in Hrun.
  destruct (run_cache_fallback _ _ _ _ _ _ _ _ _ repo b final
              (NoDup_elements _) (proj2 (elem_of_elements _ _) Hin)
              Hf Hb Hrun) as (before & after & Hv & Hm).
  eexists cache, _, before, after.
  split; [exact Hl|]. split; [exact Hfile|]. split; [exact Hv|exact Hm].
Qed.

(** C2. In a completed first lines-changed run, take a repository of the
    full repository set whose fetch yielded a list.  Its additions and
    deletions are the sums of [a] and [d] over the weeks of the entries
    whose author login is the target account (0 when none matches); its
    iteration adds them to the running totals; and the cache written at
    the end holds for it an entry made only of these sums, of the clock
    reading taken in that iteration suffixed with Z, and of a breakdown
    that is, language by language, the truncated product of the sums with
    the language's share, or, when the repository has no share record, the
    single language Unknown with the full sums. *)
Theorem lines_changed_cache_overwrite o v o' r i repo items :
  _lines_changed o = None → lines_changed_ o = Ok (v, o') →
  _repos o' = Some r → _ignored_repos o' = Some i → repo ∈ r ∪ i →
  (fetch repo).2 = Ok (BList items) →
  let a := Lines.spec_sum week_a (Lines.spec_target_weeks username items) in
  let d := Lines.spec_sum week_d (Lines.spec_target_weeks username items) in
  Lines.repo_totals username items = (a, d)
  ∧ ∃ cache cache' before after entry langs,
      _load_cache (cache_file o) = Ok cache
      ∧ cache_file o' = Json cache'
      ∧ Lines.visit username primary secondary utcnow
          (Cache.repositories cache) (_repo_language_data o')
          (elements (r ∪ i)) (clock o) (output o) repo before after
      ∧ Lines.total_additions after = Lines.total_additions before + a
      ∧ Lines.total_deletions after = Lines.total_deletions before + d
      ∧ Cache.repositories cache' !! repo = Some entry
      ∧ entry = {| additions := a; deletions := d;
                   last_updated := utcnow (Lines.clock_reads before) +:+ "Z";
                   Cache.languages := Some langs |}
      ∧ (clock o ≤ Lines.clock_reads before)%nat
      ∧ match _repo_language_data o' !! repo with
        | Some props =>
            Forall2 (fun (kv : string * PyFloat.float)
                         (lc : string * lang_contrib) =>
                       lc.1 = kv.1
                       ∧ Lines.spec_truncated_product a kv.2
                           (lang_additions lc.2)
                       ∧ Lines.spec_truncated_product d kv.2
                           (lang_deletions lc.2))
                    props langs
        | None =>
            langs = [("Unknown", {| lang_additions := a;
                                    lang_deletions := d |})]
        end.
Proof.
  intros Hn H Hr Hi Hin Hf.
  destruct (lines_changed_inv _ _ _ Hn H)
    as (cache & o1 & st & k' & final & Hl & _ & _ & Hrun & _ & Hfile & _
        & Hr' & Hi' & Hd & _).
  rewrite Hr in Hr'. rewrite Hi in Hi'.
  injection Hr' as ->. injection Hi' as ->. rewrite <- Hd in Hrun.
  destruct (run_cache_overwrite _ _ _ _ _ _ _ _ _ repo items final
              (NoDup_elements _) (proj2 (elem_of_elements _ _) Hin)
              Hf Hrun)
    as (Ht & before & after & entry & langs & Hv & Ha & Hdl & Hc & He & Hk
        & Hm).
  split; [exact Ht|].
  eexists cache, _, before, after, entry, langs.
  split; [exact Hl|]. split; [exact Hfile|]. split; [exact Hv|].
  split; [exact Ha|]. split; [exact Hdl|]. split; [exact Hc|].
  split; [exact He|]. split; [exact Hk|exact Hm].
Qed.

(** C9. The cache a completed lines-changed run writes has every key of
    the cache it loaded: under such a key it holds either the loaded entry
    itself or, when the fetch for that repository yielded a list, a fresh
    one; a key that is not a repository of the run keeps its entry. *)
Theorem lines_changed_keeps_every_cache_key o v o' :
  _lines_changed o = None → lines_changed_ o = Ok (v, o') →
  ∃ cache cache',
    _load_cache (cache_file o) = Ok cache
    ∧ cache_file o' = Json cache'
    ∧ ∀ k e, Cache.repositories cache !! k = Some e →
        is_Some (Cache.repositories cache' !! k)
        ∧ (Cache.repositories cache' !! k = Some e
           ∨ ∃ items, (fetch k).2 = Ok (BList items))
        ∧ (∀ r i, _repos o' = Some r → _ignored_repos o' = Some i →
                  k ∉ r ∪ i → Cache.repositories cache' !! k = Some e).
Proof.
  intros Hn H.
  destruct (lines_changed_inv _ _ _ Hn H)
    as (cache & o1 & st & k' & final & Hl & _ & _ & Hrun & _ & Hf & _ & Hr
        & Hi & _).
  eexists cache, _. split; [done|]. split; [exact Hf|].
  intros k e He. cbn [Cache.repositories].
  destruct (run_keeps_entries _ _ _ _ _ _ _ _ _ _ k e
              (NoDup_elements _) Hrun He) as [Hs Hd].
  split; [done|]. split; [naive_solver|].
  intros r i Hr' Hi' Hk. rewrite Hr in Hr'. rewrite Hi in Hi'.
  injection Hr' as <-. injection Hi' as <-.
  destruct Hd as [|[Hin _]]; [done|]. by apply elem_of_elements in Hin.
Qed.

(** C10. Loading a missing cache file, or one whose contents are not
    JSON, returns the empty store without raising, and a first
    lines-changed run then goes exactly as it would on a file holding the
    empty store, in which no repository has an entry. *)
Theorem load_cache_defaults_to_empty_store f :
  f = Missing ∨ (∃ text, f = NotJson text) →
  _load_cache f = Ok empty_store
  ∧ (∀ repo, Cache.repositories empty_store !! repo = None)
  ∧ ∀ o, _lines_changed o = None →
         lines_changed_ (set_cache_file f o)
         = lines_changed_ (set_cache_file (Json empty_store) o).
Proof.
  intros Hf.
  assert (Hl : _load_cache f = Ok empty_store)
    by (destruct Hf as [->|[text ->]]; reflexivity).
  split; [done|]. split; [intros repo; apply lookup_empty|].
  intros o Hn. by apply lines_changed_same_load.
Qed.

(** *** Memoisation *)

(** An accessor that finds its field set returns it and touches
    nothing. *)
Lemma guarded_accessors_read_only o n s f l r i :
  _name o = Some n → _stargazers o = Some s → _forks o = Some f →
  _languages o = Some l → _repos o = Some r → _ignored_repos o = Some i →
  Stats.name exclude_repos exclude_langs consider_forked_repos graphql fuel o
    = Ok (n, o)
  ∧ Stats.stargazers exclude_repos exclude_langs consider_forked_repos
      graphql fuel o = Ok (s, o)
  ∧ Stats.forks exclude_repos exclude_langs consider_forked_repos
      graphql fuel o = Ok (f, o)
  ∧ Stats.languages exclude_repos exclude_langs consider_forked_repos
      graphql fuel o = Ok (l, o)
  ∧ repos_ o = Ok (r, o)
  ∧ all_repos_ o = Ok (r ∪ i, o).
Proof.
  intros Hn Hs Hf Hl Hr Hi.
  unfold Stats.name, Stats.stargazers, Stats.forks, Stats.languages,
    Stats.repos, Stats.all_repos.
  by rewrite Hn, Hs, Hf, Hl, Hr, Hi.
Qed.

(** A first call of [lines_changed] runs [get_stats] whether or not the
    snapshot is there. *)
Lemma lines_changed_fetches o v o' :
  _lines_changed o = None → lines_changed_ o = Ok (v, o') →
  fetches o' = S (fetches o).
Proof.
  intros Hn H.
  by destruct (lines_changed_inv _ _ _ Hn H)
    as (? & ? & ? & ? & ? & _ & _ & _ & _ & _ & _ & _ & _ & _ & _ & ?).
Qed.

(** *** Owned and contributed-to repositories *)


End StatsFacts.

(** ** The scenario, checked *)

(** A decidable closed proposition, settled by evaluating its decision
    procedure. *)
Ltac decide_by_computation :=
  apply (bool_decide_unpack _); vm_compute; exact I.

Section DemoFacts.
Import Gateway Cache Collector Stats.

(** C4. The collector on an account whose only admitted language has
    cumulative size 0: the percentage step divides by zero and the run
    ends on that exception instead of reporting 0%. *)
Theorem get_stats_divides_by_zero :
  Collector.get_stats ∅ ∅ false Demo.graphql_empty_lang Demo.fuel 0 None
  = Raise ZeroDivisionError.
Proof. vm_compute. reflexivity. Qed.

(** C8. In the scenario, the first accessor completes one run of
    [get_stats]; a following first call of [lines_changed] completes a
    second one and sends the overview queries again, although the
    snapshot is there. *)
Theorem lines_changed_runs_get_stats_again :
  fetches_after (Demo.languages_proportional Demo.fresh) = Some 1%nat
  ∧ fetches_after (let* r := Demo.languages_proportional Demo.fresh in
                   Demo.lines_changed r.2) = Some 2%nat
  ∧ rmap (fun r => graph_queries r.2)
         (Demo.languages_proportional Demo.fresh) = Ok 2%nat
  ∧ rmap (fun r => graph_queries r.2)
         (let* r := Demo.languages_proportional Demo.fresh in
          Demo.lines_changed r.2) = Ok 4%nat.
Proof. repeat split; vm_compute; reflexivity. Qed.

(** C3, as first stated, fails.  Fork inclusion off: [other/c] is
    sighted on both pages of the scenario, in the contributed-to lists,
    and [octocat/secret], excluded by configuration, is sighted as owned
    on the first page and as contributed to on the second; neither ends
    up in the repository set and neither is counted, the stargazers being
    those of [octocat/a] and [octocat/b] alone.  A later sighting can
    change state as well: after a page that lists [octocat/a] as owned, a
    page whose only node is [octocat/a] again, in the contributed-to
    list, adds it to the excluded set. *)
Lemma seen_twice_yet_not_a_member :
  ∃ st k' st1 st2,
    Collector.get_stats Demo.exclude_repos Demo.exclude_langs false
      Demo.graphql Demo.fuel 0 None = Ok (st, k')
    ∧ pages_read Demo.graphql Demo.fuel 0 None None
      = [Demo.page1; Demo.page2]
    ∧ conn_nodes (Collector.repositories Demo.page1)
      = [Demo.repo_a; Demo.repo_secret]
    ∧ conn_nodes (repositoriesContributedTo Demo.page1) = [Demo.repo_c]
    ∧ conn_nodes (repositoriesContributedTo Demo.page2)
      = [Demo.repo_c; Demo.repo_secret]
    ∧ snap_repos st = {[ "octocat/a"; "octocat/b" ]}
    ∧ ("other/c" ∉ snap_repos st)
    ∧ ("octocat/secret" ∉ snap_repos st)
    ∧ totalCount Demo.repo_c = Some 100
    ∧ totalCount Demo.repo_secret = Some 7
    ∧ snap_stargazers st = 7
    ∧ process_page ∅ ∅ false (reset None) Demo.page_owned_a = Ok st1
    ∧ process_page ∅ ∅ false st1 Demo.page_contrib_a = Ok st2
    ∧ (∀ r, r ∈ conn_nodes (Collector.repositories Demo.page_contrib_a)
                ++ conn_nodes (repositoriesContributedTo Demo.page_contrib_a) →
            nameWithOwner r ∈ snap_repos st1)
    ∧ snap_ignored_repos st1 = ∅
    ∧ snap_ignored_repos st2 = {[ "octocat/a" ]}.
Proof.
  eexists _, _, _, _. split; [vm_compute; reflexivity|].
  do 4 (split; [vm_compute; reflexivity|]).
  split; [vm_compute; reflexivity|].
  split; [decide_by_computation|]. split; [decide_by_computation|].
  do 3 (split; [vm_compute; reflexivity|]).
  split; [vm_compute; reflexivity|]. split; [vm_compute; reflexivity|].
  split; [|split; vm_compute; reflexivity].
  intros r Hr. cbn in Hr. apply list_elem_of_singleton in Hr as ->.
  decide_by_computation.
Qed.

(** The theorems above, at the scenario. *)

Lemma query_rest_gives_up_after_60_witness :
  ∃ t, Gateway.query_rest Demo.never_ready_primary Demo.never_ready_secondary
         "/repos/octo/cat/stats/contributors" = (t, Ok empty_dict)
       ∧ Gateway.attempts t = 60%nat
       ∧ Gateway.sleeps t = repeat 2 60
       ∧ last t = Some (Gateway.EPrint Gateway.msg_give_up).
Proof.
  apply query_rest_gives_up_after_60.
  intros i _. unfold Gateway.saw_202, Demo.never_ready_primary.
  destruct (Nat.even i); reflexivity.
Defined.

Lemma lines_changed_cache_fallback_witness :
  ∃ v o' cache',
    Demo.lines_changed Demo.fresh = Ok (v, o')
    ∧ v = (18, 3)
    ∧ cache_file o' = Json cache'
    ∧ Cache.repositories cache' !! "octocat/a" = Some (Demo.entry 10 2)
    ∧ Cache.repositories cache' !! "other/c" = None.
Proof.
  destruct (Demo.lines_changed Demo.fresh) as [[v o']| |] eqn:E;
    [|vm_compute in E; discriminate..].
  pose proof E as E0. vm_compute in E0. injection E0 as Hv Ho.
  destruct (lines_changed_cache_fallback
              Demo.username Demo.exclude_repos Demo.exclude_langs false
              Demo.graphql Demo.primary Demo.secondary Demo.utcnow Demo.fuel
              Demo.fresh v o' {[ "octocat/a"; "octocat/b" ]} {[ "other/c" ]}
              "octocat/a" empty_dict)
    as (cache & cache' & before & after & Hl & Hf & _ & Ha);
    [reflexivity|exact E|rewrite <- Ho; vm_compute; reflexivity..
    |decide_by_computation|vm_compute; reflexivity|reflexivity|].
  destruct (lines_changed_cache_fallback
              Demo.username Demo.exclude_repos Demo.exclude_langs false
              Demo.graphql Demo.primary Demo.secondary Demo.utcnow Demo.fuel
              Demo.fresh v o' {[ "octocat/a"; "octocat/b" ]} {[ "other/c" ]}
              "other/c" empty_dict)
    as (cache2 & cache2' & before2 & after2 & Hl2 & Hf2 & _ & Hc);
    [reflexivity|exact E|rewrite <- Ho; vm_compute; reflexivity..
    |decide_by_computation|vm_compute; reflexivity|reflexivity|].
  injection Hl as <-. injection Hl2 as <-.
  rewrite Hf in Hf2. injection Hf2 as <-.
  exists v, o', cache'. split; [reflexivity|]. split; [by rewrite Hv|].
  split; [exact Hf|].
  split; [exact (proj2 (proj2 Ha))|exact (proj2 (proj2 (proj2 Hc)))].
Defined.

Lemma lines_changed_cache_overwrite_witness :
  ∃ v o' cache' entry,
    Stats.lines_changed Demo.username Demo.exclude_repos Demo.exclude_langs
      false Demo.graphql Cases.primary_with_a Demo.secondary Demo.utcnow
      Demo.fuel Demo.fresh = Ok (v, o')
    ∧ v = (108, 51)
    ∧ cache_file o' = Json cache'
    ∧ Cache.repositories cache' !! "octocat/a" = Some entry
    ∧ entry = {| additions := 100; deletions := 50;
                 last_updated := "2026-11-04T12:00:00.000001Z";
                 Cache.languages :=
                   Some [("Python", {| lang_additions := 66;
                                       lang_deletions := 33 |});
                         ("C", {| lang_additions := 33;
                                  lang_deletions := 16 |})] |}.
Proof.
  destruct (Stats.lines_changed _ _ _ _ _ _ _ _ _ _) as [[v o']| |] eqn:E;
    [|vm_compute in E; discriminate..].
  pose proof E as E0. vm_compute in E0. injection E0 as Hv Ho.
  destruct (lines_changed_cache_overwrite
              Demo.username Demo.exclude_repos Demo.exclude_langs false
              Demo.graphql Cases.primary_with_a Demo.secondary Demo.utcnow
              Demo.fuel
              Demo.fresh v o' {[ "octocat/a"; "octocat/b" ]} {[ "other/c" ]}
              "octocat/a"
              match Cases.stats_of_a with BList l => l | _ => [] end)
    as (_ & cache & cache' & before & after & entry & langs & _ & Hf & _ & _
        & _ & Hc & _ & _ & _);
    [reflexivity|exact E|rewrite <- Ho; vm_compute; reflexivity..
    |decide_by_computation|vm_compute; reflexivity|].
  exists v, o', cache', entry. split; [reflexivity|].
  split; [by rewrite <- Hv|]. split; [exact Hf|].
  split; [exact Hc|].
  rewrite <- Ho in Hf. vm_compute in Hf. injection Hf as <-.
  vm_compute in Hc. injection Hc as <-. reflexivity.
Defined.
Lemma get_stats_counts_each_identity_once_witness :
  ∃ st k',
    Collector.get_stats Demo.exclude_repos Demo.exclude_langs false
                        Demo.graphql Demo.fuel 0 None = Ok (st, k')
    ∧ base.size (snap_repos st) = 2%nat
    ∧ snap_stargazers st = 7
    ∧ snap_forks st = 1
    ∧ lang_sizes (snap_languages st) = [("Python", 500, 2); ("C", 100, 1)]
    ∧ ("other/c" ∈ snap_ignored_repos st)
    ∧ ("octocat/a" ∉ snap_ignored_repos st)
    ∧ ("octocat/secret" ∉ snap_ignored_repos st).
Proof.
  destruct (Collector.get_stats _ _ _ _ _ _ _) as [[st k']| |] eqn:E;
    [|vm_compute in E; discriminate..].
  destruct (get_stats_counts_each_identity_once _ _ _ _ _ _ _ _ _ E)
    as (_ & _ & Hsize & _ & Hs & Hf & Hl & _ & _ & _ & _ & _ & Hi & _).
  exists st, k'. split; [reflexivity|].
  rewrite Hsize, Hs, Hf, Hl.
  do 4 (split; [vm_compute; reflexivity|]).
  split; [|split].
  - apply Hi. split; [reflexivity|]. split; decide_by_computation.
  - intros Hin. apply Hi in Hin as (_ & Hin & _). revert Hin.
    decide_by_computation.
  - intros Hin. apply Hi in Hin as (_ & _ & Hin). revert Hin.
    decide_by_computation.
Defined.

Lemma excluded_repository_counts_nowhere_witness :
  Collector.get_stats Demo.exclude_repos Demo.exclude_langs false
    (map_pages (page_without "octocat/secret") Demo.graphql) Demo.fuel 0 None
  = Collector.get_stats Demo.exclude_repos Demo.exclude_langs false
      Demo.graphql Demo.fuel 0 None
  ∧ ∀ st k',
      Collector.get_stats Demo.exclude_repos Demo.exclude_langs false
        Demo.graphql Demo.fuel 0 None = Ok (st, k') →
      ("octocat/secret" ∉ snap_repos st)
      ∧ ("octocat/secret" ∉ snap_ignored_repos st).
Proof.
  apply excluded_repository_counts_nowhere. decide_by_computation.
Defined.


Lemma lines_changed_keeps_every_cache_key_witness :
  ∃ v o' cache',
    Demo.lines_changed Demo.fresh = Ok (v, o')
    ∧ cache_file o' = Json cache'
    ∧ Cache.repositories cache' !! "gone/old" = Some (Demo.entry 7 7)
    ∧ is_Some (Cache.repositories cache' !! "octocat/b").
Proof.
  destruct (Demo.lines_changed Demo.fresh) as [[v o']| |] eqn:E;
    [|vm_compute in E; discriminate..].
  destruct (lines_changed_keeps_every_cache_key
              Demo.username Demo.exclude_repos Demo.exclude_langs false
              Demo.graphql Demo.primary Demo.secondary Demo.utcnow Demo.fuel
              Demo.fresh v o' eq_refl E)
    as (cache & cache' & Hl & Hf & H).
  injection Hl as <-. exists v, o', cache'.
  split; [reflexivity|]. split; [exact Hf|].
  destruct (H "gone/old" (Demo.entry 7 7)) as (_ & [Hk|[items Hi]] & _);
    [vm_compute; reflexivity| |vm_compute in Hi; discriminate].
  destruct (H "octocat/b" (Demo.entry 1 1)) as (Hs & _);
    [vm_compute; reflexivity|]. split; [exact Hk|exact Hs].
Defined.

Lemma load_cache_defaults_to_empty_store_witness :
  _load_cache Missing = Ok empty_store
  ∧ (∀ repo, Cache.repositories empty_store !! repo = None)
  ∧ ∀ o, _lines_changed o = None →
         Demo.lines_changed (set_cache_file Missing o)
         = Demo.lines_changed (set_cache_file (Json empty_store) o).
Proof.
  apply (load_cache_defaults_to_empty_store
           Demo.username Demo.exclude_repos Demo.exclude_langs false
           Demo.graphql Demo.primary Demo.secondary Demo.utcnow Demo.fuel
           Missing).
  left. reflexivity.
Defined.

End DemoFacts.

(** * Further properties *)

(** ** The gateway, whatever the network does *)

Transparent Gateway.query_rest Lines.fetch.

Section GatewayBounds.
Import Gateway Traces.

Variable primary : nat → string → primary_reply.
Variable secondary : nat → string → secondary_reply.

Abbreviation loop := (query_rest_loop primary secondary).

(** Case analysis of one iteration of the retry loop. *)
Ltac one_attempt i path :=
  cbn [query_rest_loop]; unfold fallback;
  destruct (primary i (api_url (strip_slash path))) as [|? [[| |]|]];
  repeat (match goal with
          | |- context [secondary ?j ?u] => destruct (secondary j u)
          | |- context [?a =? ?b] => destruct (a =? b) eqn:?
          end).

Lemma loop_bounds n : ∀ i path,
  let t := (loop n i path).1 in
  (attempts t ≤ n)%nat
  ∧ (fallback_attempts t ≤ attempts t)%nat
  ∧ (length (sleeps t) ≤ attempts t)%nat
  ∧ Forall (fun s => s = 2) (sleeps t).
Proof.
  induction n as [|n IH]; intros i path.
  - cbn. repeat split; try lia. constructor.
  - specialize (IH (S i) (strip_slash path)). cbv zeta in IH |- *.
    destruct IH as (Ha & Hf & Hs & Hall).
    one_attempt i path;
      destruct (query_rest_loop primary secondary n (S i) (strip_slash path))
        as [ct cr];
      cbn [fst snd attempts fallback_attempts sleeps length] in *;
      repeat split; try lia; repeat constructor; auto.
Qed.

(** X1. Whatever the two clients answer, one call of [query_rest] makes
    between 1 and 60 GETs through the primary client, no more through the
    fallback client than through the primary one, pauses at most once per
    attempt, and every pause lasts two seconds. *)
Theorem query_rest_is_bounded path :
  let t := (query_rest primary secondary path).1 in
  (1 ≤ attempts t ≤ 60)%nat
  ∧ (fallback_attempts t ≤ attempts t)%nat
  ∧ (length (sleeps t) ≤ attempts t)%nat
  ∧ Forall (fun s => s = 2) (sleeps t).
Proof.
  cbv zeta. destruct (loop_bounds 60 O path) as (Ha & Hf & Hs & Hall).
  destruct (query_rest_loop_head primary secondary 59 O path) as [t Ht].
  unfold query_rest. cbv zeta in Ha, Hf, Hs, Hall.
  repeat split; try assumption. rewrite Ht. cbn [attempts]. lia.
Qed.

Lemma loop_primary_works n : ∀ i path,
  (∀ j url, ∃ status b, primary j url = PReply status (Some b)) →
  ∃ b, (loop n i path).2 = Ok b ∧ b ≠ BNull
       ∧ fallback_attempts (loop n i path).1 = O.
Proof.
  induction n as [|n IH]; intros i path H.
  - exists empty_dict. by repeat split.
  - destruct (IH (S i) (strip_slash path) H) as (b & Hb & Hn & Hf).
    destruct (H i (api_url (strip_slash path))) as (status & b0 & Hp).
    cbn [query_rest_loop]. rewrite Hp.
    destruct (status =? 202); [by exists b|].
    destruct b0 as [|items|vs]; [by exists b|by eexists..].
Qed.

(** X2. If the primary client never fails (it always answers, and its
    answer always decodes), a call never raises, never uses the fallback
    client and never returns None. *)
Theorem query_rest_without_primary_failure path :
  (∀ j url, ∃ status b, primary j url = PReply status (Some b)) →
  ∃ b, (query_rest primary secondary path).2 = Ok b ∧ b ≠ BNull
       ∧ fallback_attempts (query_rest primary secondary path).1 = O.
Proof. unfold query_rest. apply loop_primary_works. Qed.

Lemma loop_null_from_fallback n : ∀ i path,
  (loop n i path).2 = Ok BNull →
  ∃ url, last (loop n i path).1 = Some (EGetFallback url).
Proof.
  induction n as [|n IH]; intros i path; [done|].
  specialize (IH (S i) (strip_slash path)).
  assert (Hlast : ∀ (e x : event) l, last l = Some x → last (e :: l) = Some x).
  { intros e x l Hl. by destruct l. }
  one_attempt i path; cbn [fst snd]; intros H;
    try discriminate; try (injection H as ->);
    try (by eexists);
    destruct (IH H) as [url Hu]; exists url; by repeat apply Hlast.
Qed.

(** X3. A null body from the primary client is retried, one from the
    fallback client is returned: when a call returns None, its last act
    was a GET through the fallback client. *)
Theorem query_rest_none_comes_from_fallback path :
  (query_rest primary secondary path).2 = Ok BNull →
  ∃ url, last (query_rest primary secondary path).1
         = Some (EGetFallback url).
Proof. unfold query_rest. apply loop_null_from_fallback. Qed.

Lemma loop_raises n : ∀ i path e,
  (loop n i path).2 = Raise e →
  (e = TransportError ∨ e = ValueError)
  ∧ ∃ url, last (loop n i path).1 = Some (EGetFallback url).
Proof.
  induction n as [|n IH]; intros i path e; [done|].
  specialize (IH (S i) (strip_slash path) e).
  assert (Hlast : ∀ (e x : event) l, last l = Some x → last (e :: l) = Some x).
  { intros e0 x l Hl. by destruct l. }
  one_attempt i path; cbn [fst snd]; intros H;
    try discriminate;
    try (injection H as <-; split; [tauto|by eexists]);
    try (match type of H with
         | context [match ?j with Some _ => _ | None => _ end] =>
             destruct j; [discriminate|]
         end; injection H as <-; split; [tauto|by eexists]);
    destruct (IH H) as (He & url & Hu); (split; [exact He|]);
    exists url; by repeat apply Hlast.
Qed.

(** X4. The only exceptions a call raises are those of the fallback
    client, a failed transport or a 200 answer whose body does not
    decode: when a call raises, its last act was a GET through that
    client. *)
Theorem query_rest_raises_from_fallback_only path e :
  (query_rest primary secondary path).2 = Raise e →
  (e = TransportError ∨ e = ValueError)
  ∧ (∃ url, last (query_rest primary secondary path).1
            = Some (EGetFallback url)).
Proof. unfold query_rest. apply loop_raises. Qed.

Lemma loop_inconclusive n : ∀ i path,
  (∀ j, (j < n)%nat →
        inconclusive primary secondary (i + j) (url_at path j) = true) →
  (loop n i path).2 = Ok empty_dict
  ∧ attempts (loop n i path).1 = n
  ∧ sleeps (loop n i path).1 = []
  ∧ last (loop n i path).1 = Some (EPrint msg_give_up).
Proof.
  induction n as [|n IH]; intros i path H; [done|].
  assert (H0 := H O ltac:(lia)).
  assert (Hn : ∀ j, (j < n)%nat →
            inconclusive primary secondary (S i + j)
              (url_at (strip_slash path) j) = true).
  { intros j Hj. rewrite url_at_shift.
    replace (S i + j)%nat with (i + S j)%nat by lia. apply H. lia. }
  destruct (IH (S i) (strip_slash path) Hn) as (Hr & Ha & Hs & Hl).
  rewrite Nat.add_0_r in H0. unfold url_at in H0.
  change (Nat.iter 1 strip_slash path) with (strip_slash path) in H0.
  unfold inconclusive in H0.
  assert (Hlast : ∀ (e x : event) l, last l = Some x → last (e :: l) = Some x).
  { intros e x l Hx. by destruct l. }
  revert H0. one_attempt i path; cbn [fst snd attempts sleeps negb andb];
    intros H0; try discriminate;
    rewrite ?Ha, ?Hs; repeat split; by repeat apply Hlast.
Qed.

(** X5. If every attempt ends without a result and without a 202 (a
    null body, or a failed primary client and a fallback status other
    than 202 and 200), the call makes its 60 attempts without any pause
    and returns the empty mapping after the too-many-202s diagnostic. *)
Theorem query_rest_retries_without_pause path :
  (∀ j, (j < 60)%nat →
        inconclusive primary secondary j (url_at path j) = true) →
  (query_rest primary secondary path).2 = Ok empty_dict
  ∧ attempts (query_rest primary secondary path).1 = 60%nat
  ∧ sleeps (query_rest primary secondary path).1 = []
  ∧ last (query_rest primary secondary path).1 = Some (EPrint msg_give_up).
Proof. unfold query_rest. apply (loop_inconclusive 60 O path). Qed.

Lemma fetch_requested repo url :
  url ∈ requested (Lines.fetch primary secondary repo).1 →
  ∃ j, url = api_url (Nat.iter (S j) strip_slash
                        (Lines.contributors_path repo)).
Proof.
  exact (query_rest_requested primary secondary
           (Lines.contributors_path repo) url).
Qed.

Lemma contributors_path_stripped repo j :
  Nat.iter (S j) strip_slash (Lines.contributors_path repo)
  = "repos/" +:+ repo +:+ "/stats/contributors".
Proof. induction j as [|j IH]; [done|]. rewrite Nat.iter_succ, IH. done. Qed.

(** X6. Every GET of a contributor-statistics fetch, through either
    client and at every attempt, goes to
    [https://api.github.com/repos/<repo>/stats/contributors], and every
    GET of a views fetch to [.../repos/<repo>/traffic/views]. *)
Theorem fetches_request_one_url repo :
  Forall (fun url => url = api_url ("repos/" +:+ repo
                                    +:+ "/stats/contributors"))
         (requested (Lines.fetch primary secondary repo).1)
  ∧ Forall (fun url => url = api_url ("repos/" +:+ repo
                                      +:+ "/traffic/views"))
           (requested (query_rest primary secondary
                         (Stats.views_path repo)).1).
Proof.
  split; apply Forall_forall; intros url Hin.
  - apply fetch_requested in Hin as [j ->].
    rewrite contributors_path_stripped. reflexivity.
  - apply (query_rest_requested primary secondary) in Hin as [j ->].
    rewrite views_path_stripped. reflexivity.
Qed.

End GatewayBounds.

Opaque Gateway.query_rest Lines.fetch.

(** ** The collector: pagination, languages and shares *)

Section CollectorMore.
Import Collector Languages.

Variable exclude_repos : gset string.
Variable exclude_langs : gset string.
Variable consider_forked_repos : bool.
Variable graphql : nat → option string → option string → result (option page).

Abbreviation run_collect :=
  (collect exclude_repos exclude_langs consider_forked_repos).
Abbreviation run_get_stats :=
  (get_stats exclude_repos exclude_langs consider_forked_repos).
Abbreviation admission := (admit_repo exclude_repos exclude_langs).
Abbreviation process :=
  (process_page exclude_repos exclude_langs consider_forked_repos).

Lemma collect_needs_a_last_page fuel : ∀ k a b st r,
  (∀ k a b p, graphql k a b = Ok p →
     has_next (repositories (default empty_page p))
     || has_next (repositoriesContributedTo (default empty_page p)) = true) →
  run_collect graphql fuel k a b st ≠ Ok r.
Proof.
  induction fuel as [|fuel IH]; intros k a b st r Hnext; [done|].
  cbn [collect]. destruct (graphql k a b) as [p| |] eqn:Hp; [|done..].
  cbn [bind]. destruct (process st (default empty_page p)); [|done..].
  cbn [bind]. rewrite (Hnext _ _ _ _ Hp). by apply IH.
Qed.

(** X7. The pagination loop has no bound of its own: against an endpoint
    whose every answer reports a next page in one of the two lists,
    [get_stats] returns for no amount of fuel. *)
Theorem get_stats_needs_a_last_page fuel k old r :
  (∀ k a b p, graphql k a b = Ok p →
     has_next (repositories (default empty_page p))
     || has_next (repositoriesContributedTo (default empty_page p)) = true) →
  run_get_stats graphql fuel k old ≠ Ok r.
Proof.
  intros Hnext H. unfold get_stats in H.
  apply bind_Ok in H as (r0 & Hc & _).
  by apply collect_needs_a_last_page in Hc.
Qed.

(** X8. What a first answer without a viewer does: a null answer, or
    one in which the [data] key, or the [viewer] key under it, is
    absent, ends the run at once and without an exception, with the name
    ["No Name"], counters at 0 and empty sets, language table and
    shares; one in which [data] or [viewer] is present and null makes
    the run raise [AttributeError]. *)
Theorem get_stats_without_viewer_data fuel k old p :
  graphql k None None = Ok p →
  (default empty_page p = empty_page →
   run_get_stats graphql (S fuel) k old
   = Ok ({| snap_name := Some "No Name"; snap_stargazers := 0;
            snap_forks := 0; snap_languages := []; snap_repos := ∅;
            snap_ignored_repos := ∅; snap_repo_language_data := ∅ |}, S k))
  ∧ (viewer_null (default empty_page p) = true →
     run_get_stats graphql (S fuel) k old = Raise AttributeError).
Proof.
  intros Hp. unfold get_stats. cbn [collect]. rewrite Hp. cbn [bind].
  split.
  - intros He. rewrite He. unfold process_page, candidates.
    cbn [viewer_null empty_page]. by destruct consider_forked_repos.
  - intros Hn. unfold process_page. by rewrite Hn.
Qed.

(** X9. With fork inclusion on, the excluded set stays empty and every
    repository of a contributed-to list that is not excluded by
    configuration is in the repository set. *)
Theorem fork_inclusion_admits_contributed fuel k old st k' :
  consider_forked_repos = true →
  run_get_stats graphql fuel k old = Ok (st, k') →
  snap_ignored_repos st = ∅
  ∧ ∀ r, r ∈ contrib_sightings graphql fuel k →
         nameWithOwner r ∉ exclude_repos →
         nameWithOwner r ∈ snap_repos st.
Proof.
  intros Hflag H. apply get_stats_inv in H as (st0 & Hc & Hp).
  apply pages_grow in Hc as ((Hr & _) & Hi).
  apply percentages_keeps in Hp as (_ & _ & _ & -> & -> & _).
  split.
  - apply set_eq. intros x. rewrite Hi, Hflag. cbn [reset snap_ignored_repos].
    set_solver.
  - intros r Hin Hex. rewrite Hr. cbn [reset snap_repos].
    rewrite elem_of_union, elem_of_list_to_set. left.
    apply first_sightings_complete; [|set_solver].
    apply list_elem_of_fmap_2. unfold contrib_sightings in Hin.
    apply list_elem_of_In, in_flat_map in Hin as (p & Hp & Hin).
    apply list_elem_of_In, in_flat_map. exists p. split; [done|].
    unfold candidates. rewrite Hflag. apply in_or_app. by right.
Qed.

(** *** A language excluded by configuration *)

Lemma keep_lang_false lang e : keep_lang lang e = false → lang_name_of e = lang.
Proof.
  intros H. apply negb_false_iff in H. by apply String.eqb_eq in H.
Qed.

Lemma repo_langs_without lang (es : list lang_edge) : ∀ acc,
  lang ∈ exclude_langs →
  fold_left (repo_langs_step exclude_langs) (List.filter (keep_lang lang) es)
            acc
  = fold_left (repo_langs_step exclude_langs) es acc.
Proof.
  intros acc Hex. revert acc.
  induction es as [|e es IH]; intros acc; [done|]. cbn [List.filter].
  destruct (keep_lang lang e) eqn:E; cbn [fold_left]; [apply IH|].
  apply keep_lang_false in E. unfold repo_langs_step at 3.
  rewrite decide_True by by rewrite E. apply IH.
Qed.

Lemma add_language_without lang (es : list lang_edge) : ∀ langs,
  lang ∈ exclude_langs →
  fold_left (add_language exclude_langs) (List.filter (keep_lang lang) es)
            langs
  = fold_left (add_language exclude_langs) es langs.
Proof.
  intros langs Hex. revert langs.
  induction es as [|e es IH]; intros langs; [done|]. cbn [List.filter].
  destruct (keep_lang lang e) eqn:E; cbn [fold_left]; [apply IH|].
  apply keep_lang_false in E. unfold add_language at 3.
  rewrite decide_True by by rewrite E. apply IH.
Qed.

Lemma admit_without_lang lang st r :
  lang ∈ exclude_langs →
  admission st (node_without_lang lang r) = admission st r.
Proof.
  intros Hex. unfold admit_repo.
  cbn [node_without_lang nameWithOwner totalCount forkCount language_edges].
  replace (default [] match language_edges r with
                      | Some l => Some (List.filter (keep_lang lang) l)
                      | None => None
                      end)
    with (List.filter (keep_lang lang) (default [] (language_edges r)))
    by by destruct (language_edges r).
  by rewrite repo_langs_without, add_language_without.
Qed.

Lemma admit_loop_without_lang lang (l : list repo_node) : ∀ st,
  lang ∈ exclude_langs →
  foldM admission (map (node_without_lang lang) l) st = foldM admission l st.
Proof.
  intros st Hex. revert st.
  induction l as [|r l IH]; intros st; [done|]. cbn [map].
  rewrite !foldM_cons, admit_without_lang by done.
  destruct (admission st r); cbn [bind]; auto.
Qed.

Lemma note_loop_without_lang lang (l : list repo_node) : ∀ i : gset string,
  fold_left (note_ignored exclude_repos) (map (node_without_lang lang) l) i
  = fold_left (note_ignored exclude_repos) l i.
Proof. induction l as [|r l IH]; intros i; [done|]. cbn. apply IH. Qed.

Lemma conn_nodes_without_lang lang c :
  conn_nodes (conn_without_lang lang c)
  = map (node_without_lang lang) (conn_nodes c).
Proof. destruct c as [[[l|] i]|]; reflexivity. Qed.

Lemma has_next_without_lang lang c :
  has_next (conn_without_lang lang c) = has_next c.
Proof. by destruct c as [[l i]|]. Qed.

Lemma end_cursor_without_lang lang c old :
  end_cursor (conn_without_lang lang c) old = end_cursor c old.
Proof. by destruct c as [[l i]|]. Qed.

Lemma process_without_lang lang st p :
  lang ∈ exclude_langs →
  process st (page_without_lang lang p) = process st p.
Proof.
  intros Hex. unfold process_page, candidates.
  cbn [page_without_lang viewer_null viewer_name viewer_login repositories
       repositoriesContributedTo].
  destruct (viewer_null p); [done|].
  rewrite !conn_nodes_without_lang, note_loop_without_lang.
  destruct consider_forked_repos.
  - by rewrite <- map_app, admit_loop_without_lang.
  - by rewrite admit_loop_without_lang.
Qed.

Lemma collect_without_lang lang fuel : ∀ k a b st,
  lang ∈ exclude_langs →
  run_collect (map_pages (page_without_lang lang) graphql) fuel k a b st
  = run_collect graphql fuel k a b st.
Proof.
  intros k a b st Hex. revert k a b st.
  induction fuel as [|fuel IH]; intros k a b st; [done|].
  cbn [collect]. unfold map_pages at 1.
  destruct (graphql k a b) as [[p|]| |]; cbn [bind default id]; try done.
  rewrite process_without_lang by done.
  destruct (process st p) as [st1| |]; cbn [bind]; try done.
  cbn [page_without_lang repositories repositoriesContributedTo].
  rewrite !has_next_without_lang, !end_cursor_without_lang.
  destruct (has_next _ || has_next _); [apply IH|done].
Qed.

(** X10. A language excluded by configuration counts nowhere: the run,
    outcome, totals and recorded shares alike, is the run on the same
    answers with every edge of that language removed from every
    repository. *)
Theorem excluded_language_counts_nowhere lang fuel k old :
  lang ∈ exclude_langs →
  run_get_stats (map_pages (page_without_lang lang) graphql) fuel k old
  = run_get_stats graphql fuel k old.
Proof. intros Hex. unfold get_stats. by rewrite collect_without_lang. Qed.

(** *** The language table *)

Lemma alist_lookup_set_eq {V : Type} k (v : V) (l : list (string * V)) :
  alist_lookup k (alist_set k v l) = Some v.
Proof.
  induction l as [|[k' v'] l IH]; cbn.
  - by rewrite decide_True.
  - destruct (decide (k' = k)) as [->|Hne]; cbn.
    + by rewrite decide_True.
    + by rewrite decide_False.
Qed.

Lemma alist_lookup_set_ne {V : Type} k k0 (v : V) (l : list (string * V)) :
  k ≠ k0 → alist_lookup k0 (alist_set k v l) = alist_lookup k0 l.
Proof.
  intros Hne. induction l as [|[k' v'] l IH]; cbn.
  - by rewrite decide_False.
  - destruct (decide (k' = k)) as [->|Hne']; cbn.
    + by rewrite !decide_False.
    + destruct (decide (k' = k0)); [done|apply IH].
Qed.

(** Size and occurrence count of a language in a table, if it is
    there. *)
Abbreviation entry_of lang langs :=
  ((fun v : lang_rec => (size v, occurrences v)) <$> alist_lookup lang langs).

Lemma entry_of_lang_sizes lang (l1 : list (string * lang_rec)) : ∀ l2,
  lang_sizes l1 = lang_sizes l2 → entry_of lang l1 = entry_of lang l2.
Proof.
  induction l1 as [|[k1 v1] l1 IH]; intros [|[k2 v2] l2] H; try done.
  injection H as -> Hs Ho Hl. cbn.
  destruct (decide (k2 = lang)); cbn; [by rewrite Hs, Ho|by apply IH].
Qed.

Lemma add_language_entry lang langs e :
  entry_of lang (add_language exclude_langs langs e)
  = if bool_decide (lang_name_of e = lang ∧ lang ∉ exclude_langs) then
      match entry_of lang langs with
      | Some so => Some (so.1 + default 0 (edge_size e), so.2 + 1)
      | None => Some (default 0 (edge_size e), 1)
      end
    else entry_of lang langs.
Proof.
  unfold add_language. case_decide as Hex.
  - rewrite bool_decide_false; [done|]. intros [<- Hn]. done.
  - destruct (decide (lang_name_of e = lang)) as [<-|Hne].
    + rewrite bool_decide_true by done.
      destruct (alist_lookup (lang_name_of e) langs) as [v|];
        by rewrite alist_lookup_set_eq.
    + rewrite bool_decide_false by tauto.
      destruct (alist_lookup (lang_name_of e) langs) as [v|];
        by rewrite alist_lookup_set_ne.
Qed.

Lemma add_language_loop_entry lang (es : list lang_edge) : ∀ langs,
  entry_of lang langs = None →
  entry_of lang (fold_left (add_language exclude_langs) es langs)
  = match edges_of exclude_langs lang es with
    | [] => None
    | mine => Some (sum_sizes mine, Z.of_nat (length mine))
    end.
Proof.
  assert (Hgen : ∀ langs,
    entry_of lang (fold_left (add_language exclude_langs) es langs)
    = match edges_of exclude_langs lang es, entry_of lang langs with
      | [], r => r
      | mine, Some so =>
          Some (so.1 + sum_sizes mine, so.2 + Z.of_nat (length mine))
      | mine, None => Some (sum_sizes mine, Z.of_nat (length mine))
      end).
  { induction es as [|e es IH]; intros langs; [by destruct (entry_of _ _)|].
    cbn [fold_left]. rewrite IH, add_language_entry.
    unfold edges_of. cbn [List.filter].
    destruct (bool_decide _); [|done].
    fold (edges_of exclude_langs lang es).
    destruct (edges_of exclude_langs lang es) as [|e' mine] eqn:E;
      destruct (entry_of lang langs) as [[s o]|]; cbn [fst snd];
      cbn [sum_sizes foldr length]; f_equal; f_equal; lia. }
  intros langs Hnone. rewrite Hgen, Hnone.
  by destruct (edges_of exclude_langs lang es).
Qed.

(** X11. After a completed run, a language is in the table exactly when
    one of its edges was met in a counted repository and the language is
    not excluded by configuration; its size is then the sum of the sizes
    of those edges and its occurrence count their number, each counted
    repository being walked once. *)
Theorem language_sizes_add_up fuel k old st k' lang :
  run_get_stats graphql fuel k old = Ok (st, k') →
  let es := edges_of exclude_langs lang
              (flat_map repo_edges
                 (first_sightings exclude_repos
                    (sightings consider_forked_repos graphql fuel k))) in
  match alist_lookup lang (snap_languages st) with
  | Some v => es ≠ [] ∧ size v = sum_sizes es
              ∧ occurrences v = Z.of_nat (length es)
  | None => es = []
  end.
Proof.
  intros H. cbv zeta. unfold sightings.
  apply get_stats_inv in H as (st0 & Hc & Hp).
  apply pages_grow in Hc as ((_ & _ & _ & Hl) & _).
  apply percentages_keeps in Hp as (_ & _ & _ & _ & _ & _ & Hl').
  cbn [reset snap_repos snap_languages] in Hl.
  replace (∅ ∪ exclude_repos) with exclude_repos in Hl by set_solver.
  apply (entry_of_lang_sizes lang) in Hl'. rewrite Hl in Hl'.
  rewrite add_language_loop_entry in Hl' by done.
  destruct (alist_lookup lang (snap_languages st)) as [v|];
    destruct (edges_of _ _ _) as [|e mine]; try done.
  by injection Hl' as -> ->.
Qed.

(** *** The recorded shares *)

Abbreviation shares := (Shares.shares_by exclude_langs).
Abbreviation sizes := (repo_sizes exclude_langs).

Lemma shares_refl st : shares st [] st.
Proof.
  split; [cbn; set_solver|]. split; [done|]. split.
  - intros r Hr. by apply elem_of_nil in Hr.
  - intros name props H. by left.
Qed.

Lemma shares_trans st1 f1 st2 f2 st3 :
  shares st1 f1 st2 → shares st2 f2 st3 → shares st1 (f1 ++ f2) st3.
Proof.
  intros (Hr & Hk & Hp & Ho) (Hr' & Hk' & Hp' & Ho').
  split; [|split; [|split]].
  - rewrite Hr', Hr, map_app, list_to_set_app_L. set_solver.
  - intros name Hin. rewrite Hk', Hk; [done..|]. rewrite Hr. set_solver.
  - intros r Hin Hpos. apply elem_of_app in Hin as [Hin|Hin].
    + destruct (Hp r Hin Hpos) as (props & Hprops & Hl).
      exists props. split; [done|]. rewrite Hk'; [done|].
      rewrite Hr, elem_of_union, elem_of_list_to_set. left.
      by apply list_elem_of_fmap_2.
    + by apply Hp'.
  - intros name props Hl. destruct (Ho' _ _ Hl) as [Hl2|(r & Hin & Hrest)].
    + destruct (Ho _ _ Hl2) as [?|(r & Hin & Hrest)]; [by left|].
      right. exists r. split; [|done]. apply elem_of_app. by left.
    + right. exists r. split; [|done]. apply elem_of_app. by right.
Qed.

Lemma admit_shares st r st' :
  nameWithOwner r ∉ snap_repos st → nameWithOwner r ∉ exclude_repos →
  admission st r = Ok st' → shares st [r] st'.
Proof.
  intros Hr He H. unfold admit_repo in H.
  rewrite decide_False in H by tauto.
  change (fold_left (repo_langs_step exclude_langs)
            (default [] (language_edges r)) ([], 0)) with (sizes r) in H.
  destruct (sizes r) as [repo_langs total_size] eqn:Hsz.
  apply bind_Ok in H as (data & Hd & H). injection H as <-.
  unfold Shares.shares_by. cbn [snap_repos snap_repo_language_data].
  assert (Hdata : if 0 <? total_size then
                    ∃ props, proportions repo_langs total_size = Ok props
                             ∧ data = <[ nameWithOwner r := props ]>
                                        (snap_repo_language_data st)
                  else data = snap_repo_language_data st).
  { destruct (0 <? total_size); [|by injection Hd].
    apply bind_Ok in Hd as (props & Hprops & Hd). injection Hd as <-.
    by exists props. }
  clear Hd. split; [|split; [|split]].
  - cbn. set_solver.
  - intros name Hin. destruct (0 <? total_size); [|by subst].
    destruct Hdata as (props & _ & ->). apply lookup_insert_ne.
    intros <-. done.
  - intros r' Hin Hpos. apply list_elem_of_singleton in Hin as ->.
    rewrite Hsz in *. cbn [fst snd] in *.
    apply Z.ltb_lt in Hpos. rewrite Hpos in Hdata.
    destruct Hdata as (props & Hprops & ->). exists props.
    split; [done|]. apply lookup_insert_eq.
  - intros name props Hl.
    destruct (0 <? total_size) eqn:Hpos; [|left; by subst].
    destruct Hdata as (props' & Hprops & ->).
    destruct (decide (nameWithOwner r = name)) as [<-|Hne].
    + rewrite lookup_insert_eq in Hl. injection Hl as <-. right.
      exists r. rewrite Hsz. cbn [fst snd]. apply Z.ltb_lt in Hpos.
      split; [by left|done].
    + rewrite lookup_insert_ne in Hl by done. by left.
Qed.

Lemma admit_loop_shares (l : list repo_node) : ∀ st st',
  foldM admission l st = Ok st' →
  shares st (first_sightings (snap_repos st ∪ exclude_repos) l) st'.
Proof.
  induction l as [|r l IH]; intros st st' H.
  - injection H as <-. apply shares_refl.
  - rewrite foldM_cons in H. apply bind_Ok in H as (st1 & H1 & H).
    cbn [first_sightings]. case_decide as Hd.
    + rewrite elem_of_union in Hd.
      assert (st1 = st) as ->.
      { destruct Hd as [Hd|Hd];
          [rewrite admit_seen in H1|rewrite admit_excluded in H1];
          by try injection H1 as <-. }
      by apply IH.
    + rewrite not_elem_of_union in Hd. destruct Hd as [Hr He].
      pose proof (admit_shares _ _ _ Hr He H1) as Hs.
      apply IH in H.
      replace ({[nameWithOwner r]} ∪ (snap_repos st ∪ exclude_repos))
        with (snap_repos st1 ∪ exclude_repos).
      * apply (shares_trans _ [r] _ _ _ Hs H).
      * destruct Hs as (-> & _). cbn. set_solver.
Qed.

Lemma pages_shares (ps : list page) : ∀ st st',
  foldM process ps st = Ok st' →
  shares st (first_sightings (snap_repos st ∪ exclude_repos)
               (flat_map (candidates consider_forked_repos) ps)) st'.
Proof.
  induction ps as [|p ps IH]; intros st st' H.
  - injection H as <-. apply shares_refl.
  - rewrite foldM_cons in H. apply bind_Ok in H as (st1 & H1 & H).
    unfold process_page in H1. destruct (viewer_null p); [discriminate|].
    apply admit_loop_shares in H1.
    cbn [snap_repos] in H1. apply IH in H.
    cbn [flat_map]. rewrite first_sightings_app.
    replace (_ ∪ (snap_repos st ∪ exclude_repos))
      with (snap_repos st1 ∪ exclude_repos).
    + exact (shares_trans _ _ _ _ _ H1 H).
    + destruct H1 as (-> & _). cbn. set_solver.
Qed.

Lemma same_name_same_node (l : list repo_node) r1 r2 :
  NoDup (map nameWithOwner l) → r1 ∈ l → r2 ∈ l →
  nameWithOwner r1 = nameWithOwner r2 → r1 = r2.
Proof.
  induction l as [|r l IH]; intros Hnd H1 H2 Heq.
  - by apply elem_of_nil in H1.
  - cbn in Hnd. apply NoDup_cons in Hnd as [Hnot Hnd].
    apply elem_of_cons in H1 as [->|H1]; apply elem_of_cons in H2 as [->|H2];
      [done| | |by apply IH].
    + destruct Hnot. rewrite Heq. by apply list_elem_of_fmap_2.
    + destruct Hnot. rewrite <- Heq. by apply list_elem_of_fmap_2.
Qed.

Lemma shares_of_firsts fuel k old st k' :
  run_get_stats graphql fuel k old = Ok (st, k') →
  let firsts := first_sightings exclude_repos
                  (sightings consider_forked_repos graphql fuel k) in
  (∀ r, r ∈ firsts → 0 < (sizes r).2 →
        ∃ props, proportions (sizes r).1 (sizes r).2 = Ok props
                 ∧ snap_repo_language_data st !! nameWithOwner r
                   = Some props)
  ∧ (∀ r, r ∈ firsts → (sizes r).2 ≤ 0 →
          snap_repo_language_data st !! nameWithOwner r = None)
  ∧ (∀ name props,
       snap_repo_language_data st !! name = Some props →
       ∃ r, r ∈ firsts ∧ nameWithOwner r = name ∧ 0 < (sizes r).2
            ∧ proportions (sizes r).1 (sizes r).2 = Ok props).
Proof.
  intros H. cbv zeta. unfold sightings.
  apply get_stats_inv in H as (st0 & Hc & Hp).
  apply pages_shares in Hc as (_ & _ & Hpos & Honly).
  apply percentages_keeps in Hp as (_ & _ & _ & _ & _ & -> & _).
  cbn [reset snap_repos snap_repo_language_data] in Hpos, Honly.
  replace (∅ ∪ exclude_repos) with exclude_repos in * by set_solver.
  assert (Honly' : ∀ name props,
            snap_repo_language_data st0 !! name = Some props →
            ∃ r, r ∈ first_sightings exclude_repos
                       (flat_map (candidates consider_forked_repos)
                          (pages_read graphql fuel k None None))
                 ∧ nameWithOwner r = name ∧ 0 < (sizes r).2
                 ∧ proportions (sizes r).1 (sizes r).2 = Ok props).
  { intros name props Hl. by destruct (Honly _ _ Hl) as [?|?]. }
  split; [exact Hpos|]. split; [|exact Honly'].
  intros r Hin Hle.
  destruct (snap_repo_language_data st0 !! nameWithOwner r) as [props|] eqn:E;
    [|done].
  destruct (Honly' _ _ E) as (r' & Hin' & Hname & Hpos' & _).
  assert (r' = r) as ->; [|lia].
  eapply same_name_same_node; [apply first_sightings_NoDup|done..].
Qed.

(** The two results of the first loop over the edges, stated without
    the loop. *)
Lemma repo_langs_loop_total (es : list lang_edge) : ∀ acc,
  (fold_left (repo_langs_step exclude_langs) es acc).2
  = acc.2 + sum_sizes (List.filter
                         (fun e => bool_decide (lang_name_of e ∉ exclude_langs))
                         es).
Proof.
  induction es as [|e es IH]; intros acc; cbn [fold_left List.filter].
  - cbn. lia.
  - rewrite IH. unfold repo_langs_step. case_decide as Hex.
    + rewrite bool_decide_false by tauto. done.
    + rewrite bool_decide_true by done. cbn [snd sum_sizes foldr].
      unfold sum_sizes. lia.
Qed.

Lemma repo_langs_loop_lookup lang (es : list lang_edge) : ∀ acc,
  alist_lookup lang (fold_left (repo_langs_step exclude_langs) es acc).1
  = match last (edges_of exclude_langs lang es) with
    | Some e => Some (default 0 (edge_size e))
    | None => alist_lookup lang acc.1
    end.
Proof.
  induction es as [|e es IH]; intros acc; [done|].
  cbn [fold_left]. rewrite IH. unfold edges_of. cbn [List.filter].
  fold (edges_of exclude_langs lang es).
  unfold repo_langs_step. case_bool_decide as Hk.
  - destruct Hk as [<- Hn]. rewrite decide_False by done. cbn [fst].
    rewrite alist_lookup_set_eq, last_cons.
    by destruct (last (edges_of _ _ es)).
  - destruct (last (edges_of _ _ es)); [done|].
    case_decide as Hex; [done|]. cbn [fst].
    apply alist_lookup_set_ne. intros Heq. apply Hk. by subst.
Qed.

Lemma alist_set_keys {V : Type} k (v : V) (l : list (string * V)) :
  NoDup (map fst l) → NoDup (map fst (alist_set k v l)).
Proof.
  assert (Hin : ∀ l k0, k0 ∈ map fst (alist_set k v l)
                        → k0 = k ∨ k0 ∈ map fst l).
  { clear l. intros l k0. induction l as [|[k' v'] l IH]; cbn.
    - rewrite list_elem_of_singleton. tauto.
    - destruct (decide (k' = k)) as [->|Hne]; cbn;
        rewrite !elem_of_cons; [tauto|].
      intros [?|H]; [tauto|]. destruct (IH H); tauto. }
  induction l as [|[k' v'] l IH]; cbn; intros Hnd.
  - apply NoDup_singleton.
  - apply NoDup_cons in Hnd as [Hnot Hnd].
    destruct (decide (k' = k)) as [->|Hne]; cbn.
    + by apply NoDup_cons.
    + apply NoDup_cons. split; [|by apply IH].
      intros H. destruct (Hin _ _ H); [congruence|done].
Qed.

Lemma repo_langs_loop_keys (es : list lang_edge) : ∀ acc,
  NoDup (map fst acc.1) →
  NoDup (map fst (fold_left (repo_langs_step exclude_langs) es acc).1).
Proof.
  induction es as [|e es IH]; intros acc Hnd; [done|].
  cbn [fold_left]. apply IH. unfold repo_langs_step.
  case_decide; [done|]. cbn [fst]. by apply alist_set_keys.
Qed.

(** The comprehension over [repo_langs], stated without it. *)
Lemma proportions_lookup repo_langs total props lang :
  proportions repo_langs total = Ok props →
  map fst props = map fst repo_langs
  ∧ match alist_lookup lang repo_langs with
    | Some sz => ∃ q, PyFloat.true_div sz total = Ok q
                      ∧ alist_lookup lang props = Some q
    | None => alist_lookup lang props = None
    end.
Proof.
  intros H. unfold proportions in H. apply mapM_r_Forall2 in H.
  induction H as [|[k sz] [k' q] l l' Hkv _ [IHk IHl]]; [done|].
  cbn [fst snd] in Hkv. apply bind_Ok in Hkv as (q' & Hq & Hkv).
  injection Hkv as <- <-. cbn [map fst alist_lookup]. split; [by rewrite IHk|].
  destruct (decide (k = lang)); [by exists q'|exact IHl].
Qed.

(** X12. After a completed run, the recorded language shares are those
    of the counted repositories whose sizes, excluded languages apart,
    sum to more than 0: such a repository is recorded with one share for
    each of its languages, the size of the language divided by that sum,
    a repository whose sizes sum to 0 is not recorded, and nothing else
    is. *)
Theorem language_shares_of_counted_repositories fuel k old st k' :
  run_get_stats graphql fuel k old = Ok (st, k') →
  let firsts := first_sightings exclude_repos
                  (sightings consider_forked_repos graphql fuel k) in
  (∀ r, r ∈ firsts → 0 < counted_total exclude_langs r →
        ∃ props,
          snap_repo_language_data st !! nameWithOwner r = Some props
          ∧ NoDup (map fst props)
          ∧ ∀ lang,
              match size_of exclude_langs lang r with
              | Some sz =>
                  ∃ q, PyFloat.true_div sz (counted_total exclude_langs r)
                       = Ok q
                       ∧ alist_lookup lang props = Some q
              | None => alist_lookup lang props = None
              end)
  ∧ (∀ r, r ∈ firsts → counted_total exclude_langs r ≤ 0 →
          snap_repo_language_data st !! nameWithOwner r = None)
  ∧ (∀ name, is_Some (snap_repo_language_data st !! name) →
             ∃ r, r ∈ firsts ∧ nameWithOwner r = name
                  ∧ 0 < counted_total exclude_langs r).
Proof.
  intros H. cbv zeta.
  destruct (shares_of_firsts _ _ _ _ _ H) as (Hpos & Hzero & Honly).
  assert (Htotal : ∀ r, (sizes r).2 = counted_total exclude_langs r).
  { intros r. unfold repo_sizes, counted_total.
    by rewrite repo_langs_loop_total. }
  split; [|split].
  - intros r Hin Hgt. rewrite <- Htotal in Hgt.
    destruct (Hpos r Hin Hgt) as (props & Hp & Hl).
    exists props. split; [exact Hl|]. split.
    + destruct (proportions_lookup _ _ _ "" Hp) as [-> _].
      by apply repo_langs_loop_keys, NoDup_nil.
    + intros lang. destruct (proportions_lookup _ _ _ lang Hp) as [_ Hlang].
      unfold repo_sizes in Hlang at 1.
      rewrite repo_langs_loop_lookup in Hlang. cbn [fst alist_lookup] in Hlang.
      unfold size_of. rewrite Htotal in Hlang.
      by destruct (last (edges_of _ _ _)).
  - intros r Hin Hle. rewrite <- Htotal in Hle. by apply Hzero.
  - intros name [props Hl].
    destruct (Honly _ _ Hl) as (r & Hin & Hname & Hgt & _).
    exists r. by rewrite <- Htotal.
Qed.

(** *** Exceptions of a run *)

Lemma true_div_raises a b e :
  PyFloat.true_div a b = Raise e →
  (e = ZeroDivisionError ∧ b = 0) ∨ (e = OverflowError ∧ b ≠ 0).
Proof.
  unfold PyFloat.true_div. destruct (b =? 0) eqn:Hb.
  - intros H. injection H as <-. left. split; [done|lia].
  - destruct (a =? 0); [done|].
    destruct (SFdiv_core_binary _ _ _ _ _ _) as [[m e'] l].
    destruct (binary_round_aux _ _ _ _ _ _); try done.
    intros H. injection H as <-. right. split; [done|lia].
Qed.

Lemma mapM_r_raises {A B : Type} (f : A → result B) (l : list A) e :
  mapM_r f l = Raise e → ∃ x, x ∈ l ∧ f x = Raise e.
Proof.
  induction l as [|x l IH]; [done|]. cbn [mapM_r].
  destruct (f x) as [y|e'|] eqn:Hx; cbn [bind]; [|intros H|done].
  - destruct (mapM_r f l) as [ys|e'|]; cbn [bind]; [done| |done].
    intros H. injection H as ->. destruct IH as (x' & Hin & Hx'); [done|].
    exists x'. split; [by right|done].
  - injection H as ->. exists x. split; [by left|done].
Qed.

Lemma foldM_raises {A B : Type} (f : A → B → result A) (l : list B) e :
  ∀ a, foldM f l a = Raise e → ∃ a' x, x ∈ l ∧ f a' x = Raise e.
Proof.
  induction l as [|x l IH]; intros a; [done|]. rewrite foldM_cons.
  destruct (f a x) as [a1|e'|] eqn:Hx; cbn [bind]; [|intros H|done].
  - intros H. destruct (IH _ H) as (a' & x' & Hin & Hx').
    exists a', x'. split; [by right|done].
  - injection H as ->. exists a, x. split; [by left|done].
Qed.

Lemma admit_raises st r e : admission st r = Raise e → e = OverflowError.
Proof.
  unfold admit_repo. case_decide as Hd; [done|].
  destruct (fold_left _ _ _) as [repo_langs total_size].
  destruct (0 <? total_size) eqn:Hpos; [|done].
  destruct (proportions repo_langs total_size) as [props|e'|] eqn:Hp;
    cbn [bind]; [done| |done].
  intros H. injection H as ->.
  apply mapM_r_raises in Hp as ([name sz] & _ & Hp). cbn [fst snd] in Hp.
  destruct (PyFloat.true_div sz total_size) as [q|e'|] eqn:Hq;
    cbn [bind] in Hp; [done| |done].
  injection Hp as ->. apply Z.ltb_lt in Hpos.
  apply true_div_raises in Hq as [[_ ?]|[? _]]; [lia|done].
Qed.

Lemma process_raises st p e :
  process st p = Raise e → e = OverflowError ∨ e = AttributeError.
Proof.
  unfold process_page. destruct (viewer_null p).
  - intros H. injection H as <-. by right.
  - intros H. apply foldM_raises in H as (a & r & _ & H).
    left. by apply admit_raises in H.
Qed.

Lemma collect_raises fuel : ∀ k a b st e,
  run_collect graphql fuel k a b st = Raise e →
  e = OverflowError ∨ e = AttributeError
  ∨ ∃ k' a' b', graphql k' a' b' = Raise e.
Proof.
  induction fuel as [|fuel IH]; intros k a b st e; [done|].
  cbn [collect]. destruct (graphql k a b) as [p|e'|] eqn:Hp; cbn [bind].
  - destruct (process st (default empty_page p)) as [st1|e'|] eqn:Hs;
      cbn [bind]; [|intros H|done].
    + destruct (has_next _ || has_next _); [apply IH|done].
    + injection H as ->. apply process_raises in Hs. tauto.
  - intros H. injection H as ->. right. right. eauto.
  - done.
Qed.

Lemma percentages_raises st e :
  percentages st = Raise e →
  (e = ZeroDivisionError ∧ snap_languages st ≠ []
   ∧ langs_total (snap_languages st) = 0)
  ∨ e = OverflowError.
Proof.
  unfold percentages.
  destruct (mapM_r _ _) as [langs|e'|] eqn:Hl; cbn [bind]; [done| |done].
  intros H. injection H as ->.
  apply mapM_r_raises in Hl as (kv & Hin & Hkv). unfold set_prop in Hkv.
  destruct (PyFloat.true_div _ _) as [q|e'|] eqn:Hq; cbn [bind] in Hkv.
  - unfold PyFloat.int_mul in Hkv.
    assert (∃ x, PyFloat.of_int 100 = Ok x) as [x Hx]
      by (eexists; vm_compute; reflexivity).
    by rewrite Hx in Hkv.
  - injection Hkv as ->.
    apply true_div_raises in Hq as [[-> Hz]|[-> _]]; [left|by right].
    split; [done|]. split; [|done]. intros Hnil. rewrite Hnil in Hin.
    by apply elem_of_nil in Hin.
  - done.
Qed.

(** X13. The division of the admission loop is guarded, the one after
    the loop is not: unless the endpoint itself raises it, a run raises
    [ZeroDivisionError] only after its last page, and exactly when the
    language table is not empty and its sizes sum to 0. *)
Theorem get_stats_divides_by_zero_only_after_the_loop fuel k old :
  (∀ k a b, graphql k a b ≠ Raise ZeroDivisionError) →
  run_get_stats graphql fuel k old = Raise ZeroDivisionError
  ↔ ∃ st0 k0,
      run_collect graphql fuel k None None (reset old) = Ok (st0, k0)
      ∧ snap_languages st0 ≠ []
      ∧ langs_total (snap_languages st0) = 0.
Proof.
  intros Hq. unfold get_stats. split.
  - destruct (run_collect graphql fuel k None None (reset old))
      as [[st0 k0]|e|] eqn:Hc; cbn [bind fst snd]; [|intros H|done].
    + destruct (percentages st0) as [st1|e|] eqn:Hp; cbn [bind];
        [done| |done].
      intros H. injection H as ->.
      apply percentages_raises in Hp as [(_ & Hne & Hz)|?]; [|done].
      by exists st0, k0.
    + injection H as ->.
      apply collect_raises in Hc as [?|[?|(k' & a' & b' & Hr)]]; [done..|].
      by apply Hq in Hr.
  - intros (st0 & k0 & -> & Hne & Hz). cbn [bind fst].
    by rewrite percentages_zero_total.
Qed.

(** *** What a completed run leaves set *)

Lemma collect_names fuel : ∀ k a b st st' k',
  run_collect graphql fuel k a b st = Ok (st', k') → is_Some (snap_name st').
Proof.
  induction fuel as [|fuel IH]; intros k a b st st' k' H; [done|].
  cbn [collect] in H. apply bind_Ok in H as (p & _ & H).
  apply bind_Ok in H as (st1 & Hs & H).
  destruct (has_next _ || has_next _); [by apply IH in H|].
  injection H as <- <-. unfold process_page in Hs.
  destruct (viewer_null _); [discriminate|].
  apply admit_loop_grows in Hs as (_ & _ & ->). by eexists.
Qed.

Lemma get_stats_names fuel k old st k' :
  run_get_stats graphql fuel k old = Ok (st, k') → is_Some (snap_name st).
Proof.
  intros H. unfold get_stats in H.
  apply bind_Ok in H as ([st0 k0] & Hc & H).
  apply bind_Ok in H as (st1 & Hp & H). injection H as <- <-.
  apply percentages_keeps in Hp as (-> & _). by apply collect_names in Hc.
Qed.

Lemma get_stats_percentages fuel k old st k' :
  run_get_stats graphql fuel k old = Ok (st, k') →
  Forall (fun kv : string * lang_rec => is_Some (prop kv.2))
         (snap_languages st).
Proof.
  intros H. apply get_stats_inv in H as (st0 & _ & Hp).
  apply percentages_props in Hp.
  induction Hp as [|kv kv' l l' (_ & q & p & _ & _ & Hp) _ IH];
    constructor; [by rewrite Hp|done].
Qed.

Lemma shares_only_of_counted fuel k old st k' name :
  run_get_stats graphql fuel k old = Ok (st, k') →
  is_Some (snap_repo_language_data st !! name) → name ∈ snap_repos st.
Proof.
  intros H [props Hl]. apply get_stats_inv in H as (st0 & Hc & Hp).
  apply pages_shares in Hc as (Hr & _ & _ & Honly).
  apply percentages_keeps in Hp as (_ & _ & _ & -> & _ & Hd & _).
  rewrite Hd in Hl. destruct (Honly _ _ Hl) as [?|(r & Hin & <- & _)]; [done|].
  rewrite Hr, elem_of_union, elem_of_list_to_set. left.
  by apply list_elem_of_fmap_2.
Qed.

(** *** Running the collector again *)

Lemma process_forgets_name st1 st2 p :
  snap_stargazers st1 = snap_stargazers st2 →
  snap_forks st1 = snap_forks st2 →
  snap_languages st1 = snap_languages st2 →
  snap_repos st1 = snap_repos st2 →
  snap_ignored_repos st1 = snap_ignored_repos st2 →
  snap_repo_language_data st1 = snap_repo_language_data st2 →
  process st1 p = process st2 p.
Proof.
  intros Hs Hf Hl Hr Hi Hd. unfold process_page.
  by rewrite Hs, Hf, Hl, Hr, Hi, Hd.
Qed.

Lemma collect_again fuel : ∀ k1 k2 a b st1 st2,
  (∀ k k' a b, graphql k a b = graphql k' a b) →
  process st1 = process st2 →
  rmap fst (run_collect graphql fuel k1 a b st1)
  = rmap fst (run_collect graphql fuel k2 a b st2).
Proof.
  induction fuel as [|fuel IH]; intros k1 k2 a b st1 st2 Hq Hp; [done|].
  cbn [collect]. rewrite (Hq k1 k2 a b), Hp.
  destruct (graphql k2 a b) as [p| |]; cbn [bind]; [|done..].
  destruct (process st2 (default empty_page p)) as [st'| |]; cbn [bind];
    [|done..].
  destruct (has_next _ || has_next _); [by apply IH|done].
Qed.

(** X14. Against an endpoint whose answers do not depend on how many
    queries were sent before, a run of [get_stats] is repeatable: a
    later run, whatever name the object holds by then, has the outcome
    of the first one and, when it completes, leaves the same name,
    totals, sets, language table and shares. *)
Theorem get_stats_is_repeatable fuel k1 k2 old1 old2 :
  (∀ k k' a b, graphql k a b = graphql k' a b) →
  rmap fst (run_get_stats graphql fuel k1 old1)
  = rmap fst (run_get_stats graphql fuel k2 old2).
Proof.
  intros Hq. unfold get_stats.
  assert (Hp : process (reset old1) = process (reset old2)) by done.
  pose proof (collect_again fuel k1 k2 None None _ _ Hq Hp) as Hc.
  destruct (run_collect graphql fuel k1 None None (reset old1))
    as [[st1 n1]| |];
    destruct (run_collect graphql fuel k2 None None (reset old2))
      as [[st2 n2]| |]; try discriminate; cbn [rmap fst] in Hc;
    [|done..].
  injection Hc as ->. cbn [bind fst snd].
  by destruct (percentages st2).
Qed.

End CollectorMore.

(** ** The lines-changed loop as a sum *)

Section LinesMore.
Import Gateway Cache Lines.

Variable username : string.
Variable primary : nat → string → primary_reply.
Variable secondary : nat → string → secondary_reply.
Variable utcnow : nat → string.
Variable loaded : gmap string cache_entry.
Variable repo_language_data : gmap string (list (string * PyFloat.float)).

Abbreviation step :=
  (Lines.step username primary secondary utcnow loaded repo_language_data).
Abbreviation run :=
  (Lines.run username primary secondary utcnow loaded repo_language_data).
Abbreviation contribution :=
  (Totals.contribution username primary secondary loaded).
Abbreviation sum_contributions :=
  (Totals.sum_contributions username primary secondary loaded).

Lemma step_adds st repo st' :
  step st repo = Ok st' →
  total_additions st' = total_additions st + (contribution repo).1
  ∧ total_deletions st' = total_deletions st + (contribution repo).2.
Proof.
  unfold Lines.step, Totals.contribution.
  generalize (Lines.fetch primary secondary repo) as q. intros q H.
  cbv zeta in H. apply bind_Ok in H as (b & Hf & H). rewrite Hf.
  destruct b as [|items|vs].
  2:{ apply bind_Ok in H as (langs & _ & H). injection H as <-.
      rewrite repo_totals_spec. by cbn. }
  all: destruct (loaded !! repo) as [e|]; injection H as <-; cbn; lia.
Qed.

(** Whether an iteration completes does not depend on the locals it
    finds. *)
Lemma step_completes st repo st' other :
  step st repo = Ok st' → ∃ other', step other repo = Ok other'.
Proof.
  unfold Lines.step.
  generalize (Lines.fetch primary secondary repo) as q. intros q H.
  cbv zeta in H. cbv zeta. apply bind_Ok in H as (b & Hf & H). rewrite Hf.
  cbn [bind]. destruct b as [|items|vs].
  2:{ apply bind_Ok in H as (langs & Hl & _). rewrite Hl. cbn [bind]. eauto. }
  all: destruct (loaded !! repo) as [e|]; eauto.
Qed.

Lemma loop_adds (l : list string) : ∀ st st',
  foldM step l st = Ok st' →
  total_additions st' = total_additions st + (sum_contributions l).1
  ∧ total_deletions st' = total_deletions st + (sum_contributions l).2
  ∧ Forall (fun repo => ∃ st1 st2, step st1 repo = Ok st2) l.
Proof.
  induction l as [|repo l IH]; intros st st' H.
  - injection H as <-. cbn. split; [lia|]. split; [lia|constructor].
  - rewrite foldM_cons in H. apply bind_Ok in H as (st1 & H1 & H).
    destruct (step_adds _ _ _ H1) as [Ha Hd].
    destruct (IH _ _ H) as (Ha' & Hd' & Hall).
    unfold Totals.sum_contributions in *. cbn [foldr fst snd].
    split; [lia|]. split; [lia|]. constructor; eauto.
Qed.

Lemma loop_completes (l : list string) : ∀ st,
  Forall (fun repo => ∃ st1 st2, step st1 repo = Ok st2) l →
  ∃ st', foldM step l st = Ok st'.
Proof.
  induction l as [|repo l IH]; intros st Hall; [by eexists|].
  apply Forall_cons in Hall as [(st1 & st2 & H) Hall].
  destruct (step_completes _ _ _ st H) as [st' Hst].
  rewrite foldM_cons, Hst. cbn [bind]. by apply IH.
Qed.

Lemma sum_contributions_perm l1 l2 :
  l1 ≡ₚ l2 → sum_contributions l1 = sum_contributions l2.
Proof.
  unfold Totals.sum_contributions.
  induction 1 as [|x l l' _ IH|x y l|l l' l'' _ IH1 _ IH2];
    cbn [foldr fst snd].
  - done.
  - by rewrite IH.
  - f_equal; lia.
  - by rewrite IH1.
Qed.

(** X15. The totals do not depend on the order in which the set of
    repositories is iterated: if the loop completes in one order, it
    completes in any other, with the same additions and deletions, which
    are the sums over the repositories of what each contributes (the
    counted lines of a fetched list, else the cached counts, else
    nothing). *)
Theorem lines_loop_order_independent rs rs' clock tr final :
  rs ≡ₚ rs' → run rs clock tr = Ok final →
  (total_additions final, total_deletions final) = sum_contributions rs
  ∧ ∃ final', run rs' clock tr = Ok final'
              ∧ total_additions final' = total_additions final
              ∧ total_deletions final' = total_deletions final.
Proof.
  intros Hperm H. unfold Lines.run in *.
  destruct (loop_adds _ _ _ H) as (Ha & Hd & Hall).
  cbn [start total_additions total_deletions] in Ha, Hd.
  split.
  { destruct (sum_contributions rs) as [a d]. cbn [fst snd] in *.
    f_equal; lia. }
  rewrite Hperm in Hall.
  destruct (loop_completes rs' (start loaded clock tr) Hall) as [final' H'].
  exists final'. split; [exact H'|].
  destruct (loop_adds _ _ _ H') as (Ha' & Hd' & _).
  rewrite <- (sum_contributions_perm _ _ Hperm) in Ha', Hd'.
  cbn [start total_additions total_deletions] in Ha', Hd'. lia.
Qed.

End LinesMore.

(** ** The accessors, composed *)

Section StatsMore.
Import Gateway Cache Collector Stats.

Variable username : string.
Variable exclude_repos : gset string.
Variable exclude_langs : gset string.
Variable consider_forked_repos : bool.
Variable graphql : nat → option string → option string → result (option page).
Variable primary : nat → string → primary_reply.
Variable secondary : nat → string → secondary_reply.
Variable utcnow : nat → string.
Variable fuel : nat.

Abbreviation collector_run :=
  (Collector.get_stats exclude_repos exclude_langs consider_forked_repos
                       graphql fuel).
Abbreviation fetch_stats :=
  (Stats.get_stats exclude_repos exclude_langs consider_forked_repos
                   graphql fuel).
Abbreviation lines_changed_ :=
  (Stats.lines_changed username exclude_repos exclude_langs
                       consider_forked_repos graphql primary secondary
                       utcnow fuel).
Abbreviation views_ :=
  (Stats.views exclude_repos exclude_langs consider_forked_repos graphql
               primary secondary fuel).
Abbreviation repos_ :=
  (Stats.repos exclude_repos exclude_langs consider_forked_repos graphql fuel).
Abbreviation all_repos_ :=
  (Stats.all_repos exclude_repos exclude_langs consider_forked_repos
                   graphql fuel).
Abbreviation fetch := (Lines.fetch primary secondary).
Abbreviation traffic repo := (query_rest primary secondary (views_path repo)).

(** X16. One completed [get_stats] serves every guarded accessor: each
    then returns its field without a query and without touching the
    object, no assertion fails, and every language of the proportional
    table has a percentage, so that the default 0 is never used. *)
Theorem get_stats_serves_every_accessor o o1 :
  fetch_stats o = Ok o1 →
  ∃ n s f l r i,
    Stats.name exclude_repos exclude_langs consider_forked_repos graphql
      fuel o1 = Ok (n, o1)
    ∧ Stats.stargazers exclude_repos exclude_langs consider_forked_repos
        graphql fuel o1 = Ok (s, o1)
    ∧ Stats.forks exclude_repos exclude_langs consider_forked_repos
        graphql fuel o1 = Ok (f, o1)
    ∧ Stats.languages exclude_repos exclude_langs consider_forked_repos
        graphql fuel o1 = Ok (l, o1)
    ∧ repos_ o1 = Ok (r, o1)
    ∧ all_repos_ o1 = Ok (r ∪ i, o1)
    ∧ Stats.languages_proportional exclude_repos exclude_langs
        consider_forked_repos graphql fuel o1
      = Ok (map (fun kv : string * lang_rec => (kv.1, prop kv.2)) l, o1)
    ∧ Forall (fun kv : string * lang_rec => is_Some (prop kv.2)) l.
Proof.
  intros H. pose proof H as Hg. unfold Stats.get_stats in Hg.
  apply bind_Ok in Hg as ([st k'] & Hc & Hg). cbn [fst snd] in Hg.
  destruct (get_stats_names _ _ _ _ _ _ _ _ _ Hc) as [n Hn].
  pose proof (get_stats_percentages _ _ _ _ _ _ _ _ _ Hc) as Hall.
  injection Hg as <-.
  exists n, (snap_stargazers st), (snap_forks st), (snap_languages st),
    (snap_repos st), (snap_ignored_repos st).
  unfold Stats.name, Stats.stargazers, Stats.forks, Stats.languages,
    Stats.repos, Stats.all_repos, Stats.languages_proportional.
  cbn [_name _stargazers _forks _languages _repos _ignored_repos].
  rewrite Hn. by repeat split.
Qed.

(** X17. A completed first call of [lines_changed] returns, for both
    counts, the sum over the owned and the contributed-to repositories
    of what each one contributes; the fetch of every one of them
    returned, so a single fetch that raises leaves the call without a
    result. *)
Theorem lines_changed_sums_contributions o v o' :
  _lines_changed o = None → lines_changed_ o = Ok (v, o') →
  ∃ cache st k',
    _load_cache (cache_file o) = Ok cache
    ∧ collector_run (graph_queries o) (_name o) = Ok (st, k')
    ∧ v = Totals.sum_contributions username primary secondary
            (Cache.repositories cache)
            (elements (snap_repos st ∪ snap_ignored_repos st))
    ∧ ∀ repo, repo ∈ snap_repos st ∪ snap_ignored_repos st →
              ∃ b, (fetch repo).2 = Ok b.
Proof.
  intros Hn H.
  destruct (lines_changed_inv _ _ _ _ _ _ _ _ _ _ _ _ Hn H)
    as (cache & o1 & st & k' & final & Hl & _ & Hc & Hrun & -> & _).
  exists cache, st, k'. split; [done|]. split; [done|].
  unfold Lines.run in Hrun.
  destruct (loop_adds _ _ _ _ _ _ _ _ _ Hrun) as (Ha & Hd & Hall).
  cbn [Lines.start Lines.total_additions Lines.total_deletions] in Ha, Hd.
  split.
  { destruct (Totals.sum_contributions _ _ _ _ _) as [a d].
    cbn [fst snd] in *. f_equal; lia. }
  intros repo Hin. apply elem_of_elements in Hin.
  rewrite Forall_forall in Hall.
  destruct (Hall _ Hin) as (st1 & st2 & Hstep).
  by apply step_fetched in Hstep.
Qed.

(** X18. Lines in a repository that is not in the owned set are never
    split by language: when the contributor statistics of such a
    repository arrive, the cache entry written for it attributes all of
    its counted additions and deletions to ["Unknown"]. *)
Theorem uncounted_repository_lines_are_unknown name o st k' v o' items :
  collector_run (graph_queries o) (_name o) = Ok (st, k') →
  name ∈ snap_ignored_repos st → name ∉ snap_repos st →
  _lines_changed o = None → lines_changed_ o = Ok (v, o') →
  (fetch name).2 = Ok (BList items) →
  ∃ cache' entry,
    cache_file o' = Json cache'
    ∧ Cache.repositories cache' !! name = Some entry
    ∧ (additions entry, deletions entry)
      = Lines.repo_totals username items
    ∧ Cache.languages entry
      = Some [("Unknown", {| lang_additions := additions entry;
                             lang_deletions := deletions entry |})].
Proof.
  intros Hc Hi Hr Hn H Hf.
  destruct (lines_changed_inv _ _ _ _ _ _ _ _ _ _ _ _ Hn H)
    as (cache & o1 & st' & k'' & final & _ & _ & Hc' & Hrun & _ & Hfile & _).
  rewrite Hc in Hc'. injection Hc' as <- <-.
  assert (Hnone : snap_repo_language_data st !! name = None).
  { destruct (snap_repo_language_data st !! name) as [props|] eqn:E; [|done].
    destruct Hr. eapply shares_only_of_counted; [exact Hc|by eexists]. }
  assert (Hin : name ∈ elements (snap_repos st ∪ snap_ignored_repos st)).
  { apply elem_of_elements. set_solver. }
  destruct (run_cache_overwrite _ _ _ _ _ _ _ _ _ name items _
              (NoDup_elements _) Hin Hf Hrun)
    as (Ht & before & after & entry & langs & _ & _ & _ & Hl & He & _ & Hlangs).
  rewrite Hnone in Hlangs. subst langs.
  eexists _, entry. split; [exact Hfile|]. split; [exact Hl|].
  rewrite He. cbn [additions deletions Cache.languages]. by rewrite Ht.
Qed.

Lemma lines_changed_memo o v o' :
  lines_changed_ o = Ok (v, o') → _lines_changed o' = Some v.
Proof.
  unfold Stats.lines_changed.
  destruct (_lines_changed o) as [v0|] eqn:Hm.
  - intros H. by injection H as <- <-.
  - intros H. apply bind_Ok in H as (cache & _ & H).
    apply bind_Ok in H as (o1 & _ & H). apply bind_Ok in H as (a & _ & H).
    apply bind_Ok in H as (final & _ & H). by injection H as <- <-.
Qed.

Lemma views_memo o v o' : views_ o = Ok (v, o') → _views o' = Some v.
Proof.
  unfold Stats.views. destruct (_views o) as [v0|] eqn:Hm.
  - intros H. by injection H as <- <-.
  - intros H. apply bind_Ok in H as (r & _ & H).
    apply bind_Ok in H as (st & _ & H). by injection H as <- <-.
Qed.

Lemma views_keeps_lines o w o' :
  views_ o = Ok (w, o') → _lines_changed o' = _lines_changed o.
Proof.
  unfold Stats.views. destruct (_views o) as [v0|].
  - intros H. by injection H as _ <-.
  - intros H. apply bind_Ok in H as ([rs o1] & Hr & H). cbn [fst snd] in H.
    apply bind_Ok in H as (st & _ & H). injection H as _ <-.
    cbn [_lines_changed]. unfold Stats.repos in Hr.
    destruct (_repos o) as [r0|]; [by injection Hr as _ <-|].
    apply bind_Ok in Hr as (o2 & Hg & Hr). unfold asserted in Hr.
    destruct (_repos o2); [|done]. injection Hr as _ <-.
    by destruct (get_stats_obj _ _ _ _ _ _ _ Hg)
      as (? & ? & _ & _ & _ & _ & _ & _ & _ & ? & _).
Qed.

(** X19. [lines_changed] and [views] are memoised: once both have
    returned, a further call of either returns the same value and
    leaves the object, and with it the network, the clock and the cache
    file, as they are. *)
Theorem completed_calls_are_memoised o v o' w o'' :
  Stats.lines_changed username exclude_repos exclude_langs
    consider_forked_repos graphql primary secondary utcnow fuel o
  = Ok (v, o') →
  Stats.views exclude_repos exclude_langs consider_forked_repos graphql
    primary secondary fuel o' = Ok (w, o'') →
  Stats.lines_changed username exclude_repos exclude_langs
    consider_forked_repos graphql primary secondary utcnow fuel o''
  = Ok (v, o'')
  ∧ Stats.views exclude_repos exclude_langs consider_forked_repos graphql
      primary secondary fuel o'' = Ok (w, o'').
Proof.
  intros Hl Hv. apply lines_changed_memo in Hl.
  pose proof (views_keeps_lines _ _ _ Hv) as Hk. apply views_memo in Hv.
  unfold Stats.lines_changed, Stats.views. by rewrite Hk, Hl, Hv.
Qed.

Lemma view_loop_adds (vs : list view) : ∀ t,
  fold_left view_step vs t = t + Totals.sum_counts vs.
Proof.
  induction vs as [|x vs IH]; intros t; cbn [fold_left].
  - cbn. lia.
  - rewrite IH. unfold view_step, Totals.sum_counts. cbn [foldr]. lia.
Qed.

Lemma views_step_adds st repo st' :
  views_step primary secondary st repo = Ok st' →
  ∃ vs, (traffic repo).2 = Ok (BDict vs)
        ∧ st'.1 = st.1 + Totals.view_total primary secondary repo.
Proof.
  unfold views_step, Totals.view_total.
  generalize (traffic repo) as q. intros q H.
  cbv zeta in H. apply bind_Ok in H as (b & Hq & H).
  destruct b as [| |vs]; try discriminate. injection H as <-.
  exists vs. rewrite Hq. cbn [fst]. split; [done|].
  apply view_loop_adds.
Qed.

Lemma views_loop_adds (l : list string) : ∀ st st',
  foldM (views_step primary secondary) l st = Ok st' →
  st'.1 = st.1 + Totals.sum_views primary secondary l
  ∧ Forall (fun repo => ∃ vs, (traffic repo).2 = Ok (BDict vs)) l.
Proof.
  induction l as [|repo l IH]; intros st st' H.
  - injection H as <-. cbn. split; [lia|constructor].
  - rewrite foldM_cons in H. apply bind_Ok in H as (st1 & H1 & H).
    apply IH in H as (-> & Hall).
    apply views_step_adds in H1 as (vs & Hq & ->).
    unfold Totals.sum_views. cbn [foldr]. split; [lia|]. constructor; eauto.
Qed.

(** X20. A completed first call of [views] returns the sum, over the
    owned repositories, of the counts of their traffic buckets; the
    traffic of every one of them was answered with a mapping, so a
    single answer that is a list or null leaves the call without a
    result. *)
Theorem views_sums_counts o v o' :
  _views o = None → views_ o = Ok (v, o') →
  ∃ rs o1,
    repos_ o = Ok (rs, o1)
    ∧ v = Totals.sum_views primary secondary (elements rs)
    ∧ ∀ repo, repo ∈ rs → ∃ vs, (traffic repo).2 = Ok (BDict vs).
Proof.
  intros Hn H. unfold Stats.views in H. rewrite Hn in H.
  apply bind_Ok in H as ([rs o1] & Hr & H). cbn [fst snd] in H.
  apply bind_Ok in H as (st & Hloop & H). injection H as <- <-.
  exists rs, o1. split; [exact Hr|].
  apply views_loop_adds in Hloop as (-> & Hall). cbn [fst].
  split; [lia|]. intros repo Hin. apply elem_of_elements in Hin.
  rewrite Forall_forall in Hall. by apply Hall.
Qed.

(** *** The report *)

Lemma lines_changed_fields o v o' o1 :
  _lines_changed o = None → lines_changed_ o = Ok (v, o') →
  fetch_stats o = Ok o1 →
  _name o' = _name o1 ∧ _stargazers o' = _stargazers o1
  ∧ _forks o' = _forks o1 ∧ _languages o' = _languages o1
  ∧ _repos o' = _repos o1 ∧ _ignored_repos o' = _ignored_repos o1
  ∧ fetches o' = fetches o1 ∧ graph_queries o' = graph_queries o1.
Proof.
  intros Hn H Hg. unfold Stats.lines_changed in H. rewrite Hn in H.
  apply bind_Ok in H as (cache & _ & H). rewrite Hg in H. cbn [bind] in H.
  destruct (get_stats_obj _ _ _ _ _ _ _ Hg) as (st & k' & Hc & _).
  destruct (all_repos_after _ _ _ _ _ _ _ _ _ Hg Hc) as [Ha _].
  fold all_repos_ in H. rewrite Ha in H. cbn [bind fst snd] in H.
  apply bind_Ok in H as (final & _ & H). by injection H as _ <-.
Qed.

Lemma views_keeps_snapshot o rs w o' :
  _repos o = Some rs → views_ o = Ok (w, o') →
  fetches o' = fetches o ∧ graph_queries o' = graph_queries o.
Proof.
  intros Hr. unfold Stats.views. destruct (_views o) as [v0|].
  - intros H. by injection H as _ <-.
  - unfold Stats.repos. rewrite Hr. cbn [bind fst snd]. intros H.
    apply bind_Ok in H as (st & _ & H). by injection H as _ <-.
Qed.

(** X21. A completed [to_str] on a fresh object ran [get_stats] exactly
    twice, once for the language percentages and once more inside
    [lines_changed]: the percentages it shows are those of the first run,
    while the name, the stargazers, the forks and the repository count
    are those of the second; the changed lines are the added plus the
    deleted ones. *)
Theorem to_str_reads_two_runs years_answer totals_answer o s shown o' s' :
  _languages o = None → _lines_changed o = None →
  Report.to_str username exclude_repos exclude_langs consider_forked_repos
    graphql primary secondary utcnow fuel years_answer totals_answer o s
  = Ok (shown, o', s') →
  ∃ st1 k1 st2 k2,
    collector_run (graph_queries o) (_name o) = Ok (st1, k1)
    ∧ collector_run k1 (snap_name st1) = Ok (st2, k2)
    ∧ fetches o' = S (S (fetches o))
    ∧ graph_queries o' = k2
    ∧ Report.languages_shown shown
      = map (fun kv : string * lang_rec => (kv.1, prop kv.2))
            (snap_languages st1)
    ∧ Some (Report.name_shown shown) = snap_name st2
    ∧ Report.stargazers_shown shown = snap_stargazers st2
    ∧ Report.forks_shown shown = snap_forks st2
    ∧ Report.repositories_shown shown
      = base.size (snap_repos st2 ∪ snap_ignored_repos st2)
    ∧ Report.changed_shown shown
      = Report.added_shown shown + Report.deleted_shown shown.
Proof.
  intros Hlang Hlines H. unfold Report.to_str in H.
  apply bind_Ok in H as ([l oa] & Hl & H). cbn [fst snd] in H.
  apply bind_Ok in H as ([lc ob] & Hlc & H). cbn [fst snd] in H.
  apply bind_Ok in H as ([n o3] & Hname & H). cbn [fst snd] in H.
  apply bind_Ok in H as ([sg o4] & Hsg & H). cbn [fst snd] in H.
  apply bind_Ok in H as ([fk o5] & Hfk & H). cbn [fst snd] in H.
  cbv zeta in H.
  apply bind_Ok in H as (total & _ & H).
  apply bind_Ok in H as ([ar o6] & Har & H). cbn [fst snd] in H.
  apply bind_Ok in H as ([w o7] & Hw & H). cbn [fst snd] in H.
  injection H as <- <- _.
  cbn [Report.languages_shown Report.name_shown Report.stargazers_shown
       Report.forks_shown Report.repositories_shown Report.changed_shown
       Report.added_shown Report.deleted_shown].
  (* the first run *)
  unfold Stats.languages_proportional in Hl. rewrite Hlang in Hl.
  apply bind_Ok in Hl as ([l0 oa'] & Hl & Hl'). injection Hl' as <- <-.
  cbn [fst snd] in *.
  apply bind_Ok in Hl as (oa0 & Hg1 & Hl). unfold asserted in Hl.
  destruct (get_stats_obj _ _ _ _ _ _ _ Hg1)
    as (st1 & k1 & Hc1 & _ & _ & _ & _ & Hl1 & _ & Hlc1 & _ & Hq1 & Hf1 & _).
  rewrite Hl1 in Hl. injection Hl as <- <-.
  assert (Hn1 : _name oa0 = snap_name st1).
  { unfold Stats.get_stats in Hg1. rewrite Hc1 in Hg1. by injection Hg1 as <-. }
  (* the second run *)
  rewrite Hlines in Hlc1.
  destruct (lines_changed_inv _ _ _ _ _ _ _ _ _ _ _ _ Hlc1 Hlc)
    as (cache & o1 & st2 & k2 & final & _ & Hg2 & Hc2 & _).
  rewrite Hq1, Hn1 in Hc2.
  destruct (lines_changed_fields _ _ _ _ Hlc1 Hlc Hg2)
    as (Hbn & Hbs & Hbf & _ & Hbr & Hbi & Hbfetch & Hbq).
  destruct (get_stats_obj _ _ _ _ _ _ _ Hg2)
    as (st2' & k2' & Hc2' & Hr2 & Hi2 & Hs2 & Hfk2 & _ & _ & _ & _ & Hq2
        & Hf2 & _).
  rewrite Hq1, Hn1, Hc2 in Hc2'. injection Hc2' as <- <-.
  assert (Hn2 : _name o1 = snap_name st2).
  { unfold Stats.get_stats in Hg2. rewrite Hq1, Hn1, Hc2 in Hg2.
    by injection Hg2 as <-. }
  destruct (get_stats_names _ _ _ _ _ _ _ _ _ Hc2) as [n2 Hname2].
  rewrite Hn2, Hname2 in Hbn. rewrite Hs2 in Hbs. rewrite Hfk2 in Hbf.
  rewrite Hr2 in Hbr. rewrite Hi2 in Hbi.
  (* the accessors after it *)
  unfold Stats.name in Hname. rewrite Hbn in Hname. injection Hname as <- <-.
  unfold Stats.stargazers in Hsg. rewrite Hbs in Hsg. injection Hsg as <- <-.
  unfold Stats.forks in Hfk. rewrite Hbf in Hfk. injection Hfk as <- <-.
  unfold Stats.all_repos in Har. rewrite Hbr, Hbi in Har.
  injection Har as <- <-.
  destruct (views_keeps_snapshot _ _ _ _ Hbr Hw) as [Hwf Hwq].
  exists st1, k1, st2, k2. split; [exact Hc1|]. split; [exact Hc2|].
  split; [by rewrite Hwf, Hbfetch, Hf2, Hf1|].
  split; [by rewrite Hwq, Hbq, Hq2|]. by repeat split.
Qed.

End StatsMore.

(** ** The contribution total *)

Section ContributionFacts.
Import Contributions.

Variable years_answer : nat → result (option (option (list Z))).
Variable totals_answer :
  nat → list Z → result (option (option (list year_obj))).

Lemma year_loop_sums (values : list year_obj) : ∀ t,
  fold_left add_year values t = t + sum_years values.
Proof.
  induction values as [|y values IH]; intros t; cbn [fold_left]; [cbn; lia|].
  rewrite IH. unfold add_year, sum_years. cbn [foldr]. lia.
Qed.

(** X22. A completed first call of [total_contributions] sent two
    queries, the second one for the years the first one listed, and
    returns the sum of the yearly totals, an absent one counting for 0;
    the value is memoised, so a further call returns it without a
    query. *)
Theorem total_contributions_sums_years s v s' :
  _total_contributions s = None →
  total_contributions years_answer totals_answer s = (Ok v, s') →
  (∃ doc values,
     years_answer (queries_sent s) = Ok (Some doc)
     ∧ totals_answer (S (queries_sent s)) (default [] doc) = Ok (Some values)
     ∧ v = sum_years (default [] values))
  ∧ queries_sent s' = S (S (queries_sent s))
  ∧ total_contributions years_answer totals_answer s' = (Ok v, s').
Proof.
  intros Hn H. unfold total_contributions in H. rewrite Hn in H.
  destruct (years_answer (queries_sent s)) as [[doc|]|e|] eqn:Hy;
    try discriminate.
  destruct (totals_answer _ _) as [[values|]|e|] eqn:Ht; try discriminate.
  injection H as <- <-. rewrite year_loop_sums, Z.add_0_l.
  split; [by exists doc, values|]. split; [done|].
  unfold total_contributions. cbn [_total_contributions]. done.
Qed.

(** X23. The running total is set to 0 before the first query is sent:
    when a first call raises, because a transport fails or an answer is
    null, a further call raises nothing, sends no query and returns
    0. *)
Theorem failed_total_contributions_reads_as_zero s e s' :
  _total_contributions s = None →
  total_contributions years_answer totals_answer s = (Raise e, s') →
  total_contributions years_answer totals_answer s' = (Ok 0, s').
Proof.
  intros Hn H. unfold total_contributions in H. rewrite Hn in H.
  destruct (years_answer (queries_sent s)) as [[doc|]|e'|] eqn:Hy.
  1: destruct (totals_answer _ _) as [[values|]|e'|] eqn:Ht.
  all: try discriminate; injection H as _ <-; reflexivity.
Qed.

End ContributionFacts.

(** ** The further properties, in the scenario *)

Section CasesFacts.
Import Gateway Traces Cache Collector Languages Stats.

Lemma query_rest_without_primary_failure_witness :
  ∃ b, (query_rest Cases.steady_primary Demo.secondary "/repos/octocat/a").2
       = Ok b ∧ b ≠ BNull
       ∧ fallback_attempts
           (query_rest Cases.steady_primary Demo.secondary
              "/repos/octocat/a").1 = O.
Proof.
  apply query_rest_without_primary_failure.
  intros j url. exists 200, (BList []). reflexivity.
Defined.

Lemma query_rest_none_comes_from_fallback_witness :
  ∃ url, last (query_rest Demo.primary Cases.null_secondary
                 "/repos/octocat/a").1 = Some (EGetFallback url).
Proof.
  apply query_rest_none_comes_from_fallback. vm_compute. reflexivity.
Defined.

Lemma query_rest_raises_from_fallback_only_witness :
  (TransportError = TransportError ∨ TransportError = ValueError)
  ∧ ∃ url, last (query_rest Demo.primary Cases.dead_secondary
                   "/repos/octocat/a").1 = Some (EGetFallback url).
Proof.
  apply query_rest_raises_from_fallback_only. vm_compute. reflexivity.
Defined.

Lemma query_rest_retries_without_pause_witness :
  (query_rest Cases.null_primary Demo.secondary "/repos/octocat/a").2
  = Ok empty_dict
  ∧ attempts (query_rest Cases.null_primary Demo.secondary
                "/repos/octocat/a").1 = 60%nat
  ∧ sleeps (query_rest Cases.null_primary Demo.secondary
              "/repos/octocat/a").1 = []
  ∧ last (query_rest Cases.null_primary Demo.secondary
            "/repos/octocat/a").1 = Some (EPrint msg_give_up).
Proof.
  apply query_rest_retries_without_pause. intros j _. reflexivity.
Defined.

Lemma get_stats_needs_a_last_page_witness :
  Collector.get_stats Demo.exclude_repos Demo.exclude_langs false
    Cases.graphql_endless 7 0 None = Diverge
  ∧ ∀ r, Collector.get_stats Demo.exclude_repos Demo.exclude_langs false
           Cases.graphql_endless 7 0 None ≠ Ok r.
Proof.
  split; [vm_compute; reflexivity|].
  intros r. apply get_stats_needs_a_last_page.
  intros k a b p H. injection H as <-. reflexivity.
Defined.

Lemma get_stats_without_viewer_data_witness :
  Collector.get_stats Demo.exclude_repos Demo.exclude_langs false
    Cases.graphql_null 1 0 (Some "The Octocat")
  = Ok ({| snap_name := Some "No Name"; snap_stargazers := 0;
           snap_forks := 0; snap_languages := []; snap_repos := ∅;
           snap_ignored_repos := ∅; snap_repo_language_data := ∅ |}, 1%nat)
  ∧ Collector.get_stats Demo.exclude_repos Demo.exclude_langs false
      Cases.graphql_null_data 1 0 (Some "The Octocat")
    = Raise AttributeError.
Proof.
  split.
  - apply (get_stats_without_viewer_data Demo.exclude_repos
             Demo.exclude_langs false Cases.graphql_null 0 0
             (Some "The Octocat") None); reflexivity.
  - apply (get_stats_without_viewer_data Demo.exclude_repos
             Demo.exclude_langs false Cases.graphql_null_data 0 0
             (Some "The Octocat") (Some Cases.page_null_data)); reflexivity.
Defined.

Lemma fork_inclusion_admits_contributed_witness :
  ∃ st k',
    Collector.get_stats Demo.exclude_repos Demo.exclude_langs true
      Demo.graphql Demo.fuel 0 None = Ok (st, k')
    ∧ snap_ignored_repos st = ∅
    ∧ "other/c" ∈ snap_repos st.
Proof.
  destruct (Collector.get_stats _ _ _ _ _ _ _) as [[st k']| |] eqn:E;
    [|vm_compute in E; discriminate..].
  destruct (fork_inclusion_admits_contributed _ _ _ _ _ _ _ _ _ eq_refl E)
    as [Hi Hall].
  exists st, k'. split; [reflexivity|]. split; [exact Hi|].
  apply (Hall Demo.repo_c); [vm_compute; left|decide_by_computation].
Defined.

Lemma excluded_language_counts_nowhere_witness :
  Collector.get_stats Demo.exclude_repos {[ "Python" ]} false
    (map_pages (page_without_lang "Python") Demo.graphql) Demo.fuel 0 None
  = Collector.get_stats Demo.exclude_repos {[ "Python" ]} false
      Demo.graphql Demo.fuel 0 None.
Proof.
  apply excluded_language_counts_nowhere. decide_by_computation.
Defined.

Lemma language_sizes_add_up_witness :
  ∃ st k' v,
    Collector.get_stats Demo.exclude_repos Demo.exclude_langs false
      Demo.graphql Demo.fuel 0 None = Ok (st, k')
    ∧ alist_lookup "Python" (snap_languages st) = Some v
    ∧ size v = 500 ∧ occurrences v = 2.
Proof.
  destruct (Collector.get_stats _ _ _ _ _ _ _) as [[st k']| |] eqn:E;
    [|vm_compute in E; discriminate..].
  pose proof (language_sizes_add_up _ _ _ _ _ _ _ _ _ "Python" E) as H.
  cbv zeta in H.
  destruct (alist_lookup "Python" (snap_languages st)) as [v|] eqn:El.
  - destruct H as (_ & Hs & Ho). exists st, k', v.
    split; [reflexivity|]. split; [exact El|].
    rewrite Hs, Ho. split; vm_compute; reflexivity.
  - vm_compute in H. discriminate.
Defined.

Lemma language_shares_of_counted_repositories_witness :
  ∃ st k' q,
    Collector.get_stats Demo.exclude_repos Demo.exclude_langs false
      Demo.graphql Demo.fuel 0 None = Ok (st, k')
    ∧ snap_repo_language_data st !! "octocat/a"
      = Some [("Python", S754_finite false 6004799503160661 (-53));
              ("C", S754_finite false 6004799503160661 (-54))]
    ∧ PyFloat.true_div 200 300 = Ok q
    ∧ q = S754_finite false 6004799503160661 (-53).
Proof.
  destruct (Collector.get_stats _ _ _ _ _ _ _) as [[st k']| |] eqn:E;
    [|vm_compute in E; discriminate..].
  destruct (language_shares_of_counted_repositories _ _ _ _ _ _ _ _ _ E)
    as (Hpos & _ & _).
  destruct (Hpos Demo.repo_a) as (props & Hl & _ & Hlang);
    [vm_compute; left|vm_compute; reflexivity|].
  destruct (Hlang "Python") as (q & Hq & _).
  exists st, k', q. split; [reflexivity|]. split; [|split].
  - pose proof E as E0. vm_compute in E0. injection E0 as <- _.
    vm_compute. reflexivity.
  - exact Hq.
  - vm_compute in Hq. by injection Hq as <-.
Defined.

Lemma get_stats_divides_by_zero_only_after_the_loop_witness :
  Collector.get_stats Demo.exclude_repos Demo.exclude_langs false
    Demo.graphql_empty_lang Demo.fuel 0 None = Raise ZeroDivisionError
  ↔ ∃ st0 k0,
      collect Demo.exclude_repos Demo.exclude_langs false
        Demo.graphql_empty_lang Demo.fuel 0 None None (reset None)
      = Ok (st0, k0)
      ∧ snap_languages st0 ≠ []
      ∧ langs_total (snap_languages st0) = 0.
Proof.
  apply get_stats_divides_by_zero_only_after_the_loop.
  intros k a b. discriminate.
Defined.

Lemma get_stats_is_repeatable_witness :
  rmap fst (Collector.get_stats Demo.exclude_repos Demo.exclude_langs false
              Demo.graphql Demo.fuel 0 None)
  = rmap fst (Collector.get_stats Demo.exclude_repos Demo.exclude_langs
                false Demo.graphql Demo.fuel 2 (Some "The Octocat")).
Proof.
  apply get_stats_is_repeatable. intros k k' a b. reflexivity.
Defined.

Lemma lines_loop_order_independent_witness :
  ∃ final final',
    Lines.run Demo.username Demo.primary Demo.secondary Demo.utcnow
      Demo.loaded Demo.repo_language_data Demo.run_order 0 [] = Ok final
    ∧ Lines.run Demo.username Demo.primary Demo.secondary Demo.utcnow
        Demo.loaded Demo.repo_language_data Cases.other_order 0 []
      = Ok final'
    ∧ Lines.total_additions final' = Lines.total_additions final
    ∧ Lines.total_deletions final' = Lines.total_deletions final.
Proof.
  destruct (Lines.run _ _ _ _ _ _ Demo.run_order _ _) as [final| |] eqn:E;
    [|vm_compute in E; discriminate..].
  destruct (lines_loop_order_independent _ _ _ _ _ _
              Demo.run_order Cases.other_order 0%nat [] final
              (Permutation_cons_append _ _) E)
    as (_ & final' & H' & Ha & Hd).
  exists final, final'. split; [reflexivity|]. split; [exact H'|].
  split; [exact Ha|exact Hd].
Defined.

Lemma get_stats_serves_every_accessor_witness :
  ∃ o1 n,
    Stats.get_stats Demo.exclude_repos Demo.exclude_langs false Demo.graphql
      Demo.fuel Demo.fresh = Ok o1
    ∧ Stats.name Demo.exclude_repos Demo.exclude_langs false Demo.graphql
        Demo.fuel o1 = Ok (n, o1).
Proof.
  destruct (Stats.get_stats _ _ _ _ _ _) as [o1| |] eqn:E;
    [|vm_compute in E; discriminate..].
  destruct (get_stats_serves_every_accessor _ _ _ _ _ _ _ E)
    as (n & s & f & l & r & i & Hn & _).
  exists o1, n. split; [reflexivity|exact Hn].
Defined.

Lemma lines_changed_sums_contributions_witness :
  ∃ v o',
    Demo.lines_changed Demo.fresh = Ok (v, o')
    ∧ ∃ b, (Lines.fetch Demo.primary Demo.secondary "other/c").2 = Ok b.
Proof.
  destruct (Demo.lines_changed Demo.fresh) as [[v o']| |] eqn:E;
    [|vm_compute in E; discriminate..].
  destruct (lines_changed_sums_contributions
              Demo.username Demo.exclude_repos Demo.exclude_langs false
              Demo.graphql Demo.primary Demo.secondary Demo.utcnow Demo.fuel
              Demo.fresh v o' eq_refl E)
    as (cache & st & k' & _ & Hc & _ & Hall).
  exists v, o'. split; [reflexivity|]. apply Hall.
  destruct (contributed_only_membership
              Demo.exclude_repos Demo.exclude_langs false Demo.graphql
              "other/c" Demo.fuel _ _ st k' eq_refl Hc) as [Hi _].
  apply elem_of_union. right. apply Hi. split; decide_by_computation.
Defined.

Lemma uncounted_repository_lines_are_unknown_witness :
  ∃ v o' cache' entry,
    Stats.lines_changed Demo.username Demo.exclude_repos Demo.exclude_langs
      false Demo.graphql Cases.primary_with_c Demo.secondary Demo.utcnow
      Demo.fuel Demo.fresh = Ok (v, o')
    ∧ cache_file o' = Json cache'
    ∧ Cache.repositories cache' !! "other/c" = Some entry
    ∧ Cache.languages entry
      = Some [("Unknown", {| lang_additions := 8; lang_deletions := 1 |})].
Proof.
  destruct (Stats.lines_changed _ _ _ _ _ _ _ _ _ _) as [[v o']| |] eqn:E;
    [|vm_compute in E; discriminate..].
  destruct (Collector.get_stats Demo.exclude_repos Demo.exclude_langs false
              Demo.graphql Demo.fuel 0 None) as [[st k']| |] eqn:Hc;
    [|vm_compute in Hc; discriminate..].
  destruct (uncounted_repository_lines_are_unknown
              Demo.username Demo.exclude_repos Demo.exclude_langs false
              Demo.graphql Cases.primary_with_c Demo.secondary Demo.utcnow
              Demo.fuel "other/c" Demo.fresh st k' v o'
              (match Demo.stats_of_b with BList l => l | _ => [] end))
    as (cache' & entry & Hf & Hl & Ht & Hlangs).
  - exact Hc.
  - apply (contributed_only_membership
             Demo.exclude_repos Demo.exclude_langs false Demo.graphql
             "other/c" Demo.fuel _ _ st k' eq_refl Hc).
    split; decide_by_computation.
  - intros Hin.
    apply (contributed_only_membership
             Demo.exclude_repos Demo.exclude_langs false Demo.graphql
             "other/c" Demo.fuel _ _ st k' eq_refl Hc) in Hin as [Hin _].
    revert Hin. decide_by_computation.
  - reflexivity.
  - exact E.
  - vm_compute. reflexivity.
  - exists v, o', cache', entry. split; [reflexivity|]. split; [exact Hf|].
    split; [exact Hl|]. rewrite Hlangs.
    replace (Lines.repo_totals _ _) with (8, 1) in Ht
      by (vm_compute; reflexivity).
    injection Ht as -> ->. reflexivity.
Defined.

Lemma completed_calls_are_memoised_witness :
  ∃ v o' w o'',
    Demo.lines_changed Demo.fresh = Ok (v, o')
    ∧ Demo.views o' = Ok (w, o'')
    ∧ Demo.lines_changed o'' = Ok (v, o'')
    ∧ Demo.views o'' = Ok (w, o'').
Proof.
  destruct (let* r := Demo.lines_changed Demo.fresh in Demo.views r.2)
    as [[w o'']| |] eqn:E0; [|vm_compute in E0; discriminate..].
  apply bind_Ok in E0 as ([v o'] & E & Ev). cbn [snd] in Ev.
  destruct (completed_calls_are_memoised
              Demo.username Demo.exclude_repos Demo.exclude_langs false
              Demo.graphql Demo.primary Demo.secondary Demo.utcnow Demo.fuel
              Demo.fresh v o' w o'' E Ev) as [Hl Hv].
  exists v, o', w, o''. split; [exact E|]. split; [exact Ev|].
  split; [exact Hl|exact Hv].
Defined.

Lemma views_sums_counts_witness :
  ∃ o', Demo.views Demo.fresh = Ok (7, o').
Proof.
  destruct (Demo.views Demo.fresh) as [[v o']| |] eqn:E;
    [|vm_compute in E; discriminate..].
  destruct (views_sums_counts
              Demo.exclude_repos Demo.exclude_langs false Demo.graphql
              Demo.primary Demo.secondary Demo.fuel Demo.fresh v o' eq_refl E)
    as (rs & o1 & Hr & -> & _).
  exists o'. apply (f_equal (rmap fst)) in Hr. vm_compute in Hr.
  injection Hr as <-. vm_compute. reflexivity.
Defined.

Lemma total_contributions_sums_years_witness :
  ∃ s',
    Contributions.total_contributions Cases.years_answer Cases.totals_answer
      Cases.no_contributions = (Ok 120, s')
    ∧ Contributions.queries_sent s' = 2%nat
    ∧ Contributions.total_contributions Cases.years_answer
        Cases.totals_answer s' = (Ok 120, s').
Proof.
  eexists. split; [reflexivity|].
  destruct (total_contributions_sums_years
              Cases.years_answer Cases.totals_answer
              Cases.no_contributions 120 _ eq_refl eq_refl)
    as (_ & Hq & Hm).
  split; [exact Hq|exact Hm].
Defined.

Lemma failed_total_contributions_reads_as_zero_witness :
  ∃ s',
    Contributions.total_contributions Cases.years_down Cases.totals_answer
      Cases.no_contributions = (Raise TransportError, s')
    ∧ Contributions.total_contributions Cases.years_down
        Cases.totals_answer s' = (Ok 0, s').
Proof.
  eexists. split; [reflexivity|].
  apply (failed_total_contributions_reads_as_zero
           Cases.years_down Cases.totals_answer
           Cases.no_contributions TransportError _ eq_refl eq_refl).
Defined.

Lemma to_str_reads_two_runs_witness :
  ∃ shown o' s',
    Report.to_str Demo.username Demo.exclude_repos Demo.exclude_langs false
      Demo.graphql Demo.primary Demo.secondary Demo.utcnow Demo.fuel
      Cases.years_answer Cases.totals_answer Demo.fresh
      Cases.no_contributions = Ok (shown, o', s')
    ∧ fetches o' = 2%nat
    ∧ Report.changed_shown shown
      = Report.added_shown shown + Report.deleted_shown shown.
Proof.
  destruct (Report.to_str _ _ _ _ _ _ _ _ _ _ _ _ _)
    as [[[shown o'] s']| |] eqn:E; [|vm_compute in E; discriminate..].
  destruct (to_str_reads_two_runs
              Demo.username Demo.exclude_repos Demo.exclude_langs false
              Demo.graphql Demo.primary Demo.secondary Demo.utcnow Demo.fuel
              Cases.years_answer Cases.totals_answer Demo.fresh
              Cases.no_contributions shown o' s' eq_refl eq_refl E)
    as (st1 & k1 & st2 & k2 & _ & _ & Hf & _ & _ & _ & _ & _ & _ & Hc).
  exists shown, o', s'. split; [reflexivity|]. split; [exact Hf|exact Hc].
Defined.

End CasesFacts.

